(** * Kryptographie: the substitution-cipher solver of [caesar_shift/pypher.py]

    A shallow embedding of the solver (key application, quadgram scoring,
    hill climbing with restarts, and the hash-keyed result cache of [main]),
    of the Caesar scripts and of the permutation search, together with the
    properties that the design document states about the solver.

    Modelling conventions.
    - A character is its code point, a string is the list of its characters.
      The methods of [str] that the code calls ([upper], [lower], [isupper],
      [isalpha], [isspace], [split], [strip]) and the digits of [int] follow
      the character database of CPython 3.11 (Unicode 14.0), which is
      tabulated below.
    - A Python [dict] is a [gmap] where only its content is used, and the
      list of its items in insertion order where it is iterated.  A key
      mapping sends one character to one character, as every mapping built
      by the source does.
    - Python floats are idealised as real numbers (no rounding); the
      conversion of an integer that is too large for a float raises
      [OverflowError], and [-float('inf')] is a separate bottom element.
    - The process-global [random] module is an explicit generator state that
      is threaded through the search. *)

From Stdlib Require Import Reals Lra.
From stdpp Require Import gmap strings list.
From Stdlib Require Import Ascii Sorted.

Local Open Scope char_scope.

(** ** Characters and text *)

Abbreviation character := N (only parsing).

Abbreviation text := (list N) (only parsing).

(** [ord(c)] for an ASCII character literal. *)
Definition ord (c : ascii) : character := N_of_ascii c.

(** A string literal of ASCII characters. *)
Definition txt (s : string) : text := map ord (String.list_ascii_of_string s).
Arguments txt : simpl never.

(** ** The character database *)

(** The characters [c] that [str.upper] changes, in increasing order, each with the
    characters of [c.upper()]. *)
Definition upper_table : list (N * list N) :=
  ([
   (97,[65]); (98,[66]); (99,[67]); (100,[68]); (101,[69]); (102,[70]); (103,[71]); (104,[72]);
   (105,[73]); (106,[74]); (107,[75]); (108,[76]); (109,[77]); (110,[78]); (111,[79]); (112,[80]);
   (113,[81]); (114,[82]); (115,[83]); (116,[84]); (117,[85]); (118,[86]); (119,[87]); (120,[88]);
   (121,[89]); (122,[90]); (181,[924]); (223,[83;83]); (224,[192]); (225,[193]); (226,[194]);
   (227,[195]); (228,[196]); (229,[197]); (230,[198]); (231,[199]); (232,[200]); (233,[201]);
   (234,[202]); (235,[203]); (236,[204]); (237,[205]); (238,[206]); (239,[207]); (240,[208]);
   (241,[209]); (242,[210]); (243,[211]); (244,[212]); (245,[213]); (246,[214]); (248,[216]);
   (249,[217]); (250,[218]); (251,[219]); (252,[220]); (253,[221]); (254,[222]); (255,[376]);
   (257,[256]); (259,[258]); (261,[260]); (263,[262]); (265,[264]); (267,[266]); (269,[268]);
   (271,[270]); (273,[272]); (275,[274]); (277,[276]); (279,[278]); (281,[280]); (283,[282]);
   (285,[284]); (287,[286]); (289,[288]); (291,[290]); (293,[292]); (295,[294]); (297,[296]);
   (299,[298]); (301,[300]); (303,[302]); (305,[73]); (307,[306]); (309,[308]); (311,[310]);
   (314,[313]); (316,[315]); (318,[317]); (320,[319]); (322,[321]); (324,[323]); (326,[325]);
   (328,[327]); (329,[700;78]); (331,[330]); (333,[332]); (335,[334]); (337,[336]); (339,[338]);
   (341,[340]); (343,[342]); (345,[344]); (347,[346]); (349,[348]); (351,[350]); (353,[352]);
   (355,[354]); (357,[356]); (359,[358]); (361,[360]); (363,[362]); (365,[364]); (367,[366]);
   (369,[368]); (371,[370]); (373,[372]); (375,[374]); (378,[377]); (380,[379]); (382,[381]);
   (383,[83]); (384,[579]); (387,[386]); (389,[388]); (392,[391]); (396,[395]); (402,[401]);
   (405,[502]); (409,[408]); (410,[573]); (414,[544]); (417,[416]); (419,[418]); (421,[420]);
   (424,[423]); (429,[428]); (432,[431]); (436,[435]); (438,[437]); (441,[440]); (445,[444]);
   (447,[503]); (453,[452]); (454,[452]); (456,[455]); (457,[455]); (459,[458]); (460,[458]);
   (462,[461]); (464,[463]); (466,[465]); (468,[467]); (470,[469]); (472,[471]); (474,[473]);
   (476,[475]); (477,[398]); (479,[478]); (481,[480]); (483,[482]); (485,[484]); (487,[486]);
   (489,[488]); (491,[490]); (493,[492]); (495,[494]); (496,[74;780]); (498,[497]); (499,[497]);
   (501,[500]); (505,[504]); (507,[506]); (509,[508]); (511,[510]); (513,[512]); (515,[514]);
   (517,[516]); (519,[518]); (521,[520]); (523,[522]); (525,[524]); (527,[526]); (529,[528]);
   (531,[530]); (533,[532]); (535,[534]); (537,[536]); (539,[538]); (541,[540]); (543,[542]);
   (547,[546]); (549,[548]); (551,[550]); (553,[552]); (555,[554]); (557,[556]); (559,[558]);
   (561,[560]); (563,[562]); (572,[571]); (575,[11390]); (576,[11391]); (578,[577]); (583,[582]);
   (585,[584]); (587,[586]); (589,[588]); (591,[590]); (592,[11375]); (593,[11373]); (594,[11376]);
   (595,[385]); (596,[390]); (598,[393]); (599,[394]); (601,[399]); (603,[400]); (604,[42923]);
   (608,[403]); (609,[42924]); (611,[404]); (613,[42893]); (614,[42922]); (616,[407]); (617,[406]);
   (618,[42926]); (619,[11362]); (620,[42925]); (623,[412]); (625,[11374]); (626,[413]);
   (629,[415]); (637,[11364]); (640,[422]); (642,[42949]); (643,[425]); (647,[42929]); (648,[430]);
   (649,[580]); (650,[433]); (651,[434]); (652,[581]); (658,[439]); (669,[42930]); (670,[42928]);
   (837,[921]); (881,[880]); (883,[882]); (887,[886]); (891,[1021]); (892,[1022]); (893,[1023]);
   (912,[921;776;769]); (940,[902]); (941,[904]); (942,[905]); (943,[906]); (944,[933;776;769]);
   (945,[913]); (946,[914]); (947,[915]); (948,[916]); (949,[917]); (950,[918]); (951,[919]);
   (952,[920]); (953,[921]); (954,[922]); (955,[923]); (956,[924]); (957,[925]); (958,[926]);
   (959,[927]); (960,[928]); (961,[929]); (962,[931]); (963,[931]); (964,[932]); (965,[933]);
   (966,[934]); (967,[935]); (968,[936]); (969,[937]); (970,[938]); (971,[939]); (972,[908]);
   (973,[910]); (974,[911]); (976,[914]); (977,[920]); (981,[934]); (982,[928]); (983,[975]);
   (985,[984]); (987,[986]); (989,[988]); (991,[990]); (993,[992]); (995,[994]); (997,[996]);
   (999,[998]); (1001,[1000]); (1003,[1002]); (1005,[1004]); (1007,[1006]); (1008,[922]);
   (1009,[929]); (1010,[1017]); (1011,[895]); (1013,[917]); (1016,[1015]); (1019,[1018]);
   (1072,[1040]); (1073,[1041]); (1074,[1042]); (1075,[1043]); (1076,[1044]); (1077,[1045]);
   (1078,[1046]); (1079,[1047]); (1080,[1048]); (1081,[1049]); (1082,[1050]); (1083,[1051]);
   (1084,[1052]); (1085,[1053]); (1086,[1054]); (1087,[1055]); (1088,[1056]); (1089,[1057]);
   (1090,[1058]); (1091,[1059]); (1092,[1060]); (1093,[1061]); (1094,[1062]); (1095,[1063]);
   (1096,[1064]); (1097,[1065]); (1098,[1066]); (1099,[1067]); (1100,[1068]); (1101,[1069]);
   (1102,[1070]); (1103,[1071]); (1104,[1024]); (1105,[1025]); (1106,[1026]); (1107,[1027]);
   (1108,[1028]); (1109,[1029]); (1110,[1030]); (1111,[1031]); (1112,[1032]); (1113,[1033]);
   (1114,[1034]); (1115,[1035]); (1116,[1036]); (1117,[1037]); (1118,[1038]); (1119,[1039]);
   (1121,[1120]); (1123,[1122]); (1125,[1124]); (1127,[1126]); (1129,[1128]); (1131,[1130]);
   (1133,[1132]); (1135,[1134]); (1137,[1136]); (1139,[1138]); (1141,[1140]); (1143,[1142]);
   (1145,[1144]); (1147,[1146]); (1149,[1148]); (1151,[1150]); (1153,[1152]); (1163,[1162]);
   (1165,[1164]); (1167,[1166]); (1169,[1168]); (1171,[1170]); (1173,[1172]); (1175,[1174]);
   (1177,[1176]); (1179,[1178]); (1181,[1180]); (1183,[1182]); (1185,[1184]); (1187,[1186]);
   (1189,[1188]); (1191,[1190]); (1193,[1192]); (1195,[1194]); (1197,[1196]); (1199,[1198]);
   (1201,[1200]); (1203,[1202]); (1205,[1204]); (1207,[1206]); (1209,[1208]); (1211,[1210]);
   (1213,[1212]); (1215,[1214]); (1218,[1217]); (1220,[1219]); (1222,[1221]); (1224,[1223]);
   (1226,[1225]); (1228,[1227]); (1230,[1229]); (1231,[1216]); (1233,[1232]); (1235,[1234]);
   (1237,[1236]); (1239,[1238]); (1241,[1240]); (1243,[1242]); (1245,[1244]); (1247,[1246]);
   (1249,[1248]); (1251,[1250]); (1253,[1252]); (1255,[1254]); (1257,[1256]); (1259,[1258]);
   (1261,[1260]); (1263,[1262]); (1265,[1264]); (1267,[1266]); (1269,[1268]); (1271,[1270]);
   (1273,[1272]); (1275,[1274]); (1277,[1276]); (1279,[1278]); (1281,[1280]); (1283,[1282]);
   (1285,[1284]); (1287,[1286]); (1289,[1288]); (1291,[1290]); (1293,[1292]); (1295,[1294]);
   (1297,[1296]); (1299,[1298]); (1301,[1300]); (1303,[1302]); (1305,[1304]); (1307,[1306]);
   (1309,[1308]); (1311,[1310]); (1313,[1312]); (1315,[1314]); (1317,[1316]); (1319,[1318]);
   (1321,[1320]); (1323,[1322]); (1325,[1324]); (1327,[1326]); (1377,[1329]); (1378,[1330]);
   (1379,[1331]); (1380,[1332]); (1381,[1333]); (1382,[1334]); (1383,[1335]); (1384,[1336]);
   (1385,[1337]); (1386,[1338]); (1387,[1339]); (1388,[1340]); (1389,[1341]); (1390,[1342]);
   (1391,[1343]); (1392,[1344]); (1393,[1345]); (1394,[1346]); (1395,[1347]); (1396,[1348]);
   (1397,[1349]); (1398,[1350]); (1399,[1351]); (1400,[1352]); (1401,[1353]); (1402,[1354]);
   (1403,[1355]); (1404,[1356]); (1405,[1357]); (1406,[1358]); (1407,[1359]); (1408,[1360]);
   (1409,[1361]); (1410,[1362]); (1411,[1363]); (1412,[1364]); (1413,[1365]); (1414,[1366]);
   (1415,[1333;1362]); (4304,[7312]); (4305,[7313]); (4306,[7314]); (4307,[7315]); (4308,[7316]);
   (4309,[7317]); (4310,[7318]); (4311,[7319]); (4312,[7320]); (4313,[7321]); (4314,[7322]);
   (4315,[7323]); (4316,[7324]); (4317,[7325]); (4318,[7326]); (4319,[7327]); (4320,[7328]);
   (4321,[7329]); (4322,[7330]); (4323,[7331]); (4324,[7332]); (4325,[7333]); (4326,[7334]);
   (4327,[7335]); (4328,[7336]); (4329,[7337]); (4330,[7338]); (4331,[7339]); (4332,[7340]);
   (4333,[7341]); (4334,[7342]); (4335,[7343]); (4336,[7344]); (4337,[7345]); (4338,[7346]);
   (4339,[7347]); (4340,[7348]); (4341,[7349]); (4342,[7350]); (4343,[7351]); (4344,[7352]);
   (4345,[7353]); (4346,[7354]); (4349,[7357]); (4350,[7358]); (4351,[7359]); (5112,[5104]);
   (5113,[5105]); (5114,[5106]); (5115,[5107]); (5116,[5108]); (5117,[5109]); (7296,[1042]);
   (7297,[1044]); (7298,[1054]); (7299,[1057]); (7300,[1058]); (7301,[1058]); (7302,[1066]);
   (7303,[1122]); (7304,[42570]); (7545,[42877]); (7549,[11363]); (7566,[42950]); (7681,[7680]);
   (7683,[7682]); (7685,[7684]); (7687,[7686]); (7689,[7688]); (7691,[7690]); (7693,[7692]);
   (7695,[7694]); (7697,[7696]); (7699,[7698]); (7701,[7700]); (7703,[7702]); (7705,[7704]);
   (7707,[7706]); (7709,[7708]); (7711,[7710]); (7713,[7712]); (7715,[7714]); (7717,[7716]);
   (7719,[7718]); (7721,[7720]); (7723,[7722]); (7725,[7724]); (7727,[7726]); (7729,[7728]);
   (7731,[7730]); (7733,[7732]); (7735,[7734]); (7737,[7736]); (7739,[7738]); (7741,[7740]);
   (7743,[7742]); (7745,[7744]); (7747,[7746]); (7749,[7748]); (7751,[7750]); (7753,[7752]);
   (7755,[7754]); (7757,[7756]); (7759,[7758]); (7761,[7760]); (7763,[7762]); (7765,[7764]);
   (7767,[7766]); (7769,[7768]); (7771,[7770]); (7773,[7772]); (7775,[7774]); (7777,[7776]);
   (7779,[7778]); (7781,[7780]); (7783,[7782]); (7785,[7784]); (7787,[7786]); (7789,[7788]);
   (7791,[7790]); (7793,[7792]); (7795,[7794]); (7797,[7796]); (7799,[7798]); (7801,[7800]);
   (7803,[7802]); (7805,[7804]); (7807,[7806]); (7809,[7808]); (7811,[7810]); (7813,[7812]);
   (7815,[7814]); (7817,[7816]); (7819,[7818]); (7821,[7820]); (7823,[7822]); (7825,[7824]);
   (7827,[7826]); (7829,[7828]); (7830,[72;817]); (7831,[84;776]); (7832,[87;778]);
   (7833,[89;778]); (7834,[65;702]); (7835,[7776]); (7841,[7840]); (7843,[7842]); (7845,[7844]);
   (7847,[7846]); (7849,[7848]); (7851,[7850]); (7853,[7852]); (7855,[7854]); (7857,[7856]);
   (7859,[7858]); (7861,[7860]); (7863,[7862]); (7865,[7864]); (7867,[7866]); (7869,[7868]);
   (7871,[7870]); (7873,[7872]); (7875,[7874]); (7877,[7876]); (7879,[7878]); (7881,[7880]);
   (7883,[7882]); (7885,[7884]); (7887,[7886]); (7889,[7888]); (7891,[7890]); (7893,[7892]);
   (7895,[7894]); (7897,[7896]); (7899,[7898]); (7901,[7900]); (7903,[7902]); (7905,[7904]);
   (7907,[7906]); (7909,[7908]); (7911,[7910]); (7913,[7912]); (7915,[7914]); (7917,[7916]);
   (7919,[7918]); (7921,[7920]); (7923,[7922]); (7925,[7924]); (7927,[7926]); (7929,[7928]);
   (7931,[7930]); (7933,[7932]); (7935,[7934]); (7936,[7944]); (7937,[7945]); (7938,[7946]);
   (7939,[7947]); (7940,[7948]); (7941,[7949]); (7942,[7950]); (7943,[7951]); (7952,[7960]);
   (7953,[7961]); (7954,[7962]); (7955,[7963]); (7956,[7964]); (7957,[7965]); (7968,[7976]);
   (7969,[7977]); (7970,[7978]); (7971,[7979]); (7972,[7980]); (7973,[7981]); (7974,[7982]);
   (7975,[7983]); (7984,[7992]); (7985,[7993]); (7986,[7994]); (7987,[7995]); (7988,[7996]);
   (7989,[7997]); (7990,[7998]); (7991,[7999]); (8000,[8008]); (8001,[8009]); (8002,[8010]);
   (8003,[8011]); (8004,[8012]); (8005,[8013]); (8016,[933;787]); (8017,[8025]);
   (8018,[933;787;768]); (8019,[8027]); (8020,[933;787;769]); (8021,[8029]); (8022,[933;787;834]);
   (8023,[8031]); (8032,[8040]); (8033,[8041]); (8034,[8042]); (8035,[8043]); (8036,[8044]);
   (8037,[8045]); (8038,[8046]); (8039,[8047]); (8048,[8122]); (8049,[8123]); (8050,[8136]);
   (8051,[8137]); (8052,[8138]); (8053,[8139]); (8054,[8154]); (8055,[8155]); (8056,[8184]);
   (8057,[8185]); (8058,[8170]); (8059,[8171]); (8060,[8186]); (8061,[8187]); (8064,[7944;921]);
   (8065,[7945;921]); (8066,[7946;921]); (8067,[7947;921]); (8068,[7948;921]); (8069,[7949;921]);
   (8070,[7950;921]); (8071,[7951;921]); (8072,[7944;921]); (8073,[7945;921]); (8074,[7946;921]);
   (8075,[7947;921]); (8076,[7948;921]); (8077,[7949;921]); (8078,[7950;921]); (8079,[7951;921]);
   (8080,[7976;921]); (8081,[7977;921]); (8082,[7978;921]); (8083,[7979;921]); (8084,[7980;921]);
   (8085,[7981;921]); (8086,[7982;921]); (8087,[7983;921]); (8088,[7976;921]); (8089,[7977;921]);
   (8090,[7978;921]); (8091,[7979;921]); (8092,[7980;921]); (8093,[7981;921]); (8094,[7982;921]);
   (8095,[7983;921]); (8096,[8040;921]); (8097,[8041;921]); (8098,[8042;921]); (8099,[8043;921]);
   (8100,[8044;921]); (8101,[8045;921]); (8102,[8046;921]); (8103,[8047;921]); (8104,[8040;921]);
   (8105,[8041;921]); (8106,[8042;921]); (8107,[8043;921]); (8108,[8044;921]); (8109,[8045;921]);
   (8110,[8046;921]); (8111,[8047;921]); (8112,[8120]); (8113,[8121]); (8114,[8122;921]);
   (8115,[913;921]); (8116,[902;921]); (8118,[913;834]); (8119,[913;834;921]); (8124,[913;921]);
   (8126,[921]); (8130,[8138;921]); (8131,[919;921]); (8132,[905;921]); (8134,[919;834]);
   (8135,[919;834;921]); (8140,[919;921]); (8144,[8152]); (8145,[8153]); (8146,[921;776;768]);
   (8147,[921;776;769]); (8150,[921;834]); (8151,[921;776;834]); (8160,[8168]); (8161,[8169]);
   (8162,[933;776;768]); (8163,[933;776;769]); (8164,[929;787]); (8165,[8172]); (8166,[933;834]);
   (8167,[933;776;834]); (8178,[8186;921]); (8179,[937;921]); (8180,[911;921]); (8182,[937;834]);
   (8183,[937;834;921]); (8188,[937;921]); (8526,[8498]); (8560,[8544]); (8561,[8545]);
   (8562,[8546]); (8563,[8547]); (8564,[8548]); (8565,[8549]); (8566,[8550]); (8567,[8551]);
   (8568,[8552]); (8569,[8553]); (8570,[8554]); (8571,[8555]); (8572,[8556]); (8573,[8557]);
   (8574,[8558]); (8575,[8559]); (8580,[8579]); (9424,[9398]); (9425,[9399]); (9426,[9400]);
   (9427,[9401]); (9428,[9402]); (9429,[9403]); (9430,[9404]); (9431,[9405]); (9432,[9406]);
   (9433,[9407]); (9434,[9408]); (9435,[9409]); (9436,[9410]); (9437,[9411]); (9438,[9412]);
   (9439,[9413]); (9440,[9414]); (9441,[9415]); (9442,[9416]); (9443,[9417]); (9444,[9418]);
   (9445,[9419]); (9446,[9420]); (9447,[9421]); (9448,[9422]); (9449,[9423]); (11312,[11264]);
   (11313,[11265]); (11314,[11266]); (11315,[11267]); (11316,[11268]); (11317,[11269]);
   (11318,[11270]); (11319,[11271]); (11320,[11272]); (11321,[11273]); (11322,[11274]);
   (11323,[11275]); (11324,[11276]); (11325,[11277]); (11326,[11278]); (11327,[11279]);
   (11328,[11280]); (11329,[11281]); (11330,[11282]); (11331,[11283]); (11332,[11284]);
   (11333,[11285]); (11334,[11286]); (11335,[11287]); (11336,[11288]); (11337,[11289]);
   (11338,[11290]); (11339,[11291]); (11340,[11292]); (11341,[11293]); (11342,[11294]);
   (11343,[11295]); (11344,[11296]); (11345,[11297]); (11346,[11298]); (11347,[11299]);
   (11348,[11300]); (11349,[11301]); (11350,[11302]); (11351,[11303]); (11352,[11304]);
   (11353,[11305]); (11354,[11306]); (11355,[11307]); (11356,[11308]); (11357,[11309]);
   (11358,[11310]); (11359,[11311]); (11361,[11360]); (11365,[570]); (11366,[574]);
   (11368,[11367]); (11370,[11369]); (11372,[11371]); (11379,[11378]); (11382,[11381]);
   (11393,[11392]); (11395,[11394]); (11397,[11396]); (11399,[11398]); (11401,[11400]);
   (11403,[11402]); (11405,[11404]); (11407,[11406]); (11409,[11408]); (11411,[11410]);
   (11413,[11412]); (11415,[11414]); (11417,[11416]); (11419,[11418]); (11421,[11420]);
   (11423,[11422]); (11425,[11424]); (11427,[11426]); (11429,[11428]); (11431,[11430]);
   (11433,[11432]); (11435,[11434]); (11437,[11436]); (11439,[11438]); (11441,[11440]);
   (11443,[11442]); (11445,[11444]); (11447,[11446]); (11449,[11448]); (11451,[11450]);
   (11453,[11452]); (11455,[11454]); (11457,[11456]); (11459,[11458]); (11461,[11460]);
   (11463,[11462]); (11465,[11464]); (11467,[11466]); (11469,[11468]); (11471,[11470]);
   (11473,[11472]); (11475,[11474]); (11477,[11476]); (11479,[11478]); (11481,[11480]);
   (11483,[11482]); (11485,[11484]); (11487,[11486]); (11489,[11488]); (11491,[11490]);
   (11500,[11499]); (11502,[11501]); (11507,[11506]); (11520,[4256]); (11521,[4257]);
   (11522,[4258]); (11523,[4259]); (11524,[4260]); (11525,[4261]); (11526,[4262]); (11527,[4263]);
   (11528,[4264]); (11529,[4265]); (11530,[4266]); (11531,[4267]); (11532,[4268]); (11533,[4269]);
   (11534,[4270]); (11535,[4271]); (11536,[4272]); (11537,[4273]); (11538,[4274]); (11539,[4275]);
   (11540,[4276]); (11541,[4277]); (11542,[4278]); (11543,[4279]); (11544,[4280]); (11545,[4281]);
   (11546,[4282]); (11547,[4283]); (11548,[4284]); (11549,[4285]); (11550,[4286]); (11551,[4287]);
   (11552,[4288]); (11553,[4289]); (11554,[4290]); (11555,[4291]); (11556,[4292]); (11557,[4293]);
   (11559,[4295]); (11565,[4301]); (42561,[42560]); (42563,[42562]); (42565,[42564]);
   (42567,[42566]); (42569,[42568]); (42571,[42570]); (42573,[42572]); (42575,[42574]);
   (42577,[42576]); (42579,[42578]); (42581,[42580]); (42583,[42582]); (42585,[42584]);
   (42587,[42586]); (42589,[42588]); (42591,[42590]); (42593,[42592]); (42595,[42594]);
   (42597,[42596]); (42599,[42598]); (42601,[42600]); (42603,[42602]); (42605,[42604]);
   (42625,[42624]); (42627,[42626]); (42629,[42628]); (42631,[42630]); (42633,[42632]);
   (42635,[42634]); (42637,[42636]); (42639,[42638]); (42641,[42640]); (42643,[42642]);
   (42645,[42644]); (42647,[42646]); (42649,[42648]); (42651,[42650]); (42787,[42786]);
   (42789,[42788]); (42791,[42790]); (42793,[42792]); (42795,[42794]); (42797,[42796]);
   (42799,[42798]); (42803,[42802]); (42805,[42804]); (42807,[42806]); (42809,[42808]);
   (42811,[42810]); (42813,[42812]); (42815,[42814]); (42817,[42816]); (42819,[42818]);
   (42821,[42820]); (42823,[42822]); (42825,[42824]); (42827,[42826]); (42829,[42828]);
   (42831,[42830]); (42833,[42832]); (42835,[42834]); (42837,[42836]); (42839,[42838]);
   (42841,[42840]); (42843,[42842]); (42845,[42844]); (42847,[42846]); (42849,[42848]);
   (42851,[42850]); (42853,[42852]); (42855,[42854]); (42857,[42856]); (42859,[42858]);
   (42861,[42860]); (42863,[42862]); (42874,[42873]); (42876,[42875]); (42879,[42878]);
   (42881,[42880]); (42883,[42882]); (42885,[42884]); (42887,[42886]); (42892,[42891]);
   (42897,[42896]); (42899,[42898]); (42900,[42948]); (42903,[42902]); (42905,[42904]);
   (42907,[42906]); (42909,[42908]); (42911,[42910]); (42913,[42912]); (42915,[42914]);
   (42917,[42916]); (42919,[42918]); (42921,[42920]); (42933,[42932]); (42935,[42934]);
   (42937,[42936]); (42939,[42938]); (42941,[42940]); (42943,[42942]); (42945,[42944]);
   (42947,[42946]); (42952,[42951]); (42954,[42953]); (42961,[42960]); (42967,[42966]);
   (42969,[42968]); (42998,[42997]); (43859,[42931]); (43888,[5024]); (43889,[5025]);
   (43890,[5026]); (43891,[5027]); (43892,[5028]); (43893,[5029]); (43894,[5030]); (43895,[5031]);
   (43896,[5032]); (43897,[5033]); (43898,[5034]); (43899,[5035]); (43900,[5036]); (43901,[5037]);
   (43902,[5038]); (43903,[5039]); (43904,[5040]); (43905,[5041]); (43906,[5042]); (43907,[5043]);
   (43908,[5044]); (43909,[5045]); (43910,[5046]); (43911,[5047]); (43912,[5048]); (43913,[5049]);
   (43914,[5050]); (43915,[5051]); (43916,[5052]); (43917,[5053]); (43918,[5054]); (43919,[5055]);
   (43920,[5056]); (43921,[5057]); (43922,[5058]); (43923,[5059]); (43924,[5060]); (43925,[5061]);
   (43926,[5062]); (43927,[5063]); (43928,[5064]); (43929,[5065]); (43930,[5066]); (43931,[5067]);
   (43932,[5068]); (43933,[5069]); (43934,[5070]); (43935,[5071]); (43936,[5072]); (43937,[5073]);
   (43938,[5074]); (43939,[5075]); (43940,[5076]); (43941,[5077]); (43942,[5078]); (43943,[5079]);
   (43944,[5080]); (43945,[5081]); (43946,[5082]); (43947,[5083]); (43948,[5084]); (43949,[5085]);
   (43950,[5086]); (43951,[5087]); (43952,[5088]); (43953,[5089]); (43954,[5090]); (43955,[5091]);
   (43956,[5092]); (43957,[5093]); (43958,[5094]); (43959,[5095]); (43960,[5096]); (43961,[5097]);
   (43962,[5098]); (43963,[5099]); (43964,[5100]); (43965,[5101]); (43966,[5102]); (43967,[5103]);
   (64256,[70;70]); (64257,[70;73]); (64258,[70;76]); (64259,[70;70;73]); (64260,[70;70;76]);
   (64261,[83;84]); (64262,[83;84]); (64275,[1348;1350]); (64276,[1348;1333]); (64277,[1348;1339]);
   (64278,[1358;1350]); (64279,[1348;1341]); (65345,[65313]); (65346,[65314]); (65347,[65315]);
   (65348,[65316]); (65349,[65317]); (65350,[65318]); (65351,[65319]); (65352,[65320]);
   (65353,[65321]); (65354,[65322]); (65355,[65323]); (65356,[65324]); (65357,[65325]);
   (65358,[65326]); (65359,[65327]); (65360,[65328]); (65361,[65329]); (65362,[65330]);
   (65363,[65331]); (65364,[65332]); (65365,[65333]); (65366,[65334]); (65367,[65335]);
   (65368,[65336]); (65369,[65337]); (65370,[65338]); (66600,[66560]); (66601,[66561]);
   (66602,[66562]); (66603,[66563]); (66604,[66564]); (66605,[66565]); (66606,[66566]);
   (66607,[66567]); (66608,[66568]); (66609,[66569]); (66610,[66570]); (66611,[66571]);
   (66612,[66572]); (66613,[66573]); (66614,[66574]); (66615,[66575]); (66616,[66576]);
   (66617,[66577]); (66618,[66578]); (66619,[66579]); (66620,[66580]); (66621,[66581]);
   (66622,[66582]); (66623,[66583]); (66624,[66584]); (66625,[66585]); (66626,[66586]);
   (66627,[66587]); (66628,[66588]); (66629,[66589]); (66630,[66590]); (66631,[66591]);
   (66632,[66592]); (66633,[66593]); (66634,[66594]); (66635,[66595]); (66636,[66596]);
   (66637,[66597]); (66638,[66598]); (66639,[66599]); (66776,[66736]); (66777,[66737]);
   (66778,[66738]); (66779,[66739]); (66780,[66740]); (66781,[66741]); (66782,[66742]);
   (66783,[66743]); (66784,[66744]); (66785,[66745]); (66786,[66746]); (66787,[66747]);
   (66788,[66748]); (66789,[66749]); (66790,[66750]); (66791,[66751]); (66792,[66752]);
   (66793,[66753]); (66794,[66754]); (66795,[66755]); (66796,[66756]); (66797,[66757]);
   (66798,[66758]); (66799,[66759]); (66800,[66760]); (66801,[66761]); (66802,[66762]);
   (66803,[66763]); (66804,[66764]); (66805,[66765]); (66806,[66766]); (66807,[66767]);
   (66808,[66768]); (66809,[66769]); (66810,[66770]); (66811,[66771]); (66967,[66928]);
   (66968,[66929]); (66969,[66930]); (66970,[66931]); (66971,[66932]); (66972,[66933]);
   (66973,[66934]); (66974,[66935]); (66975,[66936]); (66976,[66937]); (66977,[66938]);
   (66979,[66940]); (66980,[66941]); (66981,[66942]); (66982,[66943]); (66983,[66944]);
   (66984,[66945]); (66985,[66946]); (66986,[66947]); (66987,[66948]); (66988,[66949]);
   (66989,[66950]); (66990,[66951]); (66991,[66952]); (66992,[66953]); (66993,[66954]);
   (66995,[66956]); (66996,[66957]); (66997,[66958]); (66998,[66959]); (66999,[66960]);
   (67000,[66961]); (67001,[66962]); (67003,[66964]); (67004,[66965]); (68800,[68736]);
   (68801,[68737]); (68802,[68738]); (68803,[68739]); (68804,[68740]); (68805,[68741]);
   (68806,[68742]); (68807,[68743]); (68808,[68744]); (68809,[68745]); (68810,[68746]);
   (68811,[68747]); (68812,[68748]); (68813,[68749]); (68814,[68750]); (68815,[68751]);
   (68816,[68752]); (68817,[68753]); (68818,[68754]); (68819,[68755]); (68820,[68756]);
   (68821,[68757]); (68822,[68758]); (68823,[68759]); (68824,[68760]); (68825,[68761]);
   (68826,[68762]); (68827,[68763]); (68828,[68764]); (68829,[68765]); (68830,[68766]);
   (68831,[68767]); (68832,[68768]); (68833,[68769]); (68834,[68770]); (68835,[68771]);
   (68836,[68772]); (68837,[68773]); (68838,[68774]); (68839,[68775]); (68840,[68776]);
   (68841,[68777]); (68842,[68778]); (68843,[68779]); (68844,[68780]); (68845,[68781]);
   (68846,[68782]); (68847,[68783]); (68848,[68784]); (68849,[68785]); (68850,[68786]);
   (71872,[71840]); (71873,[71841]); (71874,[71842]); (71875,[71843]); (71876,[71844]);
   (71877,[71845]); (71878,[71846]); (71879,[71847]); (71880,[71848]); (71881,[71849]);
   (71882,[71850]); (71883,[71851]); (71884,[71852]); (71885,[71853]); (71886,[71854]);
   (71887,[71855]); (71888,[71856]); (71889,[71857]); (71890,[71858]); (71891,[71859]);
   (71892,[71860]); (71893,[71861]); (71894,[71862]); (71895,[71863]); (71896,[71864]);
   (71897,[71865]); (71898,[71866]); (71899,[71867]); (71900,[71868]); (71901,[71869]);
   (71902,[71870]); (71903,[71871]); (93792,[93760]); (93793,[93761]); (93794,[93762]);
   (93795,[93763]); (93796,[93764]); (93797,[93765]); (93798,[93766]); (93799,[93767]);
   (93800,[93768]); (93801,[93769]); (93802,[93770]); (93803,[93771]); (93804,[93772]);
   (93805,[93773]); (93806,[93774]); (93807,[93775]); (93808,[93776]); (93809,[93777]);
   (93810,[93778]); (93811,[93779]); (93812,[93780]); (93813,[93781]); (93814,[93782]);
   (93815,[93783]); (93816,[93784]); (93817,[93785]); (93818,[93786]); (93819,[93787]);
   (93820,[93788]); (93821,[93789]); (93822,[93790]); (93823,[93791]); (125218,[125184]);
   (125219,[125185]); (125220,[125186]); (125221,[125187]); (125222,[125188]); (125223,[125189]);
   (125224,[125190]); (125225,[125191]); (125226,[125192]); (125227,[125193]); (125228,[125194]);
   (125229,[125195]); (125230,[125196]); (125231,[125197]); (125232,[125198]); (125233,[125199]);
   (125234,[125200]); (125235,[125201]); (125236,[125202]); (125237,[125203]); (125238,[125204]);
   (125239,[125205]); (125240,[125206]); (125241,[125207]); (125242,[125208]); (125243,[125209]);
   (125244,[125210]); (125245,[125211]); (125246,[125212]); (125247,[125213]); (125248,[125214]);
   (125249,[125215]); (125250,[125216]); (125251,[125217])
  ])%N.

(** The characters [c] that [str.lower] changes when they stand alone, each with the
    characters of [c.lower()]. *)
Definition lower_table : list (N * list N) :=
  ([
   (65,[97]); (66,[98]); (67,[99]); (68,[100]); (69,[101]); (70,[102]); (71,[103]); (72,[104]);
   (73,[105]); (74,[106]); (75,[107]); (76,[108]); (77,[109]); (78,[110]); (79,[111]); (80,[112]);
   (81,[113]); (82,[114]); (83,[115]); (84,[116]); (85,[117]); (86,[118]); (87,[119]); (88,[120]);
   (89,[121]); (90,[122]); (192,[224]); (193,[225]); (194,[226]); (195,[227]); (196,[228]);
   (197,[229]); (198,[230]); (199,[231]); (200,[232]); (201,[233]); (202,[234]); (203,[235]);
   (204,[236]); (205,[237]); (206,[238]); (207,[239]); (208,[240]); (209,[241]); (210,[242]);
   (211,[243]); (212,[244]); (213,[245]); (214,[246]); (216,[248]); (217,[249]); (218,[250]);
   (219,[251]); (220,[252]); (221,[253]); (222,[254]); (256,[257]); (258,[259]); (260,[261]);
   (262,[263]); (264,[265]); (266,[267]); (268,[269]); (270,[271]); (272,[273]); (274,[275]);
   (276,[277]); (278,[279]); (280,[281]); (282,[283]); (284,[285]); (286,[287]); (288,[289]);
   (290,[291]); (292,[293]); (294,[295]); (296,[297]); (298,[299]); (300,[301]); (302,[303]);
   (304,[105;775]); (306,[307]); (308,[309]); (310,[311]); (313,[314]); (315,[316]); (317,[318]);
   (319,[320]); (321,[322]); (323,[324]); (325,[326]); (327,[328]); (330,[331]); (332,[333]);
   (334,[335]); (336,[337]); (338,[339]); (340,[341]); (342,[343]); (344,[345]); (346,[347]);
   (348,[349]); (350,[351]); (352,[353]); (354,[355]); (356,[357]); (358,[359]); (360,[361]);
   (362,[363]); (364,[365]); (366,[367]); (368,[369]); (370,[371]); (372,[373]); (374,[375]);
   (376,[255]); (377,[378]); (379,[380]); (381,[382]); (385,[595]); (386,[387]); (388,[389]);
   (390,[596]); (391,[392]); (393,[598]); (394,[599]); (395,[396]); (398,[477]); (399,[601]);
   (400,[603]); (401,[402]); (403,[608]); (404,[611]); (406,[617]); (407,[616]); (408,[409]);
   (412,[623]); (413,[626]); (415,[629]); (416,[417]); (418,[419]); (420,[421]); (422,[640]);
   (423,[424]); (425,[643]); (428,[429]); (430,[648]); (431,[432]); (433,[650]); (434,[651]);
   (435,[436]); (437,[438]); (439,[658]); (440,[441]); (444,[445]); (452,[454]); (453,[454]);
   (455,[457]); (456,[457]); (458,[460]); (459,[460]); (461,[462]); (463,[464]); (465,[466]);
   (467,[468]); (469,[470]); (471,[472]); (473,[474]); (475,[476]); (478,[479]); (480,[481]);
   (482,[483]); (484,[485]); (486,[487]); (488,[489]); (490,[491]); (492,[493]); (494,[495]);
   (497,[499]); (498,[499]); (500,[501]); (502,[405]); (503,[447]); (504,[505]); (506,[507]);
   (508,[509]); (510,[511]); (512,[513]); (514,[515]); (516,[517]); (518,[519]); (520,[521]);
   (522,[523]); (524,[525]); (526,[527]); (528,[529]); (530,[531]); (532,[533]); (534,[535]);
   (536,[537]); (538,[539]); (540,[541]); (542,[543]); (544,[414]); (546,[547]); (548,[549]);
   (550,[551]); (552,[553]); (554,[555]); (556,[557]); (558,[559]); (560,[561]); (562,[563]);
   (570,[11365]); (571,[572]); (573,[410]); (574,[11366]); (577,[578]); (579,[384]); (580,[649]);
   (581,[652]); (582,[583]); (584,[585]); (586,[587]); (588,[589]); (590,[591]); (880,[881]);
   (882,[883]); (886,[887]); (895,[1011]); (902,[940]); (904,[941]); (905,[942]); (906,[943]);
   (908,[972]); (910,[973]); (911,[974]); (913,[945]); (914,[946]); (915,[947]); (916,[948]);
   (917,[949]); (918,[950]); (919,[951]); (920,[952]); (921,[953]); (922,[954]); (923,[955]);
   (924,[956]); (925,[957]); (926,[958]); (927,[959]); (928,[960]); (929,[961]); (931,[963]);
   (932,[964]); (933,[965]); (934,[966]); (935,[967]); (936,[968]); (937,[969]); (938,[970]);
   (939,[971]); (975,[983]); (984,[985]); (986,[987]); (988,[989]); (990,[991]); (992,[993]);
   (994,[995]); (996,[997]); (998,[999]); (1000,[1001]); (1002,[1003]); (1004,[1005]);
   (1006,[1007]); (1012,[952]); (1015,[1016]); (1017,[1010]); (1018,[1019]); (1021,[891]);
   (1022,[892]); (1023,[893]); (1024,[1104]); (1025,[1105]); (1026,[1106]); (1027,[1107]);
   (1028,[1108]); (1029,[1109]); (1030,[1110]); (1031,[1111]); (1032,[1112]); (1033,[1113]);
   (1034,[1114]); (1035,[1115]); (1036,[1116]); (1037,[1117]); (1038,[1118]); (1039,[1119]);
   (1040,[1072]); (1041,[1073]); (1042,[1074]); (1043,[1075]); (1044,[1076]); (1045,[1077]);
   (1046,[1078]); (1047,[1079]); (1048,[1080]); (1049,[1081]); (1050,[1082]); (1051,[1083]);
   (1052,[1084]); (1053,[1085]); (1054,[1086]); (1055,[1087]); (1056,[1088]); (1057,[1089]);
   (1058,[1090]); (1059,[1091]); (1060,[1092]); (1061,[1093]); (1062,[1094]); (1063,[1095]);
   (1064,[1096]); (1065,[1097]); (1066,[1098]); (1067,[1099]); (1068,[1100]); (1069,[1101]);
   (1070,[1102]); (1071,[1103]); (1120,[1121]); (1122,[1123]); (1124,[1125]); (1126,[1127]);
   (1128,[1129]); (1130,[1131]); (1132,[1133]); (1134,[1135]); (1136,[1137]); (1138,[1139]);
   (1140,[1141]); (1142,[1143]); (1144,[1145]); (1146,[1147]); (1148,[1149]); (1150,[1151]);
   (1152,[1153]); (1162,[1163]); (1164,[1165]); (1166,[1167]); (1168,[1169]); (1170,[1171]);
   (1172,[1173]); (1174,[1175]); (1176,[1177]); (1178,[1179]); (1180,[1181]); (1182,[1183]);
   (1184,[1185]); (1186,[1187]); (1188,[1189]); (1190,[1191]); (1192,[1193]); (1194,[1195]);
   (1196,[1197]); (1198,[1199]); (1200,[1201]); (1202,[1203]); (1204,[1205]); (1206,[1207]);
   (1208,[1209]); (1210,[1211]); (1212,[1213]); (1214,[1215]); (1216,[1231]); (1217,[1218]);
   (1219,[1220]); (1221,[1222]); (1223,[1224]); (1225,[1226]); (1227,[1228]); (1229,[1230]);
   (1232,[1233]); (1234,[1235]); (1236,[1237]); (1238,[1239]); (1240,[1241]); (1242,[1243]);
   (1244,[1245]); (1246,[1247]); (1248,[1249]); (1250,[1251]); (1252,[1253]); (1254,[1255]);
   (1256,[1257]); (1258,[1259]); (1260,[1261]); (1262,[1263]); (1264,[1265]); (1266,[1267]);
   (1268,[1269]); (1270,[1271]); (1272,[1273]); (1274,[1275]); (1276,[1277]); (1278,[1279]);
   (1280,[1281]); (1282,[1283]); (1284,[1285]); (1286,[1287]); (1288,[1289]); (1290,[1291]);
   (1292,[1293]); (1294,[1295]); (1296,[1297]); (1298,[1299]); (1300,[1301]); (1302,[1303]);
   (1304,[1305]); (1306,[1307]); (1308,[1309]); (1310,[1311]); (1312,[1313]); (1314,[1315]);
   (1316,[1317]); (1318,[1319]); (1320,[1321]); (1322,[1323]); (1324,[1325]); (1326,[1327]);
   (1329,[1377]); (1330,[1378]); (1331,[1379]); (1332,[1380]); (1333,[1381]); (1334,[1382]);
   (1335,[1383]); (1336,[1384]); (1337,[1385]); (1338,[1386]); (1339,[1387]); (1340,[1388]);
   (1341,[1389]); (1342,[1390]); (1343,[1391]); (1344,[1392]); (1345,[1393]); (1346,[1394]);
   (1347,[1395]); (1348,[1396]); (1349,[1397]); (1350,[1398]); (1351,[1399]); (1352,[1400]);
   (1353,[1401]); (1354,[1402]); (1355,[1403]); (1356,[1404]); (1357,[1405]); (1358,[1406]);
   (1359,[1407]); (1360,[1408]); (1361,[1409]); (1362,[1410]); (1363,[1411]); (1364,[1412]);
   (1365,[1413]); (1366,[1414]); (4256,[11520]); (4257,[11521]); (4258,[11522]); (4259,[11523]);
   (4260,[11524]); (4261,[11525]); (4262,[11526]); (4263,[11527]); (4264,[11528]); (4265,[11529]);
   (4266,[11530]); (4267,[11531]); (4268,[11532]); (4269,[11533]); (4270,[11534]); (4271,[11535]);
   (4272,[11536]); (4273,[11537]); (4274,[11538]); (4275,[11539]); (4276,[11540]); (4277,[11541]);
   (4278,[11542]); (4279,[11543]); (4280,[11544]); (4281,[11545]); (4282,[11546]); (4283,[11547]);
   (4284,[11548]); (4285,[11549]); (4286,[11550]); (4287,[11551]); (4288,[11552]); (4289,[11553]);
   (4290,[11554]); (4291,[11555]); (4292,[11556]); (4293,[11557]); (4295,[11559]); (4301,[11565]);
   (5024,[43888]); (5025,[43889]); (5026,[43890]); (5027,[43891]); (5028,[43892]); (5029,[43893]);
   (5030,[43894]); (5031,[43895]); (5032,[43896]); (5033,[43897]); (5034,[43898]); (5035,[43899]);
   (5036,[43900]); (5037,[43901]); (5038,[43902]); (5039,[43903]); (5040,[43904]); (5041,[43905]);
   (5042,[43906]); (5043,[43907]); (5044,[43908]); (5045,[43909]); (5046,[43910]); (5047,[43911]);
   (5048,[43912]); (5049,[43913]); (5050,[43914]); (5051,[43915]); (5052,[43916]); (5053,[43917]);
   (5054,[43918]); (5055,[43919]); (5056,[43920]); (5057,[43921]); (5058,[43922]); (5059,[43923]);
   (5060,[43924]); (5061,[43925]); (5062,[43926]); (5063,[43927]); (5064,[43928]); (5065,[43929]);
   (5066,[43930]); (5067,[43931]); (5068,[43932]); (5069,[43933]); (5070,[43934]); (5071,[43935]);
   (5072,[43936]); (5073,[43937]); (5074,[43938]); (5075,[43939]); (5076,[43940]); (5077,[43941]);
   (5078,[43942]); (5079,[43943]); (5080,[43944]); (5081,[43945]); (5082,[43946]); (5083,[43947]);
   (5084,[43948]); (5085,[43949]); (5086,[43950]); (5087,[43951]); (5088,[43952]); (5089,[43953]);
   (5090,[43954]); (5091,[43955]); (5092,[43956]); (5093,[43957]); (5094,[43958]); (5095,[43959]);
   (5096,[43960]); (5097,[43961]); (5098,[43962]); (5099,[43963]); (5100,[43964]); (5101,[43965]);
   (5102,[43966]); (5103,[43967]); (5104,[5112]); (5105,[5113]); (5106,[5114]); (5107,[5115]);
   (5108,[5116]); (5109,[5117]); (7312,[4304]); (7313,[4305]); (7314,[4306]); (7315,[4307]);
   (7316,[4308]); (7317,[4309]); (7318,[4310]); (7319,[4311]); (7320,[4312]); (7321,[4313]);
   (7322,[4314]); (7323,[4315]); (7324,[4316]); (7325,[4317]); (7326,[4318]); (7327,[4319]);
   (7328,[4320]); (7329,[4321]); (7330,[4322]); (7331,[4323]); (7332,[4324]); (7333,[4325]);
   (7334,[4326]); (7335,[4327]); (7336,[4328]); (7337,[4329]); (7338,[4330]); (7339,[4331]);
   (7340,[4332]); (7341,[4333]); (7342,[4334]); (7343,[4335]); (7344,[4336]); (7345,[4337]);
   (7346,[4338]); (7347,[4339]); (7348,[4340]); (7349,[4341]); (7350,[4342]); (7351,[4343]);
   (7352,[4344]); (7353,[4345]); (7354,[4346]); (7357,[4349]); (7358,[4350]); (7359,[4351]);
   (7680,[7681]); (7682,[7683]); (7684,[7685]); (7686,[7687]); (7688,[7689]); (7690,[7691]);
   (7692,[7693]); (7694,[7695]); (7696,[7697]); (7698,[7699]); (7700,[7701]); (7702,[7703]);
   (7704,[7705]); (7706,[7707]); (7708,[7709]); (7710,[7711]); (7712,[7713]); (7714,[7715]);
   (7716,[7717]); (7718,[7719]); (7720,[7721]); (7722,[7723]); (7724,[7725]); (7726,[7727]);
   (7728,[7729]); (7730,[7731]); (7732,[7733]); (7734,[7735]); (7736,[7737]); (7738,[7739]);
   (7740,[7741]); (7742,[7743]); (7744,[7745]); (7746,[7747]); (7748,[7749]); (7750,[7751]);
   (7752,[7753]); (7754,[7755]); (7756,[7757]); (7758,[7759]); (7760,[7761]); (7762,[7763]);
   (7764,[7765]); (7766,[7767]); (7768,[7769]); (7770,[7771]); (7772,[7773]); (7774,[7775]);
   (7776,[7777]); (7778,[7779]); (7780,[7781]); (7782,[7783]); (7784,[7785]); (7786,[7787]);
   (7788,[7789]); (7790,[7791]); (7792,[7793]); (7794,[7795]); (7796,[7797]); (7798,[7799]);
   (7800,[7801]); (7802,[7803]); (7804,[7805]); (7806,[7807]); (7808,[7809]); (7810,[7811]);
   (7812,[7813]); (7814,[7815]); (7816,[7817]); (7818,[7819]); (7820,[7821]); (7822,[7823]);
   (7824,[7825]); (7826,[7827]); (7828,[7829]); (7838,[223]); (7840,[7841]); (7842,[7843]);
   (7844,[7845]); (7846,[7847]); (7848,[7849]); (7850,[7851]); (7852,[7853]); (7854,[7855]);
   (7856,[7857]); (7858,[7859]); (7860,[7861]); (7862,[7863]); (7864,[7865]); (7866,[7867]);
   (7868,[7869]); (7870,[7871]); (7872,[7873]); (7874,[7875]); (7876,[7877]); (7878,[7879]);
   (7880,[7881]); (7882,[7883]); (7884,[7885]); (7886,[7887]); (7888,[7889]); (7890,[7891]);
   (7892,[7893]); (7894,[7895]); (7896,[7897]); (7898,[7899]); (7900,[7901]); (7902,[7903]);
   (7904,[7905]); (7906,[7907]); (7908,[7909]); (7910,[7911]); (7912,[7913]); (7914,[7915]);
   (7916,[7917]); (7918,[7919]); (7920,[7921]); (7922,[7923]); (7924,[7925]); (7926,[7927]);
   (7928,[7929]); (7930,[7931]); (7932,[7933]); (7934,[7935]); (7944,[7936]); (7945,[7937]);
   (7946,[7938]); (7947,[7939]); (7948,[7940]); (7949,[7941]); (7950,[7942]); (7951,[7943]);
   (7960,[7952]); (7961,[7953]); (7962,[7954]); (7963,[7955]); (7964,[7956]); (7965,[7957]);
   (7976,[7968]); (7977,[7969]); (7978,[7970]); (7979,[7971]); (7980,[7972]); (7981,[7973]);
   (7982,[7974]); (7983,[7975]); (7992,[7984]); (7993,[7985]); (7994,[7986]); (7995,[7987]);
   (7996,[7988]); (7997,[7989]); (7998,[7990]); (7999,[7991]); (8008,[8000]); (8009,[8001]);
   (8010,[8002]); (8011,[8003]); (8012,[8004]); (8013,[8005]); (8025,[8017]); (8027,[8019]);
   (8029,[8021]); (8031,[8023]); (8040,[8032]); (8041,[8033]); (8042,[8034]); (8043,[8035]);
   (8044,[8036]); (8045,[8037]); (8046,[8038]); (8047,[8039]); (8072,[8064]); (8073,[8065]);
   (8074,[8066]); (8075,[8067]); (8076,[8068]); (8077,[8069]); (8078,[8070]); (8079,[8071]);
   (8088,[8080]); (8089,[8081]); (8090,[8082]); (8091,[8083]); (8092,[8084]); (8093,[8085]);
   (8094,[8086]); (8095,[8087]); (8104,[8096]); (8105,[8097]); (8106,[8098]); (8107,[8099]);
   (8108,[8100]); (8109,[8101]); (8110,[8102]); (8111,[8103]); (8120,[8112]); (8121,[8113]);
   (8122,[8048]); (8123,[8049]); (8124,[8115]); (8136,[8050]); (8137,[8051]); (8138,[8052]);
   (8139,[8053]); (8140,[8131]); (8152,[8144]); (8153,[8145]); (8154,[8054]); (8155,[8055]);
   (8168,[8160]); (8169,[8161]); (8170,[8058]); (8171,[8059]); (8172,[8165]); (8184,[8056]);
   (8185,[8057]); (8186,[8060]); (8187,[8061]); (8188,[8179]); (8486,[969]); (8490,[107]);
   (8491,[229]); (8498,[8526]); (8544,[8560]); (8545,[8561]); (8546,[8562]); (8547,[8563]);
   (8548,[8564]); (8549,[8565]); (8550,[8566]); (8551,[8567]); (8552,[8568]); (8553,[8569]);
   (8554,[8570]); (8555,[8571]); (8556,[8572]); (8557,[8573]); (8558,[8574]); (8559,[8575]);
   (8579,[8580]); (9398,[9424]); (9399,[9425]); (9400,[9426]); (9401,[9427]); (9402,[9428]);
   (9403,[9429]); (9404,[9430]); (9405,[9431]); (9406,[9432]); (9407,[9433]); (9408,[9434]);
   (9409,[9435]); (9410,[9436]); (9411,[9437]); (9412,[9438]); (9413,[9439]); (9414,[9440]);
   (9415,[9441]); (9416,[9442]); (9417,[9443]); (9418,[9444]); (9419,[9445]); (9420,[9446]);
   (9421,[9447]); (9422,[9448]); (9423,[9449]); (11264,[11312]); (11265,[11313]); (11266,[11314]);
   (11267,[11315]); (11268,[11316]); (11269,[11317]); (11270,[11318]); (11271,[11319]);
   (11272,[11320]); (11273,[11321]); (11274,[11322]); (11275,[11323]); (11276,[11324]);
   (11277,[11325]); (11278,[11326]); (11279,[11327]); (11280,[11328]); (11281,[11329]);
   (11282,[11330]); (11283,[11331]); (11284,[11332]); (11285,[11333]); (11286,[11334]);
   (11287,[11335]); (11288,[11336]); (11289,[11337]); (11290,[11338]); (11291,[11339]);
   (11292,[11340]); (11293,[11341]); (11294,[11342]); (11295,[11343]); (11296,[11344]);
   (11297,[11345]); (11298,[11346]); (11299,[11347]); (11300,[11348]); (11301,[11349]);
   (11302,[11350]); (11303,[11351]); (11304,[11352]); (11305,[11353]); (11306,[11354]);
   (11307,[11355]); (11308,[11356]); (11309,[11357]); (11310,[11358]); (11311,[11359]);
   (11360,[11361]); (11362,[619]); (11363,[7549]); (11364,[637]); (11367,[11368]); (11369,[11370]);
   (11371,[11372]); (11373,[593]); (11374,[625]); (11375,[592]); (11376,[594]); (11378,[11379]);
   (11381,[11382]); (11390,[575]); (11391,[576]); (11392,[11393]); (11394,[11395]);
   (11396,[11397]); (11398,[11399]); (11400,[11401]); (11402,[11403]); (11404,[11405]);
   (11406,[11407]); (11408,[11409]); (11410,[11411]); (11412,[11413]); (11414,[11415]);
   (11416,[11417]); (11418,[11419]); (11420,[11421]); (11422,[11423]); (11424,[11425]);
   (11426,[11427]); (11428,[11429]); (11430,[11431]); (11432,[11433]); (11434,[11435]);
   (11436,[11437]); (11438,[11439]); (11440,[11441]); (11442,[11443]); (11444,[11445]);
   (11446,[11447]); (11448,[11449]); (11450,[11451]); (11452,[11453]); (11454,[11455]);
   (11456,[11457]); (11458,[11459]); (11460,[11461]); (11462,[11463]); (11464,[11465]);
   (11466,[11467]); (11468,[11469]); (11470,[11471]); (11472,[11473]); (11474,[11475]);
   (11476,[11477]); (11478,[11479]); (11480,[11481]); (11482,[11483]); (11484,[11485]);
   (11486,[11487]); (11488,[11489]); (11490,[11491]); (11499,[11500]); (11501,[11502]);
   (11506,[11507]); (42560,[42561]); (42562,[42563]); (42564,[42565]); (42566,[42567]);
   (42568,[42569]); (42570,[42571]); (42572,[42573]); (42574,[42575]); (42576,[42577]);
   (42578,[42579]); (42580,[42581]); (42582,[42583]); (42584,[42585]); (42586,[42587]);
   (42588,[42589]); (42590,[42591]); (42592,[42593]); (42594,[42595]); (42596,[42597]);
   (42598,[42599]); (42600,[42601]); (42602,[42603]); (42604,[42605]); (42624,[42625]);
   (42626,[42627]); (42628,[42629]); (42630,[42631]); (42632,[42633]); (42634,[42635]);
   (42636,[42637]); (42638,[42639]); (42640,[42641]); (42642,[42643]); (42644,[42645]);
   (42646,[42647]); (42648,[42649]); (42650,[42651]); (42786,[42787]); (42788,[42789]);
   (42790,[42791]); (42792,[42793]); (42794,[42795]); (42796,[42797]); (42798,[42799]);
   (42802,[42803]); (42804,[42805]); (42806,[42807]); (42808,[42809]); (42810,[42811]);
   (42812,[42813]); (42814,[42815]); (42816,[42817]); (42818,[42819]); (42820,[42821]);
   (42822,[42823]); (42824,[42825]); (42826,[42827]); (42828,[42829]); (42830,[42831]);
   (42832,[42833]); (42834,[42835]); (42836,[42837]); (42838,[42839]); (42840,[42841]);
   (42842,[42843]); (42844,[42845]); (42846,[42847]); (42848,[42849]); (42850,[42851]);
   (42852,[42853]); (42854,[42855]); (42856,[42857]); (42858,[42859]); (42860,[42861]);
   (42862,[42863]); (42873,[42874]); (42875,[42876]); (42877,[7545]); (42878,[42879]);
   (42880,[42881]); (42882,[42883]); (42884,[42885]); (42886,[42887]); (42891,[42892]);
   (42893,[613]); (42896,[42897]); (42898,[42899]); (42902,[42903]); (42904,[42905]);
   (42906,[42907]); (42908,[42909]); (42910,[42911]); (42912,[42913]); (42914,[42915]);
   (42916,[42917]); (42918,[42919]); (42920,[42921]); (42922,[614]); (42923,[604]); (42924,[609]);
   (42925,[620]); (42926,[618]); (42928,[670]); (42929,[647]); (42930,[669]); (42931,[43859]);
   (42932,[42933]); (42934,[42935]); (42936,[42937]); (42938,[42939]); (42940,[42941]);
   (42942,[42943]); (42944,[42945]); (42946,[42947]); (42948,[42900]); (42949,[642]);
   (42950,[7566]); (42951,[42952]); (42953,[42954]); (42960,[42961]); (42966,[42967]);
   (42968,[42969]); (42997,[42998]); (65313,[65345]); (65314,[65346]); (65315,[65347]);
   (65316,[65348]); (65317,[65349]); (65318,[65350]); (65319,[65351]); (65320,[65352]);
   (65321,[65353]); (65322,[65354]); (65323,[65355]); (65324,[65356]); (65325,[65357]);
   (65326,[65358]); (65327,[65359]); (65328,[65360]); (65329,[65361]); (65330,[65362]);
   (65331,[65363]); (65332,[65364]); (65333,[65365]); (65334,[65366]); (65335,[65367]);
   (65336,[65368]); (65337,[65369]); (65338,[65370]); (66560,[66600]); (66561,[66601]);
   (66562,[66602]); (66563,[66603]); (66564,[66604]); (66565,[66605]); (66566,[66606]);
   (66567,[66607]); (66568,[66608]); (66569,[66609]); (66570,[66610]); (66571,[66611]);
   (66572,[66612]); (66573,[66613]); (66574,[66614]); (66575,[66615]); (66576,[66616]);
   (66577,[66617]); (66578,[66618]); (66579,[66619]); (66580,[66620]); (66581,[66621]);
   (66582,[66622]); (66583,[66623]); (66584,[66624]); (66585,[66625]); (66586,[66626]);
   (66587,[66627]); (66588,[66628]); (66589,[66629]); (66590,[66630]); (66591,[66631]);
   (66592,[66632]); (66593,[66633]); (66594,[66634]); (66595,[66635]); (66596,[66636]);
   (66597,[66637]); (66598,[66638]); (66599,[66639]); (66736,[66776]); (66737,[66777]);
   (66738,[66778]); (66739,[66779]); (66740,[66780]); (66741,[66781]); (66742,[66782]);
   (66743,[66783]); (66744,[66784]); (66745,[66785]); (66746,[66786]); (66747,[66787]);
   (66748,[66788]); (66749,[66789]); (66750,[66790]); (66751,[66791]); (66752,[66792]);
   (66753,[66793]); (66754,[66794]); (66755,[66795]); (66756,[66796]); (66757,[66797]);
   (66758,[66798]); (66759,[66799]); (66760,[66800]); (66761,[66801]); (66762,[66802]);
   (66763,[66803]); (66764,[66804]); (66765,[66805]); (66766,[66806]); (66767,[66807]);
   (66768,[66808]); (66769,[66809]); (66770,[66810]); (66771,[66811]); (66928,[66967]);
   (66929,[66968]); (66930,[66969]); (66931,[66970]); (66932,[66971]); (66933,[66972]);
   (66934,[66973]); (66935,[66974]); (66936,[66975]); (66937,[66976]); (66938,[66977]);
   (66940,[66979]); (66941,[66980]); (66942,[66981]); (66943,[66982]); (66944,[66983]);
   (66945,[66984]); (66946,[66985]); (66947,[66986]); (66948,[66987]); (66949,[66988]);
   (66950,[66989]); (66951,[66990]); (66952,[66991]); (66953,[66992]); (66954,[66993]);
   (66956,[66995]); (66957,[66996]); (66958,[66997]); (66959,[66998]); (66960,[66999]);
   (66961,[67000]); (66962,[67001]); (66964,[67003]); (66965,[67004]); (68736,[68800]);
   (68737,[68801]); (68738,[68802]); (68739,[68803]); (68740,[68804]); (68741,[68805]);
   (68742,[68806]); (68743,[68807]); (68744,[68808]); (68745,[68809]); (68746,[68810]);
   (68747,[68811]); (68748,[68812]); (68749,[68813]); (68750,[68814]); (68751,[68815]);
   (68752,[68816]); (68753,[68817]); (68754,[68818]); (68755,[68819]); (68756,[68820]);
   (68757,[68821]); (68758,[68822]); (68759,[68823]); (68760,[68824]); (68761,[68825]);
   (68762,[68826]); (68763,[68827]); (68764,[68828]); (68765,[68829]); (68766,[68830]);
   (68767,[68831]); (68768,[68832]); (68769,[68833]); (68770,[68834]); (68771,[68835]);
   (68772,[68836]); (68773,[68837]); (68774,[68838]); (68775,[68839]); (68776,[68840]);
   (68777,[68841]); (68778,[68842]); (68779,[68843]); (68780,[68844]); (68781,[68845]);
   (68782,[68846]); (68783,[68847]); (68784,[68848]); (68785,[68849]); (68786,[68850]);
   (71840,[71872]); (71841,[71873]); (71842,[71874]); (71843,[71875]); (71844,[71876]);
   (71845,[71877]); (71846,[71878]); (71847,[71879]); (71848,[71880]); (71849,[71881]);
   (71850,[71882]); (71851,[71883]); (71852,[71884]); (71853,[71885]); (71854,[71886]);
   (71855,[71887]); (71856,[71888]); (71857,[71889]); (71858,[71890]); (71859,[71891]);
   (71860,[71892]); (71861,[71893]); (71862,[71894]); (71863,[71895]); (71864,[71896]);
   (71865,[71897]); (71866,[71898]); (71867,[71899]); (71868,[71900]); (71869,[71901]);
   (71870,[71902]); (71871,[71903]); (93760,[93792]); (93761,[93793]); (93762,[93794]);
   (93763,[93795]); (93764,[93796]); (93765,[93797]); (93766,[93798]); (93767,[93799]);
   (93768,[93800]); (93769,[93801]); (93770,[93802]); (93771,[93803]); (93772,[93804]);
   (93773,[93805]); (93774,[93806]); (93775,[93807]); (93776,[93808]); (93777,[93809]);
   (93778,[93810]); (93779,[93811]); (93780,[93812]); (93781,[93813]); (93782,[93814]);
   (93783,[93815]); (93784,[93816]); (93785,[93817]); (93786,[93818]); (93787,[93819]);
   (93788,[93820]); (93789,[93821]); (93790,[93822]); (93791,[93823]); (125184,[125218]);
   (125185,[125219]); (125186,[125220]); (125187,[125221]); (125188,[125222]); (125189,[125223]);
   (125190,[125224]); (125191,[125225]); (125192,[125226]); (125193,[125227]); (125194,[125228]);
   (125195,[125229]); (125196,[125230]); (125197,[125231]); (125198,[125232]); (125199,[125233]);
   (125200,[125234]); (125201,[125235]); (125202,[125236]); (125203,[125237]); (125204,[125238]);
   (125205,[125239]); (125206,[125240]); (125207,[125241]); (125208,[125242]); (125209,[125243]);
   (125210,[125244]); (125211,[125245]); (125212,[125246]); (125213,[125247]); (125214,[125248]);
   (125215,[125249]); (125216,[125250]); (125217,[125251])
  ])%N.

(** The characters [c] with [c.isupper()], as ranges [(first, last)] in increasing order. *)
Definition uppercase_ranges : list (N * N) :=
  ([
   (65,90); (192,214); (216,222); (256,256); (258,258); (260,260); (262,262); (264,264); (266,266);
   (268,268); (270,270); (272,272); (274,274); (276,276); (278,278); (280,280); (282,282);
   (284,284); (286,286); (288,288); (290,290); (292,292); (294,294); (296,296); (298,298);
   (300,300); (302,302); (304,304); (306,306); (308,308); (310,310); (313,313); (315,315);
   (317,317); (319,319); (321,321); (323,323); (325,325); (327,327); (330,330); (332,332);
   (334,334); (336,336); (338,338); (340,340); (342,342); (344,344); (346,346); (348,348);
   (350,350); (352,352); (354,354); (356,356); (358,358); (360,360); (362,362); (364,364);
   (366,366); (368,368); (370,370); (372,372); (374,374); (376,377); (379,379); (381,381);
   (385,386); (388,388); (390,391); (393,395); (398,401); (403,404); (406,408); (412,413);
   (415,416); (418,418); (420,420); (422,423); (425,425); (428,428); (430,431); (433,435);
   (437,437); (439,440); (444,444); (452,452); (455,455); (458,458); (461,461); (463,463);
   (465,465); (467,467); (469,469); (471,471); (473,473); (475,475); (478,478); (480,480);
   (482,482); (484,484); (486,486); (488,488); (490,490); (492,492); (494,494); (497,497);
   (500,500); (502,504); (506,506); (508,508); (510,510); (512,512); (514,514); (516,516);
   (518,518); (520,520); (522,522); (524,524); (526,526); (528,528); (530,530); (532,532);
   (534,534); (536,536); (538,538); (540,540); (542,542); (544,544); (546,546); (548,548);
   (550,550); (552,552); (554,554); (556,556); (558,558); (560,560); (562,562); (570,571);
   (573,574); (577,577); (579,582); (584,584); (586,586); (588,588); (590,590); (880,880);
   (882,882); (886,886); (895,895); (902,902); (904,906); (908,908); (910,911); (913,929);
   (931,939); (975,975); (978,980); (984,984); (986,986); (988,988); (990,990); (992,992);
   (994,994); (996,996); (998,998); (1000,1000); (1002,1002); (1004,1004); (1006,1006);
   (1012,1012); (1015,1015); (1017,1018); (1021,1071); (1120,1120); (1122,1122); (1124,1124);
   (1126,1126); (1128,1128); (1130,1130); (1132,1132); (1134,1134); (1136,1136); (1138,1138);
   (1140,1140); (1142,1142); (1144,1144); (1146,1146); (1148,1148); (1150,1150); (1152,1152);
   (1162,1162); (1164,1164); (1166,1166); (1168,1168); (1170,1170); (1172,1172); (1174,1174);
   (1176,1176); (1178,1178); (1180,1180); (1182,1182); (1184,1184); (1186,1186); (1188,1188);
   (1190,1190); (1192,1192); (1194,1194); (1196,1196); (1198,1198); (1200,1200); (1202,1202);
   (1204,1204); (1206,1206); (1208,1208); (1210,1210); (1212,1212); (1214,1214); (1216,1217);
   (1219,1219); (1221,1221); (1223,1223); (1225,1225); (1227,1227); (1229,1229); (1232,1232);
   (1234,1234); (1236,1236); (1238,1238); (1240,1240); (1242,1242); (1244,1244); (1246,1246);
   (1248,1248); (1250,1250); (1252,1252); (1254,1254); (1256,1256); (1258,1258); (1260,1260);
   (1262,1262); (1264,1264); (1266,1266); (1268,1268); (1270,1270); (1272,1272); (1274,1274);
   (1276,1276); (1278,1278); (1280,1280); (1282,1282); (1284,1284); (1286,1286); (1288,1288);
   (1290,1290); (1292,1292); (1294,1294); (1296,1296); (1298,1298); (1300,1300); (1302,1302);
   (1304,1304); (1306,1306); (1308,1308); (1310,1310); (1312,1312); (1314,1314); (1316,1316);
   (1318,1318); (1320,1320); (1322,1322); (1324,1324); (1326,1326); (1329,1366); (4256,4293);
   (4295,4295); (4301,4301); (5024,5109); (7312,7354); (7357,7359); (7680,7680); (7682,7682);
   (7684,7684); (7686,7686); (7688,7688); (7690,7690); (7692,7692); (7694,7694); (7696,7696);
   (7698,7698); (7700,7700); (7702,7702); (7704,7704); (7706,7706); (7708,7708); (7710,7710);
   (7712,7712); (7714,7714); (7716,7716); (7718,7718); (7720,7720); (7722,7722); (7724,7724);
   (7726,7726); (7728,7728); (7730,7730); (7732,7732); (7734,7734); (7736,7736); (7738,7738);
   (7740,7740); (7742,7742); (7744,7744); (7746,7746); (7748,7748); (7750,7750); (7752,7752);
   (7754,7754); (7756,7756); (7758,7758); (7760,7760); (7762,7762); (7764,7764); (7766,7766);
   (7768,7768); (7770,7770); (7772,7772); (7774,7774); (7776,7776); (7778,7778); (7780,7780);
   (7782,7782); (7784,7784); (7786,7786); (7788,7788); (7790,7790); (7792,7792); (7794,7794);
   (7796,7796); (7798,7798); (7800,7800); (7802,7802); (7804,7804); (7806,7806); (7808,7808);
   (7810,7810); (7812,7812); (7814,7814); (7816,7816); (7818,7818); (7820,7820); (7822,7822);
   (7824,7824); (7826,7826); (7828,7828); (7838,7838); (7840,7840); (7842,7842); (7844,7844);
   (7846,7846); (7848,7848); (7850,7850); (7852,7852); (7854,7854); (7856,7856); (7858,7858);
   (7860,7860); (7862,7862); (7864,7864); (7866,7866); (7868,7868); (7870,7870); (7872,7872);
   (7874,7874); (7876,7876); (7878,7878); (7880,7880); (7882,7882); (7884,7884); (7886,7886);
   (7888,7888); (7890,7890); (7892,7892); (7894,7894); (7896,7896); (7898,7898); (7900,7900);
   (7902,7902); (7904,7904); (7906,7906); (7908,7908); (7910,7910); (7912,7912); (7914,7914);
   (7916,7916); (7918,7918); (7920,7920); (7922,7922); (7924,7924); (7926,7926); (7928,7928);
   (7930,7930); (7932,7932); (7934,7934); (7944,7951); (7960,7965); (7976,7983); (7992,7999);
   (8008,8013); (8025,8025); (8027,8027); (8029,8029); (8031,8031); (8040,8047); (8120,8123);
   (8136,8139); (8152,8155); (8168,8172); (8184,8187); (8450,8450); (8455,8455); (8459,8461);
   (8464,8466); (8469,8469); (8473,8477); (8484,8484); (8486,8486); (8488,8488); (8490,8493);
   (8496,8499); (8510,8511); (8517,8517); (8544,8559); (8579,8579); (9398,9423); (11264,11311);
   (11360,11360); (11362,11364); (11367,11367); (11369,11369); (11371,11371); (11373,11376);
   (11378,11378); (11381,11381); (11390,11392); (11394,11394); (11396,11396); (11398,11398);
   (11400,11400); (11402,11402); (11404,11404); (11406,11406); (11408,11408); (11410,11410);
   (11412,11412); (11414,11414); (11416,11416); (11418,11418); (11420,11420); (11422,11422);
   (11424,11424); (11426,11426); (11428,11428); (11430,11430); (11432,11432); (11434,11434);
   (11436,11436); (11438,11438); (11440,11440); (11442,11442); (11444,11444); (11446,11446);
   (11448,11448); (11450,11450); (11452,11452); (11454,11454); (11456,11456); (11458,11458);
   (11460,11460); (11462,11462); (11464,11464); (11466,11466); (11468,11468); (11470,11470);
   (11472,11472); (11474,11474); (11476,11476); (11478,11478); (11480,11480); (11482,11482);
   (11484,11484); (11486,11486); (11488,11488); (11490,11490); (11499,11499); (11501,11501);
   (11506,11506); (42560,42560); (42562,42562); (42564,42564); (42566,42566); (42568,42568);
   (42570,42570); (42572,42572); (42574,42574); (42576,42576); (42578,42578); (42580,42580);
   (42582,42582); (42584,42584); (42586,42586); (42588,42588); (42590,42590); (42592,42592);
   (42594,42594); (42596,42596); (42598,42598); (42600,42600); (42602,42602); (42604,42604);
   (42624,42624); (42626,42626); (42628,42628); (42630,42630); (42632,42632); (42634,42634);
   (42636,42636); (42638,42638); (42640,42640); (42642,42642); (42644,42644); (42646,42646);
   (42648,42648); (42650,42650); (42786,42786); (42788,42788); (42790,42790); (42792,42792);
   (42794,42794); (42796,42796); (42798,42798); (42802,42802); (42804,42804); (42806,42806);
   (42808,42808); (42810,42810); (42812,42812); (42814,42814); (42816,42816); (42818,42818);
   (42820,42820); (42822,42822); (42824,42824); (42826,42826); (42828,42828); (42830,42830);
   (42832,42832); (42834,42834); (42836,42836); (42838,42838); (42840,42840); (42842,42842);
   (42844,42844); (42846,42846); (42848,42848); (42850,42850); (42852,42852); (42854,42854);
   (42856,42856); (42858,42858); (42860,42860); (42862,42862); (42873,42873); (42875,42875);
   (42877,42878); (42880,42880); (42882,42882); (42884,42884); (42886,42886); (42891,42891);
   (42893,42893); (42896,42896); (42898,42898); (42902,42902); (42904,42904); (42906,42906);
   (42908,42908); (42910,42910); (42912,42912); (42914,42914); (42916,42916); (42918,42918);
   (42920,42920); (42922,42926); (42928,42932); (42934,42934); (42936,42936); (42938,42938);
   (42940,42940); (42942,42942); (42944,42944); (42946,42946); (42948,42951); (42953,42953);
   (42960,42960); (42966,42966); (42968,42968); (42997,42997); (65313,65338); (66560,66599);
   (66736,66771); (66928,66938); (66940,66954); (66956,66962); (66964,66965); (68736,68786);
   (71840,71871); (93760,93791); (119808,119833); (119860,119885); (119912,119937);
   (119964,119964); (119966,119967); (119970,119970); (119973,119974); (119977,119980);
   (119982,119989); (120016,120041); (120068,120069); (120071,120074); (120077,120084);
   (120086,120092); (120120,120121); (120123,120126); (120128,120132); (120134,120134);
   (120138,120144); (120172,120197); (120224,120249); (120276,120301); (120328,120353);
   (120380,120405); (120432,120457); (120488,120512); (120546,120570); (120604,120628);
   (120662,120686); (120720,120744); (120778,120778); (125184,125217); (127280,127305);
   (127312,127337); (127344,127369)
  ])%N.

(** The characters [c] with [c.isalpha()]. *)
Definition alphabetic_ranges : list (N * N) :=
  ([
   (65,90); (97,122); (170,170); (181,181); (186,186); (192,214); (216,246); (248,705); (710,721);
   (736,740); (748,748); (750,750); (880,884); (886,887); (890,893); (895,895); (902,902);
   (904,906); (908,908); (910,929); (931,1013); (1015,1153); (1162,1327); (1329,1366); (1369,1369);
   (1376,1416); (1488,1514); (1519,1522); (1568,1610); (1646,1647); (1649,1747); (1749,1749);
   (1765,1766); (1774,1775); (1786,1788); (1791,1791); (1808,1808); (1810,1839); (1869,1957);
   (1969,1969); (1994,2026); (2036,2037); (2042,2042); (2048,2069); (2074,2074); (2084,2084);
   (2088,2088); (2112,2136); (2144,2154); (2160,2183); (2185,2190); (2208,2249); (2308,2361);
   (2365,2365); (2384,2384); (2392,2401); (2417,2432); (2437,2444); (2447,2448); (2451,2472);
   (2474,2480); (2482,2482); (2486,2489); (2493,2493); (2510,2510); (2524,2525); (2527,2529);
   (2544,2545); (2556,2556); (2565,2570); (2575,2576); (2579,2600); (2602,2608); (2610,2611);
   (2613,2614); (2616,2617); (2649,2652); (2654,2654); (2674,2676); (2693,2701); (2703,2705);
   (2707,2728); (2730,2736); (2738,2739); (2741,2745); (2749,2749); (2768,2768); (2784,2785);
   (2809,2809); (2821,2828); (2831,2832); (2835,2856); (2858,2864); (2866,2867); (2869,2873);
   (2877,2877); (2908,2909); (2911,2913); (2929,2929); (2947,2947); (2949,2954); (2958,2960);
   (2962,2965); (2969,2970); (2972,2972); (2974,2975); (2979,2980); (2984,2986); (2990,3001);
   (3024,3024); (3077,3084); (3086,3088); (3090,3112); (3114,3129); (3133,3133); (3160,3162);
   (3165,3165); (3168,3169); (3200,3200); (3205,3212); (3214,3216); (3218,3240); (3242,3251);
   (3253,3257); (3261,3261); (3293,3294); (3296,3297); (3313,3314); (3332,3340); (3342,3344);
   (3346,3386); (3389,3389); (3406,3406); (3412,3414); (3423,3425); (3450,3455); (3461,3478);
   (3482,3505); (3507,3515); (3517,3517); (3520,3526); (3585,3632); (3634,3635); (3648,3654);
   (3713,3714); (3716,3716); (3718,3722); (3724,3747); (3749,3749); (3751,3760); (3762,3763);
   (3773,3773); (3776,3780); (3782,3782); (3804,3807); (3840,3840); (3904,3911); (3913,3948);
   (3976,3980); (4096,4138); (4159,4159); (4176,4181); (4186,4189); (4193,4193); (4197,4198);
   (4206,4208); (4213,4225); (4238,4238); (4256,4293); (4295,4295); (4301,4301); (4304,4346);
   (4348,4680); (4682,4685); (4688,4694); (4696,4696); (4698,4701); (4704,4744); (4746,4749);
   (4752,4784); (4786,4789); (4792,4798); (4800,4800); (4802,4805); (4808,4822); (4824,4880);
   (4882,4885); (4888,4954); (4992,5007); (5024,5109); (5112,5117); (5121,5740); (5743,5759);
   (5761,5786); (5792,5866); (5873,5880); (5888,5905); (5919,5937); (5952,5969); (5984,5996);
   (5998,6000); (6016,6067); (6103,6103); (6108,6108); (6176,6264); (6272,6276); (6279,6312);
   (6314,6314); (6320,6389); (6400,6430); (6480,6509); (6512,6516); (6528,6571); (6576,6601);
   (6656,6678); (6688,6740); (6823,6823); (6917,6963); (6981,6988); (7043,7072); (7086,7087);
   (7098,7141); (7168,7203); (7245,7247); (7258,7293); (7296,7304); (7312,7354); (7357,7359);
   (7401,7404); (7406,7411); (7413,7414); (7418,7418); (7424,7615); (7680,7957); (7960,7965);
   (7968,8005); (8008,8013); (8016,8023); (8025,8025); (8027,8027); (8029,8029); (8031,8061);
   (8064,8116); (8118,8124); (8126,8126); (8130,8132); (8134,8140); (8144,8147); (8150,8155);
   (8160,8172); (8178,8180); (8182,8188); (8305,8305); (8319,8319); (8336,8348); (8450,8450);
   (8455,8455); (8458,8467); (8469,8469); (8473,8477); (8484,8484); (8486,8486); (8488,8488);
   (8490,8493); (8495,8505); (8508,8511); (8517,8521); (8526,8526); (8579,8580); (11264,11492);
   (11499,11502); (11506,11507); (11520,11557); (11559,11559); (11565,11565); (11568,11623);
   (11631,11631); (11648,11670); (11680,11686); (11688,11694); (11696,11702); (11704,11710);
   (11712,11718); (11720,11726); (11728,11734); (11736,11742); (11823,11823); (12293,12294);
   (12337,12341); (12347,12348); (12353,12438); (12445,12447); (12449,12538); (12540,12543);
   (12549,12591); (12593,12686); (12704,12735); (12784,12799); (13312,19903); (19968,42124);
   (42192,42237); (42240,42508); (42512,42527); (42538,42539); (42560,42606); (42623,42653);
   (42656,42725); (42775,42783); (42786,42888); (42891,42954); (42960,42961); (42963,42963);
   (42965,42969); (42994,43009); (43011,43013); (43015,43018); (43020,43042); (43072,43123);
   (43138,43187); (43250,43255); (43259,43259); (43261,43262); (43274,43301); (43312,43334);
   (43360,43388); (43396,43442); (43471,43471); (43488,43492); (43494,43503); (43514,43518);
   (43520,43560); (43584,43586); (43588,43595); (43616,43638); (43642,43642); (43646,43695);
   (43697,43697); (43701,43702); (43705,43709); (43712,43712); (43714,43714); (43739,43741);
   (43744,43754); (43762,43764); (43777,43782); (43785,43790); (43793,43798); (43808,43814);
   (43816,43822); (43824,43866); (43868,43881); (43888,44002); (44032,55203); (55216,55238);
   (55243,55291); (63744,64109); (64112,64217); (64256,64262); (64275,64279); (64285,64285);
   (64287,64296); (64298,64310); (64312,64316); (64318,64318); (64320,64321); (64323,64324);
   (64326,64433); (64467,64829); (64848,64911); (64914,64967); (65008,65019); (65136,65140);
   (65142,65276); (65313,65338); (65345,65370); (65382,65470); (65474,65479); (65482,65487);
   (65490,65495); (65498,65500); (65536,65547); (65549,65574); (65576,65594); (65596,65597);
   (65599,65613); (65616,65629); (65664,65786); (66176,66204); (66208,66256); (66304,66335);
   (66349,66368); (66370,66377); (66384,66421); (66432,66461); (66464,66499); (66504,66511);
   (66560,66717); (66736,66771); (66776,66811); (66816,66855); (66864,66915); (66928,66938);
   (66940,66954); (66956,66962); (66964,66965); (66967,66977); (66979,66993); (66995,67001);
   (67003,67004); (67072,67382); (67392,67413); (67424,67431); (67456,67461); (67463,67504);
   (67506,67514); (67584,67589); (67592,67592); (67594,67637); (67639,67640); (67644,67644);
   (67647,67669); (67680,67702); (67712,67742); (67808,67826); (67828,67829); (67840,67861);
   (67872,67897); (67968,68023); (68030,68031); (68096,68096); (68112,68115); (68117,68119);
   (68121,68149); (68192,68220); (68224,68252); (68288,68295); (68297,68324); (68352,68405);
   (68416,68437); (68448,68466); (68480,68497); (68608,68680); (68736,68786); (68800,68850);
   (68864,68899); (69248,69289); (69296,69297); (69376,69404); (69415,69415); (69424,69445);
   (69488,69505); (69552,69572); (69600,69622); (69635,69687); (69745,69746); (69749,69749);
   (69763,69807); (69840,69864); (69891,69926); (69956,69956); (69959,69959); (69968,70002);
   (70006,70006); (70019,70066); (70081,70084); (70106,70106); (70108,70108); (70144,70161);
   (70163,70187); (70272,70278); (70280,70280); (70282,70285); (70287,70301); (70303,70312);
   (70320,70366); (70405,70412); (70415,70416); (70419,70440); (70442,70448); (70450,70451);
   (70453,70457); (70461,70461); (70480,70480); (70493,70497); (70656,70708); (70727,70730);
   (70751,70753); (70784,70831); (70852,70853); (70855,70855); (71040,71086); (71128,71131);
   (71168,71215); (71236,71236); (71296,71338); (71352,71352); (71424,71450); (71488,71494);
   (71680,71723); (71840,71903); (71935,71942); (71945,71945); (71948,71955); (71957,71958);
   (71960,71983); (71999,71999); (72001,72001); (72096,72103); (72106,72144); (72161,72161);
   (72163,72163); (72192,72192); (72203,72242); (72250,72250); (72272,72272); (72284,72329);
   (72349,72349); (72368,72440); (72704,72712); (72714,72750); (72768,72768); (72818,72847);
   (72960,72966); (72968,72969); (72971,73008); (73030,73030); (73056,73061); (73063,73064);
   (73066,73097); (73112,73112); (73440,73458); (73648,73648); (73728,74649); (74880,75075);
   (77712,77808); (77824,78894); (82944,83526); (92160,92728); (92736,92766); (92784,92862);
   (92880,92909); (92928,92975); (92992,92995); (93027,93047); (93053,93071); (93760,93823);
   (93952,94026); (94032,94032); (94099,94111); (94176,94177); (94179,94179); (94208,100343);
   (100352,101589); (101632,101640); (110576,110579); (110581,110587); (110589,110590);
   (110592,110882); (110928,110930); (110948,110951); (110960,111355); (113664,113770);
   (113776,113788); (113792,113800); (113808,113817); (119808,119892); (119894,119964);
   (119966,119967); (119970,119970); (119973,119974); (119977,119980); (119982,119993);
   (119995,119995); (119997,120003); (120005,120069); (120071,120074); (120077,120084);
   (120086,120092); (120094,120121); (120123,120126); (120128,120132); (120134,120134);
   (120138,120144); (120146,120485); (120488,120512); (120514,120538); (120540,120570);
   (120572,120596); (120598,120628); (120630,120654); (120656,120686); (120688,120712);
   (120714,120744); (120746,120770); (120772,120779); (122624,122654); (123136,123180);
   (123191,123197); (123214,123214); (123536,123565); (123584,123627); (124896,124902);
   (124904,124907); (124909,124910); (124912,124926); (124928,125124); (125184,125251);
   (125259,125259); (126464,126467); (126469,126495); (126497,126498); (126500,126500);
   (126503,126503); (126505,126514); (126516,126519); (126521,126521); (126523,126523);
   (126530,126530); (126535,126535); (126537,126537); (126539,126539); (126541,126543);
   (126545,126546); (126548,126548); (126551,126551); (126553,126553); (126555,126555);
   (126557,126557); (126559,126559); (126561,126562); (126564,126564); (126567,126570);
   (126572,126578); (126580,126583); (126585,126588); (126590,126590); (126592,126601);
   (126603,126619); (126625,126627); (126629,126633); (126635,126651); (131072,173791);
   (173824,177976); (177984,178205); (178208,183969); (183984,191456); (194560,195101);
   (196608,201546)
  ])%N.

(** The characters [c] with [c.isspace()]; [str.split] and [str.strip] use the same
    set. *)
Definition whitespace_ranges : list (N * N) :=
  ([
   (9,13); (28,32); (133,133); (160,160); (5760,5760); (8192,8202); (8232,8233); (8239,8239);
   (8287,8287); (12288,12288)
  ])%N.

(** The decimal digits that [int] accepts ([c.isdecimal()]): every range holds the
    digits 0 to 9 of one or more scripts, in order. *)
Definition decimal_ranges : list (N * N) :=
  ([
   (48,57); (1632,1641); (1776,1785); (1984,1993); (2406,2415); (2534,2543); (2662,2671);
   (2790,2799); (2918,2927); (3046,3055); (3174,3183); (3302,3311); (3430,3439); (3558,3567);
   (3664,3673); (3792,3801); (3872,3881); (4160,4169); (4240,4249); (6112,6121); (6160,6169);
   (6470,6479); (6608,6617); (6784,6793); (6800,6809); (6992,7001); (7088,7097); (7232,7241);
   (7248,7257); (42528,42537); (43216,43225); (43264,43273); (43472,43481); (43504,43513);
   (43600,43609); (44016,44025); (65296,65305); (66720,66729); (68912,68921); (69734,69743);
   (69872,69881); (69942,69951); (70096,70105); (70384,70393); (70736,70745); (70864,70873);
   (71248,71257); (71360,71369); (71472,71481); (71904,71913); (72016,72025); (72784,72793);
   (73040,73049); (73120,73129); (92768,92777); (92864,92873); (93008,93017); (120782,120831);
   (123200,123209); (123632,123641); (125264,125273); (130032,130041)
  ])%N.

(** The case-ignorable characters, which the rule for the Greek capital sigma skips. *)
Definition case_ignorable_ranges : list (N * N) :=
  ([
   (39,39); (46,46); (58,58); (94,94); (96,96); (168,168); (173,173); (175,175); (180,180);
   (183,184); (688,879); (884,885); (890,890); (900,901); (903,903); (1155,1161); (1369,1369);
   (1375,1375); (1425,1469); (1471,1471); (1473,1474); (1476,1477); (1479,1479); (1524,1524);
   (1536,1541); (1552,1562); (1564,1564); (1600,1600); (1611,1631); (1648,1648); (1750,1757);
   (1759,1768); (1770,1773); (1807,1807); (1809,1809); (1840,1866); (1958,1968); (2027,2037);
   (2042,2042); (2045,2045); (2070,2093); (2137,2139); (2184,2184); (2192,2193); (2200,2207);
   (2249,2306); (2362,2362); (2364,2364); (2369,2376); (2381,2381); (2385,2391); (2402,2403);
   (2417,2417); (2433,2433); (2492,2492); (2497,2500); (2509,2509); (2530,2531); (2558,2558);
   (2561,2562); (2620,2620); (2625,2626); (2631,2632); (2635,2637); (2641,2641); (2672,2673);
   (2677,2677); (2689,2690); (2748,2748); (2753,2757); (2759,2760); (2765,2765); (2786,2787);
   (2810,2815); (2817,2817); (2876,2876); (2879,2879); (2881,2884); (2893,2893); (2901,2902);
   (2914,2915); (2946,2946); (3008,3008); (3021,3021); (3072,3072); (3076,3076); (3132,3132);
   (3134,3136); (3142,3144); (3146,3149); (3157,3158); (3170,3171); (3201,3201); (3260,3260);
   (3263,3263); (3270,3270); (3276,3277); (3298,3299); (3328,3329); (3387,3388); (3393,3396);
   (3405,3405); (3426,3427); (3457,3457); (3530,3530); (3538,3540); (3542,3542); (3633,3633);
   (3636,3642); (3654,3662); (3761,3761); (3764,3772); (3782,3782); (3784,3789); (3864,3865);
   (3893,3893); (3895,3895); (3897,3897); (3953,3966); (3968,3972); (3974,3975); (3981,3991);
   (3993,4028); (4038,4038); (4141,4144); (4146,4151); (4153,4154); (4157,4158); (4184,4185);
   (4190,4192); (4209,4212); (4226,4226); (4229,4230); (4237,4237); (4253,4253); (4348,4348);
   (4957,4959); (5906,5908); (5938,5939); (5970,5971); (6002,6003); (6068,6069); (6071,6077);
   (6086,6086); (6089,6099); (6103,6103); (6109,6109); (6155,6159); (6211,6211); (6277,6278);
   (6313,6313); (6432,6434); (6439,6440); (6450,6450); (6457,6459); (6679,6680); (6683,6683);
   (6742,6742); (6744,6750); (6752,6752); (6754,6754); (6757,6764); (6771,6780); (6783,6783);
   (6823,6823); (6832,6862); (6912,6915); (6964,6964); (6966,6970); (6972,6972); (6978,6978);
   (7019,7027); (7040,7041); (7074,7077); (7080,7081); (7083,7085); (7142,7142); (7144,7145);
   (7149,7149); (7151,7153); (7212,7219); (7222,7223); (7288,7293); (7376,7378); (7380,7392);
   (7394,7400); (7405,7405); (7412,7412); (7416,7417); (7468,7530); (7544,7544); (7579,7679);
   (8125,8125); (8127,8129); (8141,8143); (8157,8159); (8173,8175); (8189,8190); (8203,8207);
   (8216,8217); (8228,8228); (8231,8231); (8234,8238); (8288,8292); (8294,8303); (8305,8305);
   (8319,8319); (8336,8348); (8400,8432); (11388,11389); (11503,11505); (11631,11631);
   (11647,11647); (11744,11775); (11823,11823); (12293,12293); (12330,12333); (12337,12341);
   (12347,12347); (12441,12446); (12540,12542); (40981,40981); (42232,42237); (42508,42508);
   (42607,42610); (42612,42621); (42623,42623); (42652,42655); (42736,42737); (42752,42785);
   (42864,42864); (42888,42890); (42994,42996); (43000,43001); (43010,43010); (43014,43014);
   (43019,43019); (43045,43046); (43052,43052); (43204,43205); (43232,43249); (43263,43263);
   (43302,43309); (43335,43345); (43392,43394); (43443,43443); (43446,43449); (43452,43453);
   (43471,43471); (43493,43494); (43561,43566); (43569,43570); (43573,43574); (43587,43587);
   (43596,43596); (43632,43632); (43644,43644); (43696,43696); (43698,43700); (43703,43704);
   (43710,43711); (43713,43713); (43741,43741); (43756,43757); (43763,43764); (43766,43766);
   (43867,43871); (43881,43883); (44005,44005); (44008,44008); (44013,44013); (64286,64286);
   (64434,64450); (65024,65039); (65043,65043); (65056,65071); (65106,65106); (65109,65109);
   (65279,65279); (65287,65287); (65294,65294); (65306,65306); (65342,65342); (65344,65344);
   (65392,65392); (65438,65439); (65507,65507); (65529,65531); (66045,66045); (66272,66272);
   (66422,66426); (67456,67461); (67463,67504); (67506,67514); (68097,68099); (68101,68102);
   (68108,68111); (68152,68154); (68159,68159); (68325,68326); (68900,68903); (69291,69292);
   (69446,69456); (69506,69509); (69633,69633); (69688,69702); (69744,69744); (69747,69748);
   (69759,69761); (69811,69814); (69817,69818); (69821,69821); (69826,69826); (69837,69837);
   (69888,69890); (69927,69931); (69933,69940); (70003,70003); (70016,70017); (70070,70078);
   (70089,70092); (70095,70095); (70191,70193); (70196,70196); (70198,70199); (70206,70206);
   (70367,70367); (70371,70378); (70400,70401); (70459,70460); (70464,70464); (70502,70508);
   (70512,70516); (70712,70719); (70722,70724); (70726,70726); (70750,70750); (70835,70840);
   (70842,70842); (70847,70848); (70850,70851); (71090,71093); (71100,71101); (71103,71104);
   (71132,71133); (71219,71226); (71229,71229); (71231,71232); (71339,71339); (71341,71341);
   (71344,71349); (71351,71351); (71453,71455); (71458,71461); (71463,71467); (71727,71735);
   (71737,71738); (71995,71996); (71998,71998); (72003,72003); (72148,72151); (72154,72155);
   (72160,72160); (72193,72202); (72243,72248); (72251,72254); (72263,72263); (72273,72278);
   (72281,72283); (72330,72342); (72344,72345); (72752,72758); (72760,72765); (72767,72767);
   (72850,72871); (72874,72880); (72882,72883); (72885,72886); (73009,73014); (73018,73018);
   (73020,73021); (73023,73029); (73031,73031); (73104,73105); (73109,73109); (73111,73111);
   (73459,73460); (78896,78904); (92912,92916); (92976,92982); (92992,92995); (94031,94031);
   (94095,94111); (94176,94177); (94179,94180); (110576,110579); (110581,110587); (110589,110590);
   (113821,113822); (113824,113827); (118528,118573); (118576,118598); (119143,119145);
   (119155,119170); (119173,119179); (119210,119213); (119362,119364); (121344,121398);
   (121403,121452); (121461,121461); (121476,121476); (121499,121503); (121505,121519);
   (122880,122886); (122888,122904); (122907,122913); (122915,122916); (122918,122922);
   (123184,123197); (123566,123566); (123628,123631); (125136,125142); (125252,125259);
   (127995,127999); (917505,917505); (917536,917631); (917760,917999)
  ])%N.

(** The cased characters that are not case-ignorable. *)
Definition cased_ranges : list (N * N) :=
  ([
   (65,90); (97,122); (170,170); (181,181); (186,186); (192,214); (216,246); (248,442); (444,447);
   (452,659); (661,687); (880,883); (886,887); (891,893); (895,895); (902,902); (904,906);
   (908,908); (910,929); (931,1013); (1015,1153); (1162,1327); (1329,1366); (1376,1416);
   (4256,4293); (4295,4295); (4301,4301); (4304,4346); (4349,4351); (5024,5109); (5112,5117);
   (7296,7304); (7312,7354); (7357,7359); (7424,7467); (7531,7543); (7545,7578); (7680,7957);
   (7960,7965); (7968,8005); (8008,8013); (8016,8023); (8025,8025); (8027,8027); (8029,8029);
   (8031,8061); (8064,8116); (8118,8124); (8126,8126); (8130,8132); (8134,8140); (8144,8147);
   (8150,8155); (8160,8172); (8178,8180); (8182,8188); (8450,8450); (8455,8455); (8458,8467);
   (8469,8469); (8473,8477); (8484,8484); (8486,8486); (8488,8488); (8490,8493); (8495,8500);
   (8505,8505); (8508,8511); (8517,8521); (8526,8526); (8544,8575); (8579,8580); (9398,9449);
   (11264,11387); (11390,11492); (11499,11502); (11506,11507); (11520,11557); (11559,11559);
   (11565,11565); (42560,42605); (42624,42651); (42786,42863); (42865,42887); (42891,42894);
   (42896,42954); (42960,42961); (42963,42963); (42965,42969); (42997,42998); (43002,43002);
   (43824,43866); (43872,43880); (43888,43967); (64256,64262); (64275,64279); (65313,65338);
   (65345,65370); (66560,66639); (66736,66771); (66776,66811); (66928,66938); (66940,66954);
   (66956,66962); (66964,66965); (66967,66977); (66979,66993); (66995,67001); (67003,67004);
   (68736,68786); (68800,68850); (71840,71903); (93760,93823); (119808,119892); (119894,119964);
   (119966,119967); (119970,119970); (119973,119974); (119977,119980); (119982,119993);
   (119995,119995); (119997,120003); (120005,120069); (120071,120074); (120077,120084);
   (120086,120092); (120094,120121); (120123,120126); (120128,120132); (120134,120134);
   (120138,120144); (120146,120485); (120488,120512); (120514,120538); (120540,120570);
   (120572,120596); (120598,120628); (120630,120654); (120656,120686); (120688,120712);
   (120714,120744); (120746,120770); (120772,120779); (122624,122633); (122635,122654);
   (125184,125251); (127280,127305); (127312,127337); (127344,127369)
  ])%N.

(** The entry of [c] in a case table, which is in increasing order. *)
Fixpoint case_lookup (c : character) (table : list (N * list N)) : option text :=
  match table with
  | [] => None
  | (k, image) :: rest =>
      if (c =? k)%N then Some image
      else if (c <? k)%N then None
      else case_lookup c rest
  end.

(** Whether [c] lies in one of the ranges, which are in increasing order. *)
Fixpoint in_ranges (c : character) (ranges : list (N * N)) : bool :=
  match ranges with
  | [] => false
  | (first, last) :: rest =>
      if (c <? first)%N then false
      else if (c <=? last)%N then true
      else in_ranges c rest
  end.

(** [c.upper()] and [c.lower()] for a one-character string: a string of one
    to three characters. *)
Definition upper_char (c : character) : text := default [c] (case_lookup c upper_table).

Definition lower_char (c : character) : text := default [c] (case_lookup c lower_table).

(** [c.isupper()], [c.isalpha()] and [c.isspace()] for a one-character
    string. *)
Definition isupper (c : character) : bool := in_ranges c uppercase_ranges.

Definition isalpha (c : character) : bool := in_ranges c alphabetic_ranges.

Definition isspace (c : character) : bool := in_ranges c whitespace_ranges.

(** [text.upper()]: every character is replaced by its upper-case form. *)
Definition upper (t : text) : text := concat (map upper_char t).

(** Whether the first character of [t] that is not case-ignorable is
    cased. *)
Fixpoint cased_ahead (t : text) : bool :=
  match t with
  | [] => false
  | c :: rest =>
      if in_ranges c case_ignorable_ranges then cased_ahead rest
      else in_ranges c cased_ranges
  end.

(** The Greek capital sigma U+03A3 becomes the final sigma U+03C2 when a
    cased character stands before it and none after it, case-ignorable
    characters aside, and the small sigma U+03C3 otherwise.  [before] holds
    the characters before the sigma, the nearest first. *)
Definition final_sigma (before after : text) : bool :=
  cased_ahead before && negb (cased_ahead after).

Definition lower_at (before after : text) (c : character) : text :=
  if (c =? 931)%N
  then [if final_sigma before after then 962%N else 963%N]
  else lower_char c.

Fixpoint lower_from (before t : text) : text :=
  match t with
  | [] => []
  | c :: after => lower_at before after c ++ lower_from (c :: before) after
  end.

(** [text.lower()] *)
Definition lower (t : text) : text := lower_from [] t.

(** The value of a decimal digit. *)
Fixpoint decimal_value (c : character) (ranges : list (N * N)) : option Z :=
  match ranges with
  | [] => None
  | (first, last) :: rest =>
      if (c <? first)%N then None
      else if (c <=? last)%N then Some (Z.of_N ((c - first) `mod` 10))
      else decimal_value c rest
  end.

Definition digit (c : character) : option Z := decimal_value c decimal_ranges.

Arguments upper_char : simpl never.
Arguments lower_char : simpl never.
Arguments isupper : simpl never.
Arguments isalpha : simpl never.
Arguments isspace : simpl never.
Arguments digit : simpl never.

(** The two characters outside ASCII whose upper-case form is an ASCII
    letter: the dotless i, which becomes I, and the long s, which becomes
    S. *)
Definition dotless_i : character := 305.

Definition long_s : character := 383.

Definition alphabet : text := txt "ABCDEFGHIJKLMNOPQRSTUVWXYZ".

(** [string.ascii_lowercase] *)
Definition ascii_lowercase : text := txt "abcdefghijklmnopqrstuvwxyz".

(** ** Applying a key: [decrypt]

    [pypher.py], lines 30-40. *)

(** [key_mapping.get(s)] for a string [s]: the keys are one-character
    strings. *)
Definition lookup_str (key_mapping : gmap character character) (s : text) : option character :=
  match s with
  | [c] => key_mapping !! c
  | _ => None
  end.

(** What one round of the loop appends to [result]. *)
Definition decrypt_char (key_mapping : gmap character character) (char : character) : text :=
  match lookup_str key_mapping (upper_char char) with
  | Some dec_char => if isupper char then [dec_char] else lower_char dec_char
  | None => [char]
  end.

(** The character that a key puts in the place of [char], for a key under
    which that is one character. *)
Definition decrypt_single (key_mapping : gmap character character) (char : character)
  : character :=
  default char (head (decrypt_char key_mapping char)).

Definition decrypt (ciphertext : text) (key_mapping : gmap character character) : text :=
  fold_left (fun result char => result ++ decrypt_char key_mapping char)
            ciphertext [].

(** The dict comprehension [{key[i]: alphabet[i] for i in range(26)}]: later
    indices overwrite earlier ones.  Every key of the source has 26
    characters, so both subscripts are in range; the model skips an index
    that is not. *)
Definition put_key (key : text) (m : gmap character character) (i : nat)
  : gmap character character :=
  match key !! i, alphabet !! i with
  | Some k, Some a => <[k := a]> m
  | _, _ => m
  end.

Definition mapping_of_key (key : text) : gmap character character :=
  fold_left (put_key key) (seq 0 26) ∅.

(** The key that undoes [key_mapping]: every pair is turned around. *)
Definition invert_mapping (key_mapping : gmap character character) : gmap character character :=
  list_to_map (prod_swap <$> map_to_list key_mapping).

(** A substitution key is a total bijection of the 26-letter alphabet: it is
    defined exactly on the letters A-Z, maps them to letters A-Z, without
    collisions and without omissions. *)
Definition total_bijection (key_mapping : gmap character character) : Prop :=
  (∀ c, c ∈ alphabet ↔ is_Some (key_mapping !! c))
  ∧ (∀ c p, key_mapping !! c = Some p → p ∈ alphabet)
  ∧ (∀ c1 c2 p, key_mapping !! c1 = Some p → key_mapping !! c2 = Some p → c1 = c2)
  ∧ (∀ p, p ∈ alphabet → ∃ c, key_mapping !! c = Some p).

(** ** Exceptions

    Fallible code returns [Ok] or raises one of the exceptions that the
    modelled paths can raise. *)

Inductive exn :=
  | SystemExit
  | FileNotFoundError
  | ValueError
  | ZeroDivisionError
  | OverflowError
  | KeyError
  | TypeError
  | JSONDecodeError
  | UnicodeDecodeError
  | RecursionError.

Inductive result (A : Type) :=
  | Ok (a : A)
  | Raise (e : exn).
Arguments Ok {A} a.
Arguments Raise {A} e.

#[global] Instance result_ret : MRet result := @Ok.
#[global] Instance result_bind : MBind result := λ A B f r,
  match r with
  | Ok a => f a
  | Raise e => Raise e
  end.

(** ** The quadgram scorer

    [pypher.py], lines 44-81. *)

(** [line.split()]: the maximal runs of non-whitespace characters.  [cur]
    holds the current run, reversed. *)
Fixpoint split_from (cur : text) (line : text) : list text :=
  match line with
  | [] => match cur with [] => [] | _ => [rev cur] end
  | c :: rest =>
      if isspace c
      then match cur with [] => split_from [] rest | _ => rev cur :: split_from [] rest end
      else split_from (c :: cur) rest
  end.

Definition split (line : text) : list text := split_from [] line.

(** The digits of a decimal literal, where a single underscore may stand
    between two digits. *)
Fixpoint int_digits (acc : Z) (after_digit : bool) (s : text) : option Z :=
  match s with
  | [] => if after_digit then Some acc else None
  | c :: rest =>
      if decide (c = ord "_")
      then (if after_digit
            then match rest with [] => None | _ => int_digits acc false rest end
            else None)
      else match digit c with
           | Some d => int_digits (10 * acc + d)%Z true rest
           | None => None
           end
  end.

(** The limit on the number of digits of an integer literal
    ([sys.get_int_max_str_digits()], by default). *)
Definition int_max_str_digits : nat := 4300.

(** [int(s)] for a string without whitespace: an optional sign and a decimal
    literal of at most [int_max_str_digits] digits; [None] stands for
    [ValueError]. *)
Definition py_int (s : text) : option Z :=
  let '(negative, literal) :=
    match s with
    | c :: rest =>
        if decide (c = ord "+") then (false, rest)
        else if decide (c = ord "-") then (true, rest)
        else (false, s)
    | [] => (false, s)
    end in
  if decide (int_max_str_digits < length (filter (λ c, c ≠ ord "_") literal)) then None
  else (λ n, if negative then (- n)%Z else n) <$> int_digits 0 false literal.

(** A [dict] whose iteration order matters: the list of its items in the
    order in which their keys were inserted.  [dict_set] is [d[key] = value],
    which leaves the place of a key that is there. *)
Fixpoint dict_get {V} (d : list (text * V)) (key : text) : option V :=
  match d with
  | [] => None
  | (k, v) :: rest => if decide (k = key) then Some v else dict_get rest key
  end.

Fixpoint dict_set {V} (key : text) (value : V) (d : list (text * V)) : list (text * V) :=
  match d with
  | [] => [(key, value)]
  | (k, v) :: rest =>
      if decide (k = key) then (k, value) :: rest else (k, v) :: dict_set key value rest
  end.

(** One line of the table: a line with exactly two fields sets the count of
    its token, replacing an earlier count; any other line is skipped. *)
Definition load_line (quadgrams : list (text * Z)) (line : text) : result (list (text * Z)) :=
  match split line with
  | [token; count] =>
      match py_int count with
      | Some n => Ok (dict_set token n quadgrams)
      | None => Raise ValueError
      end
  | _ => Ok quadgrams
  end.

Fixpoint load_lines (quadgrams : list (text * Z)) (lines : list text)
  : result (list (text * Z)) :=
  match lines with
  | [] => Ok quadgrams
  | line :: rest => q ← load_line quadgrams line; load_lines q rest
  end.

Definition default_quadgrams : list (text * Z) :=
  [ (txt "THEN", 10%Z); (txt "THER", 9%Z); (txt "TION", 8%Z); (txt "HERE", 7%Z);
    (txt "THAT", 7%Z); (txt "ATIO", 6%Z); (txt "NDTH", 5%Z); (txt "THEM", 5%Z) ].

(** [sum(self.quadgrams.values())] *)
Definition sum_values (quadgrams : list (text * Z)) : Z :=
  fold_left (λ acc item, (acc + item.2)%Z) quadgrams 0%Z.

Definition log10 (x : R) : R := (ln x / ln 10)%R.

(** [math.log10] raises [ValueError] outside the positive numbers. *)
Definition math_log10 (x : R) : result R :=
  if Rlt_dec 0 x then Ok (log10 x) else Raise ValueError.

(** The integers from [float_limit] on, and their opposites, are too large
    for a float. *)
Definition float_limit : Z := 2 ^ 1024 - 2 ^ 970.

(** The conversion of an integer to a float, as [float(n)] and the
    arithmetic of a float with an integer make it. *)
Definition float_of_int (n : Z) : result R :=
  if decide (Z.abs n < float_limit)%Z then Ok (IZR n) else Raise OverflowError.

(** [x / total] for a float [x] and the integer [total], which is converted
    before it is compared with zero. *)
Definition div_total (x : R) (total : Z) : result R :=
  d ← float_of_int total;
  if decide (total = 0%Z) then Raise ZeroDivisionError else Ok (x / d)%R.

(** [math.log10(float(count) / total)] *)
Definition item_log_prob (count total : Z) : result R :=
  x ← float_of_int count;
  p ← div_total x total;
  math_log10 p.

(** The loop that fills [self.log_prob], one item at a time in the order of
    the dictionary: the first item that fails decides the exception. *)
Definition build_log_prob (quadgrams : list (text * Z)) (total : Z) : result (gmap text R) :=
  fold_left (λ acc item,
               log_prob ← acc;
               l ← item_log_prob item.2 total;
               Ok (<[item.1 := l]> log_prob))
            quadgrams (Ok ∅).

Record QuadgramScorer := {
  quadgrams : list (text * Z);
  total : Z;
  log_prob : gmap text R;
  floor : R
}.

(** [QuadgramScorer.__init__].  [file] is [None] when [quadgrams.txt] does
    not exist, and otherwise holds its lines. *)
Definition QuadgramScorer_init (file : option (list text)) : result QuadgramScorer :=
  quadgrams ← match file with
              | Some lines => load_lines [] lines
              | None => Ok default_quadgrams
              end;
  let total := sum_values quadgrams in
  log_prob ← build_log_prob quadgrams total;
  p ← div_total (1 / 100)%R total;
  floor ← math_log10 p;
  Ok {| quadgrams := quadgrams; total := total; log_prob := log_prob; floor := floor |}.

(** [text.upper().replace(" ", "")] *)
Definition normalize (t : text) : text :=
  filter (λ c, c ≠ ord " ") (upper t).

(** [QuadgramScorer.score]: [quad] is the slice [text[i:i+4]]. *)
Definition score (self : QuadgramScorer) (t : text) : R :=
  let t := normalize t in
  fold_left (λ score i,
               let quad := take 4 (drop i t) in
               match log_prob self !! quad with
               | Some l => (score + l)%R
               | None => (score + floor self)%R
               end)
            (seq 0 (length t - 3)) 0%R.

(** ** Hill climbing

    [pypher.py], lines 85-133.  The search only calls [scorer.score] and
    compares the scores with [>], so it is stated for any type [T] of
    scores with a comparison [gt]; the source instantiates it with the
    quadgram scorer and the order of the floats.

    Randomness is an explicit generator state of type [G]:
    [shuffle g l] is [random.shuffle] applied to the list [l], and [sample g]
    is [random.sample(range(26), 2)]; both return the next generator state.
    The library guarantees that [shuffle] returns a permutation of its
    argument and that [sample] returns two distinct indices below 26. *)

(** [l[a], l[b] = l[b], l[a]]: both right-hand sides are read before the
    two stores.  The source only swaps indices below 26 in a list of 26
    characters; the model leaves the list alone otherwise. *)
Definition swap (a b : nat) (l : text) : text :=
  match l !! a, l !! b with
  | Some x, Some y => <[b := x]> (<[a := y]> l)
  | _, _ => l
  end.

Section HillClimb.
Context {T G : Type}.
Variable gt : T → T → bool.
Variable shuffle : G → text → text * G.
Variable sample : G → nat * nat * G.
Variable scorer : text → T.

(** The variables of the loop of [hill_climb], and the generator. *)
Record climb_state := {
  best_key : text;
  best_score : T;
  current_key : text;
  current_score : T;
  gen : G
}.

(** Lines 90-100: the random start. *)
Definition climb_init (ciphertext : text) (g : G) : climb_state :=
  let '(best_key, g) := shuffle g alphabet in
  let best_mapping := mapping_of_key best_key in
  let best_decryption := decrypt ciphertext best_mapping in
  let best_score := scorer best_decryption in
  {| best_key := best_key; best_score := best_score;
     current_key := best_key; current_score := best_score; gen := g |}.

(** Lines 104-110: the candidate of one iteration, its score, and the
    generator after the draw. *)
Definition propose (ciphertext : text) (s : climb_state) : text * T * G :=
  let '(a, b, g) := sample (gen s) in
  let new_key := swap a b (current_key s) in
  let new_mapping := mapping_of_key new_key in
  let new_decryption := decrypt ciphertext new_mapping in
  let new_score := scorer new_decryption in
  (new_key, new_score, g).

(** Lines 111-116: one iteration of the loop. *)
Definition climb_step (ciphertext : text) (s : climb_state) : climb_state :=
  let '(new_key, new_score, g) := propose ciphertext s in
  if gt new_score (current_score s) then
    if gt new_score (best_score s) then
      {| best_key := new_key; best_score := new_score;
         current_key := new_key; current_score := new_score; gen := g |}
    else
      {| best_key := best_key s; best_score := best_score s;
         current_key := new_key; current_score := new_score; gen := g |}
  else
    {| best_key := best_key s; best_score := best_score s;
       current_key := current_key s; current_score := current_score s; gen := g |}.

(** The state after [k] iterations. *)
Definition climb_trace (ciphertext : text) (g : G) (k : nat) : climb_state :=
  Nat.iter k (climb_step ciphertext) (climb_init ciphertext g).

(** [hill_climb(ciphertext, scorer, max_iter)], with the generator state
    it leaves behind.  The loop over [range(max_iter)] makes [max_iter]
    rounds, and none when [max_iter] is negative. *)
Definition hill_climb (ciphertext : text) (max_iter : Z) (g : G)
  : text * gmap character character * T * G :=
  let s := climb_trace ciphertext g (Z.to_nat max_iter) in
  let final_mapping := mapping_of_key (best_key s) in
  (decrypt ciphertext final_mapping, final_mapping, best_score s, gen s).

(** ** Restarts *)

(** A score, or [-float('inf')]. *)
Inductive ext_score :=
  | NegInf
  | Fin (x : T).

(** [score > best_overall_score] *)
Definition gt_ext (x : T) (b : ext_score) : bool :=
  match b with
  | NegInf => true
  | Fin y => gt x y
  end.

(** The three variables of the loop of [solve_substitution]. *)
Record overall := {
  best_overall_decryption : option text;
  best_overall_mapping : option (gmap character character);
  best_overall_score : ext_score
}.

Definition overall_init : overall :=
  {| best_overall_decryption := None; best_overall_mapping := None;
     best_overall_score := NegInf |}.

(** The loop of [solve_substitution], for the number of rounds that are
    left. *)
Fixpoint solve_loop (ciphertext : text) (rounds : nat) (iterations : Z)
    (best : overall) (g : G) : overall * G :=
  match rounds with
  | 0 => (best, g)
  | S restarts =>
      let '(decryption, mapping, score, g) := hill_climb ciphertext iterations g in
      let best :=
        if gt_ext score (best_overall_score best) then
          {| best_overall_decryption := Some decryption;
             best_overall_mapping := Some mapping;
             best_overall_score := Fin score |}
        else best in
      solve_loop ciphertext restarts iterations best g
  end.

(** [solve_substitution(ciphertext, scorer, restarts, iterations)]: the loop
    over [range(restarts)] makes [restarts] rounds, and none when [restarts]
    is negative. *)
Definition solve_substitution (ciphertext : text) (restarts iterations : Z) (g : G)
  : overall * G :=
  solve_loop ciphertext (Z.to_nat restarts) iterations overall_init g.

(** The candidate of an iteration and its score. *)
Definition proposed_key (ciphertext : text) (s : climb_state) : text :=
  (propose ciphertext s).1.1.

Definition proposed_score (ciphertext : text) (s : climb_state) : T :=
  (propose ciphertext s).1.2.

(** What the loop of [hill_climb] maintains: the current key is the best
    key, and the best score is the score of the best key. *)
Definition climb_invariant (ciphertext : text) (s : climb_state) : Prop :=
  current_key s = best_key s
  ∧ current_score s = best_score s
  ∧ best_score s = scorer (decrypt ciphertext (mapping_of_key (best_key s))).

(** One update of the loop of [solve_substitution]. *)
Definition keep_best (best : overall) (run : text * gmap character character * T) : overall :=
  let '(decryption, mapping, score) := run in
  if gt_ext score (best_overall_score best) then
    {| best_overall_decryption := Some decryption;
       best_overall_mapping := Some mapping;
       best_overall_score := Fin score |}
  else best.

(** The constituent runs of [solve_substitution], in the order in which
    they are made: the result of each [hill_climb] call. *)
Fixpoint runs (ciphertext : text) (rounds : nat) (iterations : Z) (g : G)
  : list (text * gmap character character * T) :=
  match rounds with
  | 0 => []
  | S restarts =>
      let '(decryption, mapping, score, g) := hill_climb ciphertext iterations g in
      (decryption, mapping, score) :: runs ciphertext restarts iterations g
  end.
End HillClimb.

Arguments NegInf {T}.
Arguments Fin {T} x.

(** The comparison [x > y] of two finite floats. *)
Definition Rgt_bool (x y : R) : bool := if Rlt_dec y x then true else false.

(** ** The result cache and [main]

    [pypher.py], lines 22-28 and 137-183.

    The cache file is seen through [json.load] and [json.dump]: its content
    is the value that [json.load] returns, and [json.dump] followed by
    [json.load] gives the value back.  The files [quadgrams.txt] and
    [decryption_cache.json] are kept apart from the other files, so the
    model covers the runs whose input file is neither of the two, and in
    which the files that [main] writes can be written.  Another file is given
    by the characters that its bytes decode to, of which the hash of the
    bytes is a function; an input file that cannot be decoded is not covered.
    Messages printed on the way are left out. *)

Inductive jnum :=
  | JFinite (x : R)
  | JInfinity
  | JNegInfinity
  | JNaN.

#[warnings="-register-all"]
Inductive json :=
  | JNull
  | JBool (b : bool)
  | JNum (x : jnum)
  | JStr (s : text)
  | JArr (elems : list json)
  | JObj (fields : gmap text json).

Inductive cache_file :=
  | Absent                (* the file does not exist *)
  | Unloadable (e : exn)  (* opening or [json.load] raises [e] *)
  | Loaded (v : json).    (* [json.load] returns [v] *)

Record world := {
  files : gmap text text;
  quadgrams_txt : option (list text);
  cache_json : cache_file
}.

(** What a run of [main] leaves behind: how it ended, the files, the
    generator, and how many times it called [solve_substitution]. *)
Record outcome (G : Type) := {
  status : result unit;
  final : world;
  final_gen : G;
  optimizer_calls : nat
}.
Arguments status {G} o.
Arguments final {G} o.
Arguments final_gen {G} o.
Arguments optimizer_calls {G} o.

Fixpoint is_prefix (p s : text) : bool :=
  match p, s with
  | [], _ => true
  | _ :: _, [] => false
  | a :: p, b :: s => bool_decide (a = b) && is_prefix p s
  end.

(** [p in s] for two strings. *)
Fixpoint is_substring (p s : text) : bool :=
  is_prefix p s || match s with [] => false | _ :: s => is_substring p s end.

(** [key in v] for a string [key]. *)
Definition contains (v : json) (key : text) : result bool :=
  match v with
  | JObj fields => Ok (bool_decide (is_Some (fields !! key)))
  | JArr elems =>
      Ok (existsb (λ e, match e with JStr s => bool_decide (s = key) | _ => false end) elems)
  | JStr s => Ok (is_substring key s)
  | _ => Raise TypeError
  end.

(** [v[key]] for a string [key]. *)
Definition subscript (v : json) (key : text) : result json :=
  match v with
  | JObj fields =>
      match fields !! key with
      | Some x => Ok x
      | None => Raise KeyError
      end
  | _ => Raise TypeError
  end.

(** [v[key] = x] for a string [key]. *)
Definition store (v : json) (key : text) (x : json) : result json :=
  match v with
  | JObj fields => Ok (JObj (<[key := x]> fields))
  | _ => Raise TypeError
  end.

Fixpoint lstrip (t : text) : text :=
  match t with
  | c :: rest => if isspace c then lstrip rest else t
  | [] => []
  end.

(** [str.strip()] *)
Definition strip (t : text) : text := rev (lstrip (rev (lstrip t))).

(** Reading in text mode turns the line endings CR LF and CR into LF. *)
Fixpoint universal_newlines (t : text) : text :=
  match t with
  | c :: rest =>
      if decide (c = 13%N)
      then match rest with
           | c' :: rest' =>
               if decide (c' = 10%N)
               then 10%N :: universal_newlines rest'
               else 10%N :: universal_newlines rest
           | [] => [10%N]
           end
      else c :: universal_newlines rest
  | [] => []
  end.

Definition cache_filename : text := txt "decryption_cache.json".

(** The values that [main] stores in an entry. *)
Definition json_of_text (t : option text) : json :=
  match t with Some t => JStr t | None => JNull end.

Definition json_of_mapping (m : option (gmap character character)) : json :=
  match m with
  | Some m => JObj (list_to_map ((λ kv, ([kv.1], JStr [kv.2])) <$> map_to_list m))
  | None => JNull
  end.

Definition json_of_score (s : ext_score (T := R)) : json :=
  match s with Fin x => JNum (JFinite x) | NegInf => JNum JNegInfinity end.

Section Main.
Context {G : Type}.
(** [hashlib.sha256(buf).hexdigest()] *)
Variable sha256_hexdigest : text → text.
Variable shuffle : G → text → text * G.
Variable sample : G → nat * nat * G.

Definition compute_file_hash (w : world) (filename : text) : result text :=
  match files w !! filename with
  | Some buf => Ok (sha256_hexdigest buf)
  | None => Raise FileNotFoundError
  end.

(** Lines 150-154. *)
Definition load_cache (w : world) : result json :=
  match cache_json w with
  | Absent => Ok (JObj ∅)
  | Unloadable e => Raise e
  | Loaded v => Ok v
  end.

Definition raised (e : exn) (w : world) (g : G) (calls : nat) : outcome G :=
  {| status := Raise e; final := w; final_gen := g; optimizer_calls := calls |}.

(** Lines 181-182: opening the output file empties it, and [write] takes
    a string only. *)
Definition write_output (output_file : text) (decrypted_text : json)
    (w : world) (g : G) (calls : nat) : outcome G :=
  match decrypted_text with
  | JStr t =>
      {| status := Ok ();
         final := {| files := <[output_file := t]> (files w);
                     quadgrams_txt := quadgrams_txt w; cache_json := cache_json w |};
         final_gen := g; optimizer_calls := calls |}
  | _ =>
      raised TypeError
        {| files := <[output_file := []]> (files w);
           quadgrams_txt := quadgrams_txt w; cache_json := cache_json w |}
        g calls
  end.

(** Lines 162-177: the miss.  The entry is stored and the cache is dumped
    before the output is written. *)
Definition solve_and_store (input_file output_file file_hash : text) (cache : json)
    (w : world) (g : G) : outcome G :=
  match files w !! input_file with
  | None => raised FileNotFoundError w g 0
  | Some buf =>
      let ciphertext := strip (universal_newlines buf) in
      match QuadgramScorer_init (quadgrams_txt w) with
      | Raise e => raised e w g 0
      | Ok scorer =>
          let '(best, g) :=
            solve_substitution Rgt_bool shuffle sample (score scorer) ciphertext 20 1000 g in
          let decrypted_text := json_of_text (best_overall_decryption best) in
          let entry :=
            JObj (<[txt "decrypted_text" := decrypted_text]>
                 (<[txt "mapping" := json_of_mapping (best_overall_mapping best)]>
                 (<[txt "score" := json_of_score (best_overall_score best)]> ∅))) in
          match store cache file_hash entry with
          | Raise e => raised e w g 1
          | Ok cache =>
              write_output output_file decrypted_text
                {| files := files w; quadgrams_txt := quadgrams_txt w;
                   cache_json := Loaded cache |}
                g 1
          end
      end
  end.

(** [main()], with [sys.argv] as [argv]. *)
Definition main (argv : list text) (w : world) (g : G) : outcome G :=
  match argv with
  | _ :: input_file :: _ =>
      let output_file := input_file ++ txt ".decrypted.txt" in
      match compute_file_hash w input_file with
      | Raise e => raised e w g 0
      | Ok file_hash =>
          match load_cache w with
          | Raise e => raised e w g 0
          | Ok cache =>
              match contains cache file_hash with
              | Raise e => raised e w g 0
              | Ok true =>
                  match result ← subscript cache file_hash;
                        subscript result (txt "decrypted_text") with
                  | Raise e => raised e w g 0
                  | Ok decrypted_text => write_output output_file decrypted_text w g 0
                  end
              | Ok false => solve_and_store input_file output_file file_hash cache w g
              end
          end
      end
  | _ => raised SystemExit w g 0
  end.
End Main.

Arguments main : simpl never.
Arguments solve_substitution : simpl never.

(** ** The score as a sum over windows

    The design document describes the score as a sum over all overlapping
    windows of four consecutive symbols of the normalised text. *)

Fixpoint windows4 (t : text) : list text :=
  match t with
  | a :: rest =>
      match rest with
      | b :: c :: d :: _ => [a; b; c; d] :: windows4 rest
      | _ => []
      end
  | [] => []
  end.

(** The tabulated log-probability of a quadgram, or the floor. *)
Definition quad_value (self : QuadgramScorer) (quad : text) : R :=
  match log_prob self !! quad with
  | Some l => l
  | None => floor self
  end.

Definition Rsum (l : list R) : R := fold_right Rplus 0%R l.

(** The normalisation in the words of the design document: strip the
    non-alphabetic characters, normalise the case. *)
Definition strip_non_alphabetic (t : text) : text :=
  upper (filter (λ c, isalpha c = true) t).

(** The log-probabilities of a table whose counts are accepted. *)
Definition log_probs (quadgrams : list (text * Z)) (total : Z) : gmap text R :=
  fold_left (λ log_prob item, <[item.1 := log10 (IZR item.2 / IZR total)]> log_prob)
            quadgrams ∅.

(** The scorer that the fallback table gives. *)
Definition default_scorer : QuadgramScorer :=
  {| quadgrams := default_quadgrams;
     total := 57;
     log_prob := log_probs default_quadgrams 57;
     floor := log10 (1 / 100 / IZR 57) |}.

(** A count that the loop of [__init__] accepts. *)
Definition accepted (total count : Z) : Prop :=
  (Z.abs count < float_limit)%Z ∧ (Z.abs total < float_limit)%Z
  ∧ total ≠ 0%Z ∧ (0 < IZR count / IZR total)%R.

(** ** The order of the scores

    The comparison [>] of two floats that are not NaN is a strict total
    order; the search needs this much of it. *)
Class ScoreOrder {T : Type} (gt : T → T → bool) := {
  gt_asym : ∀ x y, gt x y = true → gt y x = false;
  gt_cotrans : ∀ x y z, gt x z = true → gt x y = true ∨ gt y z = true
}.

(** ** A small deterministic instance

    A generator, a scorer and a digest on which the definitions can be run:
    the generator state is a counter, [demo_shuffle] rotates the list,
    [demo_sample] walks through pairs of distinct indices, [demo_score]
    counts the letters E and T, and [demo_digest] is the identity. *)

Definition demo_shuffle (g : nat) (l : text) : text * nat := (rotate g l, S g).

Definition demo_sample (g : nat) : nat * nat * nat :=
  (g `mod` 26, (g `mod` 26 + 1 + (7 * g) `mod` 25) `mod` 26, S g).

Definition demo_score (t : text) : Z :=
  Z.of_nat (length (filter (λ c, upper_char c = txt "E" ∨ upper_char c = txt "T") t)).

Definition demo_digest (buf : text) : text := buf.

(** A world for the examples: one message, no table file, and either no
    cache file or a cache file whose entry for the message has lost its
    text. *)
Definition demo_world : world :=
  {| files := {[ txt "msg.txt" := txt "Wkh txlfn eurzq ira" ]};
     quadgrams_txt := None;
     cache_json := Absent |}.

Definition demo_corrupt_world : world :=
  {| files := {[ txt "msg.txt" := txt "Wkh txlfn eurzq ira" ]};
     quadgrams_txt := None;
     cache_json :=
       Loaded (JObj {[ demo_digest (txt "Wkh txlfn eurzq ira")
                       := JObj {[ txt "score" := JNull ]} ]}) |}.

Definition demo_argv : list text := [txt "pypher.py"; txt "msg.txt"].

(** A line of the table file that is a record for [token]. *)
Definition is_record (token : text) (line : text) : Prop :=
  ∃ count, split line = [token; count].

(** The key that has the effect of applying [first] and then [second]. *)
Definition compose_mapping (first second : gmap character character) : gmap character character :=
  omap (λ p, second !! p) first.

(** What a run of [main] may do to its world: it leaves the table file
    alone, calls the optimizer at most once, writes no file but
    [output_file], and either leaves the cache file alone or, in a run that
    succeeds after one call of the optimizer, adds one entry under a key
    that the cache, a dictionary, did not have. *)
Definition main_effects {G : Type} (output_file : text) (w : world) (o : outcome G) : Prop :=
  quadgrams_txt (final o) = quadgrams_txt w
  ∧ optimizer_calls o ≤ 1
  ∧ (∀ name, name ≠ output_file → files (final o) !! name = files w !! name)
  ∧ (cache_json (final o) = cache_json w
     ∨ ∃ fields key entry,
         (cache_json w = Absent ∧ fields = ∅ ∨ cache_json w = Loaded (JObj fields))
         ∧ fields !! key = None
         ∧ cache_json (final o) = Loaded (JObj (<[key := entry]> fields))
         ∧ status o = Ok ()
         ∧ optimizer_calls o = 1).

(** ** The Caesar scripts

    [CaesarShift/brute_shift.py], [CaesarShift/caesar_frequency.py] and
    [CaesarShift/compare_decryption_methods.py] share [normalize_text] and
    [caesar_decrypt]; the last two share [chi_squared_score] and the search
    for the best shift. *)

(** [text.lower()] *)
Definition normalize_text (t : text) : text := lower t.

(** [chr((ord(char) - base - shift) % 26 + base)] with [base = ord('a')];
    [%] is the remainder of the floored division. *)
Definition caesar_decrypt_char (shift : Z) (char : character) : character :=
  if isalpha char
  then Z.to_N ((Z.of_N char - Z.of_N (ord "a") - shift) `mod` 26 + Z.of_N (ord "a"))
  else char.

Definition caesar_decrypt (ciphertext : text) (shift : Z) : text :=
  fold_left (λ plaintext char, plaintext ++ [caesar_decrypt_char shift char])
            ciphertext [].

(** [range(26)] *)
Definition range26 : list Z := map Z.of_nat (seq 0 26).

(** [compare_decryption_methods.py], lines 70-75; the loop of
    [brute_shift.py], lines 50-52, prints the same pairs. *)
Definition brute_force_candidates (ciphertext : text) : list (Z * text) :=
  fold_left (λ candidates shift, candidates ++ [(shift, caesar_decrypt ciphertext shift)])
            range26 [].

(** [ENGLISH_FREQ], in thousandths of a percent. *)
Definition english_freq_thousandths : gmap character Z :=
  list_to_map
    [ (ord "a", 8167%Z); (ord "b", 1492%Z); (ord "c", 2782%Z); (ord "d", 4253%Z); (ord "e", 12702%Z);
      (ord "f", 2228%Z); (ord "g", 2015%Z); (ord "h", 6094%Z); (ord "i", 6966%Z); (ord "j", 153%Z);
      (ord "k", 772%Z); (ord "l", 4025%Z); (ord "m", 2406%Z); (ord "n", 6749%Z); (ord "o", 7507%Z);
      (ord "p", 1929%Z); (ord "q", 95%Z); (ord "r", 5987%Z); (ord "s", 6327%Z); (ord "t", 9056%Z);
      (ord "u", 2758%Z); (ord "v", 978%Z); (ord "w", 2360%Z); (ord "x", 150%Z); (ord "y", 1974%Z);
      (ord "z", 74%Z) ].

(** [ENGLISH_FREQ]: the decimal literal [8.167] is the number 8167/1000. *)
Definition ENGLISH_FREQ : gmap character R :=
  (λ n, IZR n / 1000)%R <$> english_freq_thousandths.

(** A chi-squared score: a float, or [float('inf')]. *)
Inductive chi_score :=
  | Inf
  | Chi (x : R).

(** The loop that counts the letters: [letter_counts[char] += 1] for the
    characters that are keys of the dictionary. *)
Definition count_letter (letter_counts : gmap character Z) (char : character) : gmap character Z :=
  match letter_counts !! char with
  | Some n => <[char := (n + 1)%Z]> letter_counts
  | None => letter_counts
  end.

(** [{letter: 0 for letter in string.ascii_lowercase}] *)
Definition zero_counts : gmap character Z :=
  fold_left (λ m letter, <[letter := 0%Z]> m) ascii_lowercase ∅.

(** One round of the loop over the alphabet.  Both subscripts,
    [letter_counts[letter]] and [ENGLISH_FREQ[letter]], are keys; the model
    skips a letter that is not. *)
Definition chi_term (letter_counts : gmap character Z) (total : nat) (chi_sq : R)
    (letter : character) : R :=
  match letter_counts !! letter, ENGLISH_FREQ !! letter with
  | Some observed, Some freq =>
      let expected := (freq / 100 * INR total)%R in
      if Rlt_dec 0 expected
      then (chi_sq + (IZR observed - expected) ^ 2 / expected)%R
      else chi_sq
  | _, _ => chi_sq
  end.

(** [chi_squared_score], [caesar_frequency.py], lines 47-64. *)
Definition chi_squared_score (t : text) : chi_score :=
  let filtered_text := filter (λ c, isalpha c = true) (lower t) in
  if decide (length filtered_text = 0) then Inf
  else
    let letter_counts := fold_left count_letter filtered_text zero_counts in
    let total := length filtered_text in
    Chi (fold_left (chi_term letter_counts total) ascii_lowercase 0%R).

(** [score < best_score] *)
Definition chi_lt (x y : chi_score) : bool :=
  match x, y with
  | Chi a, Chi b => if Rlt_dec a b then true else false
  | Chi _, Inf => true
  | Inf, _ => false
  end.

(** The three variables of the search for the best shift. *)
Record best_shift_state := {
  best_shift : option Z;
  best_chi : chi_score;
  best_plaintext : text
}.

Definition try_shift (ciphertext : text) (best : best_shift_state) (shift : Z)
  : best_shift_state :=
  let candidate := caesar_decrypt ciphertext shift in
  let score := chi_squared_score candidate in
  if chi_lt score (best_chi best)
  then {| best_shift := Some shift; best_chi := score; best_plaintext := candidate |}
  else best.

(** [frequency_analysis_decrypt], [compare_decryption_methods.py], lines
    77-88; the loop of [caesar_frequency.py], lines 82-91, is the same. *)
Definition frequency_analysis_decrypt (ciphertext : text) : best_shift_state :=
  fold_left (try_shift ciphertext) range26
            {| best_shift := None; best_chi := Inf; best_plaintext := [] |}.

(** The lower-case letter at offset [k] modulo 26. *)
Definition letter_at (k : Z) : character := Z.to_N (k `mod` 26 + 97).

(** ** The permutation search of [caesar_shift/main.py] *)

(** [Counter]: the items in the order in which their keys were first seen.
    Counting [c] increments its item in place, or appends the item
    [(c, 1)]. *)
Fixpoint counter_add (c : character) (items : list (character * nat)) : list (character * nat) :=
  match items with
  | [] => [(c, 1)]
  | (k, n) :: rest => if decide (k = c) then (k, S n) :: rest else (k, n) :: counter_add c rest
  end.

(** [Counter(c for c in ciphertext if c in string.ascii_lowercase)] *)
Definition count_lowercase (ciphertext : text) : list (character * nat) :=
  fold_left (λ items c, if decide (c ∈ ascii_lowercase) then counter_add c items else items)
            ciphertext [].

(** One insertion of the stable sort by count, largest first: [x], which
    comes before the items of [sorted] in the original order, goes before
    the first item whose count is not greater than its own. *)
Fixpoint insert_desc (x : character * nat) (sorted : list (character * nat))
  : list (character * nat) :=
  match sorted with
  | [] => [x]
  | y :: rest => if (x.2 <? y.2)%nat then y :: insert_desc x rest else x :: y :: rest
  end.

(** [Counter.most_common()]: [sorted(items, key=itemgetter(1),
    reverse=True)], a stable sort. *)
Definition most_common (items : list (character * nat)) : list (character * nat) :=
  fold_right insert_desc [] items.

(** [frequency_analysis], [main.py], lines 10-14. *)
Definition frequency_analysis (ciphertext : text) : text :=
  map fst (most_common (count_lowercase ciphertext)).

(** [decrypt_with_shift], lines 16-18: [shift_map.get(c, c)] for every
    character. *)
Definition decrypt_with_shift (ciphertext : text) (shift_map : gmap character character) : text :=
  map (λ c, default c (shift_map !! c)) ciphertext.

(** [itertools.permutations(l, r)]: the tuples of [r] elements at distinct
    positions of [l], in the lexicographic order of the positions. *)
Fixpoint permutations {A} (l : list A) (r : nat) : list (list A) :=
  match r with
  | 0 => [[]]
  | S r' =>
      flat_map (λ i, match l !! i with
                     | Some x => map (cons x) (permutations (delete i l) r')
                     | None => []
                     end)
               (seq 0 (length l))
  end.

(** The dict comprehension over [zip(cipher_freq_order, permutation)]. *)
Definition zip_mapping (cipher_freq_order permutation : text) : gmap character character :=
  fold_left (λ m kv, <[kv.1 := kv.2]> m) (zip cipher_freq_order permutation) ∅.

(** [generate_shift_mappings], lines 20-23: the mappings in the order in
    which the generator yields them. *)
Definition generate_shift_mappings (cipher_freq_order english_freq_order : text)
  : list (gmap character character) :=
  map (zip_mapping cipher_freq_order)
      (permutations english_freq_order (length cipher_freq_order)).

Definition english_freq_order : text := txt "etaoinshrdlcumwfgypbvkjxqz".

(** [is_valid_english], lines 25-29.  [check] is [dictionary.check]; more
    than half of the words are valid when twice their number exceeds the
    number of words. *)
Definition is_valid_english (check : text → bool) (t : text) : bool :=
  let words := split t in
  let valid_words := filter (λ word, check word = true) words in
  match words with
  | [] => false
  | _ => bool_decide (length words < 2 * length valid_words)
  end.

(** The search of [main], lines 33-50, for the line that [input()] returns:
    the first candidate that is valid English, or [None] for "No valid
    decryption found.". *)
Definition search_decryption (check : text → bool) (line : text) : option text :=
  let ciphertext := lower (strip line) in
  let cipher_freq_order := frequency_analysis ciphertext in
  find (is_valid_english check)
       (map (decrypt_with_shift ciphertext)
            (generate_shift_mappings cipher_freq_order english_freq_order)).

(** The letters of a text in the order of their first occurrence. *)
Definition first_occurrences (t : text) : text :=
  fold_left (λ seen c, if decide (c ∈ seen) then seen else seen ++ [c]) t [].

(** How often [c] occurs in [t]. *)
Definition occurrences (c : character) (t : text) : nat := length (filter (λ c', c' = c) t).

(** * Properties *)

(** ** Facts about the character database *)

Lemma case_lookup_elem (c : character) (table : list (N * list N)) (image : text) :
  case_lookup c table = Some image → (c, image) ∈ table.
Proof.
  induction table as [|[k v] rest IH]; simpl; [done|].
  destruct (c =? k)%N eqn:Heq.
  - intros [= <-]. apply N.eqb_eq in Heq as ->. left.
  - destruct (c <? k)%N; [done|]. intros H. right. by apply IH.
Qed.

Lemma table_check {A} (check : A → bool) (table : list A) (e : A) :
  forallb check table = true → e ∈ table → check e = true.
Proof. rewrite forallb_forall. intros H Hin. apply H. by apply list_elem_of_In. Qed.

Lemma upper_char_cases (c : character) :
  upper_char c = [c] ∨ (c, upper_char c) ∈ upper_table.
Proof.
  unfold upper_char. destruct (case_lookup c upper_table) as [image|] eqn:H; [|by left].
  right. by apply case_lookup_elem.
Qed.

Lemma lower_char_cases (c : character) :
  lower_char c = [c] ∨ (c, lower_char c) ∈ lower_table.
Proof.
  unfold lower_char. destruct (case_lookup c lower_table) as [image|] eqn:H; [|by left].
  right. by apply case_lookup_elem.
Qed.

(** The ASCII letters: an upper-case letter [u] and its lower-case form
    [u + 32]. *)
Lemma alphabet_case (u : character) :
  u ∈ alphabet →
  upper_char u = [u] ∧ isupper u = true ∧ lower_char u = [(u + 32)%N]
  ∧ upper_char (u + 32) = [u] ∧ isupper (u + 32) = false
  ∧ lower_char (u + 32) = [(u + 32)%N]
  ∧ (u + 32)%N ∈ ascii_lowercase ∧ ((u + 32)%N ∉ alphabet) ∧ (u ∉ ascii_lowercase).
Proof.
  revert u. apply Forall_forall. apply (bool_decide_unpack _). vm_compute. exact I.
Qed.

Lemma ascii_lowercase_alphabet (c : character) :
  c ∈ ascii_lowercase → ∃ u, u ∈ alphabet ∧ c = (u + 32)%N.
Proof.
  intros Hc. exists (c - 32)%N. revert c Hc.
  apply Forall_forall. apply (bool_decide_unpack _). vm_compute. exact I.
Qed.

Lemma dotless_i_case :
  upper_char dotless_i = [73%N] ∧ isupper dotless_i = false
  ∧ (dotless_i ∉ alphabet) ∧ (dotless_i ∉ ascii_lowercase).
Proof. apply (bool_decide_unpack _). vm_compute. exact I. Qed.

Lemma long_s_case :
  upper_char long_s = [83%N] ∧ isupper long_s = false
  ∧ (long_s ∉ alphabet) ∧ (long_s ∉ ascii_lowercase).
Proof. apply (bool_decide_unpack _). vm_compute. exact I. Qed.

Lemma upper_table_letters :
  forallb (λ e, match e.2 with
                | [u] => if bool_decide (u ∈ alphabet)
                         then bool_decide (e.1 = (u + 32)%N ∨ e.1 = dotless_i ∨ e.1 = long_s)
                         else true
                | _ => true
                end) upper_table = true.
Proof. vm_compute. reflexivity. Qed.

(** The characters whose upper-case form is one of the letters A-Z are the
    52 ASCII letters, the dotless i and the long s. *)
Lemma upper_char_letter (c u : character) :
  upper_char c = [u] → u ∈ alphabet →
  c = u ∨ c = (u + 32)%N ∨ c = dotless_i ∨ c = long_s.
Proof.
  intros Hc Hu. destruct (upper_char_cases c) as [Heq|Hin]; [left; congruence|].
  right. rewrite Hc in Hin.
  pose proof (table_check _ _ _ upper_table_letters Hin) as Hchk.
  cbn [fst snd] in Hchk. rewrite (bool_decide_eq_true_2 _ Hu) in Hchk.
  by apply bool_decide_eq_true in Hchk.
Qed.

Lemma upper_table_fixed :
  forallb (λ e, forallb (λ d, bool_decide (upper_char d = [d])) e.2) upper_table = true.
Proof. vm_compute. reflexivity. Qed.

(** Upper-casing is idempotent, character by character, and makes no
    space. *)
Lemma upper_char_fixed (c d : character) : d ∈ upper_char c → upper_char d = [d].
Proof.
  intros Hd. destruct (upper_char_cases c) as [Heq|Hin].
  - rewrite Heq in Hd. apply list_elem_of_singleton in Hd as ->. done.
  - pose proof (table_check _ _ _ upper_table_fixed Hin) as Hchk.
    cbn [snd] in Hchk. rewrite forallb_forall in Hchk.
    apply list_elem_of_In, Hchk in Hd. by apply bool_decide_eq_true in Hd.
Qed.

Lemma upper_table_no_space :
  forallb (λ e, negb (bool_decide (ord " " ∈ e.2))) upper_table = true.
Proof. vm_compute. reflexivity. Qed.

Lemma upper_char_space (c : character) : ord " " ∈ upper_char c ↔ c = ord " ".
Proof.
  split; [|intros ->; vm_compute; left].
  intros Hd. destruct (upper_char_cases c) as [Heq|Hin].
  - rewrite Heq in Hd. by apply list_elem_of_singleton in Hd.
  - pose proof (table_check _ _ _ upper_table_no_space Hin) as Hchk.
    cbn [snd] in Hchk. apply negb_true_iff, bool_decide_eq_false in Hchk. done.
Qed.

(** ** Facts about [decrypt] *)

Lemma decrypt_fold (km : gmap character character) (l acc : text) :
  fold_left (fun result char => result ++ decrypt_char km char) l acc
  = acc ++ concat (map (decrypt_char km) l).
Proof.
  revert acc. induction l as [|c l IH]; intros acc; simpl.
  - by rewrite app_nil_r.
  - rewrite IH. by rewrite <- app_assoc.
Qed.

Lemma decrypt_concat (ciphertext : text) (km : gmap character character) :
  decrypt ciphertext km = concat (map (decrypt_char km) ciphertext).
Proof. unfold decrypt. by rewrite decrypt_fold. Qed.

Lemma decrypt_app (t1 t2 : text) (km : gmap character character) :
  decrypt (t1 ++ t2) km = decrypt t1 km ++ decrypt t2 km.
Proof. by rewrite !decrypt_concat, map_app, concat_app. Qed.

Lemma decrypt_singleton (c : character) (km : gmap character character) :
  decrypt [c] km = decrypt_char km c.
Proof. rewrite decrypt_concat. simpl. apply app_nil_r. Qed.

Lemma decrypt_twice (t : text) (km1 km2 : gmap character character) :
  decrypt (decrypt t km1) km2 = concat (map (λ c, decrypt (decrypt_char km1 c) km2) t).
Proof.
  rewrite (decrypt_concat t). induction t as [|c t IH]; [done|].
  simpl. by rewrite decrypt_app, IH.
Qed.

(** ** Facts about key mappings *)

Lemma lookup_invert_mapping (km : gmap character character) (p c : character) :
  (∀ c1 c2 q, km !! c1 = Some q → km !! c2 = Some q → c1 = c2) →
  invert_mapping km !! p = Some c ↔ km !! c = Some p.
Proof.
  intros Hinj. unfold invert_mapping.
  rewrite <- elem_of_list_to_map.
  - rewrite list_elem_of_fmap. split.
    + intros [[c' p'] [Heq Hin]]. simpl in Heq. inversion Heq; subst.
      by apply elem_of_map_to_list.
    + intros H. exists (c, p). split; [done|]. by apply elem_of_map_to_list.
  - rewrite <- list_fmap_compose.
    apply NoDup_fmap_2_strong; [|apply NoDup_map_to_list].
    intros [c1 p1] [c2 p2] H1 H2 Heq. simpl in Heq. subst p2.
    apply elem_of_map_to_list in H1, H2.
    by rewrite (Hinj c1 c2 p1 H1 H2).
Qed.

Lemma invert_mapping_bijection (km : gmap character character) :
  total_bijection km → total_bijection (invert_mapping km).
Proof.
  intros (Hdom & Hran & Hinj & Hsur).
  pose proof (λ p c, lookup_invert_mapping km p c Hinj) as Hinv.
  repeat split.
  - intros Hc. destruct (Hsur c Hc) as [d Hd].
    exists d. by apply Hinv.
  - intros [d Hd]. apply Hinv in Hd. eauto.
  - intros c p H. apply Hinv in H. apply Hdom. eauto.
  - intros c1 c2 p H1 H2. apply Hinv in H1, H2. congruence.
  - intros p Hp. apply Hdom in Hp as [d Hd].
    exists d. by apply Hinv.
Qed.

(** What a bijective key does to one character: an upper-case ASCII letter
    is replaced by the letter that the key assigns to it; a character that is
    not upper-case and whose upper-case form is a letter A-Z (a lower-case
    ASCII letter, the dotless i or the long s) is replaced by the lower-case
    form of the letter that the key assigns to that letter; every other
    character stays. *)
Lemma decrypt_char_cases (km : gmap character character) (c : character) :
  total_bijection km →
  (∃ d, c ∈ alphabet ∧ km !! c = Some d ∧ d ∈ alphabet ∧ decrypt_char km c = [d])
  ∨ (∃ u d, u ∈ alphabet ∧ upper_char c = [u] ∧ km !! u = Some d ∧ d ∈ alphabet
            ∧ decrypt_char km c = [(d + 32)%N]
            ∧ (c = (u + 32)%N ∨ c = dotless_i ∨ c = long_s))
  ∨ (lookup_str km (upper_char c) = None
     ∧ (c ∉ alphabet) ∧ (c ∉ ascii_lowercase) ∧ c ≠ dotless_i ∧ c ≠ long_s
     ∧ decrypt_char km c = [c]).
Proof.
  intros (Hdom & Hran & Hinj & Hsur). unfold decrypt_char.
  destruct (lookup_str km (upper_char c)) as [d|] eqn:Hk.
  - unfold lookup_str in Hk.
    destruct (upper_char c) as [|u [|? ?]] eqn:Hu; try done.
    assert (Hua : u ∈ alphabet) by (apply Hdom; eauto).
    assert (Hda : d ∈ alphabet) by eauto.
    destruct (alphabet_case d Hda) as (_ & _ & Hld & _).
    destruct (upper_char_letter c u Hu Hua) as [->|[->|[->| ->]]].
    + left. exists d. destruct (alphabet_case u Hua) as (_ & -> & _). done.
    + right; left. exists u, d.
      destruct (alphabet_case u Hua) as (_ & _ & _ & _ & -> & _).
      rewrite Hld. repeat split; auto.
    + right; left. exists u, d. destruct dotless_i_case as (_ & -> & _).
      rewrite Hld. repeat split; auto.
    + right; left. exists u, d. destruct long_s_case as (_ & -> & _).
      rewrite Hld. repeat split; auto.
  - right; right. split; [done|].
    assert (Hno : ∀ u, u ∈ alphabet → upper_char c ≠ [u]).
    { intros u Hua Hu. rewrite Hu in Hk. simpl in Hk.
      apply Hdom in Hua as [? ?]. congruence. }
    repeat split; try done.
    + intros Hc. apply (Hno c Hc). by destruct (alphabet_case c Hc).
    + intros Hc. destruct (ascii_lowercase_alphabet c Hc) as (u & Hua & ->).
      apply (Hno u Hua). by destruct (alphabet_case u Hua) as (_ & _ & _ & ? & _).
    + intros ->. apply (Hno 73%N); [|by destruct dotless_i_case].
      apply (bool_decide_unpack _). vm_compute. exact I.
    + intros ->. apply (Hno 83%N); [|by destruct long_s_case].
      apply (bool_decide_unpack _). vm_compute. exact I.
Qed.

Lemma decrypt_char_single (km : gmap character character) (c : character) :
  total_bijection km → decrypt_char km c = [decrypt_single km c].
Proof.
  intros Hkm. unfold decrypt_single.
  destruct (decrypt_char_cases km c Hkm)
    as [(d & _ & _ & _ & ->)|[(u & d & _ & _ & _ & _ & -> & _)|(_ & _ & _ & _ & _ & ->)]];
    done.
Qed.

Lemma decrypt_map (ciphertext : text) (km : gmap character character) :
  total_bijection km → decrypt ciphertext km = map (decrypt_single km) ciphertext.
Proof.
  intros Hkm. rewrite decrypt_concat.
  induction ciphertext as [|c t IH]; [done|].
  simpl. by rewrite IH, decrypt_char_single.
Qed.

Lemma decrypt_length (ciphertext : text) (km : gmap character character) :
  total_bijection km → length (decrypt ciphertext km) = length ciphertext.
Proof. intros Hkm. rewrite decrypt_map by done. apply length_map. Qed.

Lemma decrypt_lookup (ciphertext : text) (km : gmap character character) (i : nat) :
  total_bijection km →
  decrypt ciphertext km !! i = decrypt_single km <$> ciphertext !! i.
Proof. intros Hkm. rewrite decrypt_map by done. apply list_lookup_fmap. Qed.

(** One character through a key and back through the inverted key. *)
Lemma decrypt_char_roundtrip (km : gmap character character) (c : character) :
  total_bijection km → c ≠ dotless_i → c ≠ long_s →
  decrypt (decrypt_char km c) (invert_mapping km) = [c].
Proof.
  intros Hkm Hi Hs. pose proof Hkm as (Hdom & Hran & Hinj & Hsur).
  pose proof (λ p c, lookup_invert_mapping km p c Hinj) as Hinv.
  destruct (decrypt_char_cases km c Hkm)
    as [(d & Hc & Hk & Hd & ->)
       |[(u & d & Hu & Hup & Hk & Hd & -> & Hcu)|(Hnone & _ & _ & _ & _ & ->)]];
    rewrite decrypt_singleton; unfold decrypt_char.
  - destruct (alphabet_case d Hd) as (-> & -> & _). simpl.
    by rewrite (proj2 (Hinv d c) Hk).
  - destruct Hcu as [->|[?|?]]; [|done|done].
    destruct (alphabet_case d Hd) as (_ & _ & _ & -> & -> & _). simpl.
    rewrite (proj2 (Hinv d u) Hk). by destruct (alphabet_case u Hu) as (_ & _ & -> & _).
  - destruct (lookup_str (invert_mapping km) (upper_char c)) as [p|] eqn:Hp; [|done].
    exfalso. unfold lookup_str in *.
    destruct (upper_char c) as [|u [|? ?]]; try done.
    apply Hinv in Hp. assert (is_Some (km !! u)) as [? ?]; [|congruence].
    apply Hdom. eauto.
Qed.

Lemma NoDup_alphabet : NoDup alphabet.
Proof. by apply (bool_decide_unpack _); vm_compute. Qed.

Lemma length_alphabet : length alphabet = 26.
Proof. reflexivity. Qed.

Section MappingOfKey.
Variable key : text.
Hypothesis key_length : length key = 26.
Hypothesis key_nodup : NoDup key.

Local Abbreviation put := (put_key key).

Lemma put_in_range (m : gmap character character) (i : nat) :
  i < 26 → ∃ k a, key !! i = Some k ∧ alphabet !! i = Some a ∧ put m i = <[k := a]> m.
Proof.
  intros Hi.
  destruct (lookup_lt_is_Some_2 key i) as [k Hk]; [lia|].
  destruct (lookup_lt_is_Some_2 alphabet i) as [a Ha]; [by rewrite length_alphabet|].
  exists k, a. unfold put_key. by rewrite Hk, Ha.
Qed.

Lemma lookup_fold_put (idx : list nat) (m : gmap character character) (c a : character) :
  NoDup idx → (∀ i, i ∈ idx → i < 26) →
  fold_left put idx m !! c = Some a ↔
    (∃ i, i ∈ idx ∧ key !! i = Some c ∧ alphabet !! i = Some a)
    ∨ ((∀ i, i ∈ idx → key !! i ≠ Some c) ∧ m !! c = Some a).
Proof.
  revert m. induction idx as [|i idx IH]; intros m Hnd Hlt; simpl.
  - split.
    + intros H. right. split; [|done]. intros i Hi. by apply elem_of_nil in Hi.
    + intros [(i & Hi & _)|[_ H]]; [by apply elem_of_nil in Hi|done].
  - apply NoDup_cons in Hnd as [Hni Hnd].
    destruct (put_in_range m i) as (k & ai & Hk & Hai & ->);
      [apply Hlt; left|].
    rewrite IH; [|done|intros j Hj; apply Hlt; by right].
    destruct (decide (k = c)) as [->|Hne].
    + rewrite lookup_insert_eq. split.
      * intros [(j & Hj & Hkj & Haj)|[Hall Heq]].
        -- left. exists j. split; [by right|done].
        -- left. exists i. split; [left|]. split; congruence.
      * intros [(j & Hj & Hkj & Haj)|[Hall _]].
        -- apply elem_of_cons in Hj as [->|Hj].
           ++ right. split; [|congruence].
              intros j Hj Hkj'. apply Hni.
              by rewrite (NoDup_lookup key i j c key_nodup Hk Hkj').
           ++ left. eauto.
        -- exfalso. apply (Hall i); [left|done].
    + rewrite lookup_insert_ne by done. split.
      * intros [(j & Hj & Hkj & Haj)|[Hall Heq]].
        -- left. exists j. split; [by right|done].
        -- right. split; [|done]. intros j Hj.
           apply elem_of_cons in Hj as [->|Hj]; [congruence|by apply Hall].
      * intros [(j & Hj & Hkj & Haj)|[Hall Heq]].
        -- apply elem_of_cons in Hj as [->|Hj]; [congruence|]. left. eauto.
        -- right. split; [|done]. intros j Hj. apply Hall. by right.
Qed.

(** The mapping sends the character at position [i] of the key to the
    [i]-th letter of the alphabet, and is defined nowhere else. *)
Lemma lookup_mapping_of_key (c a : character) :
  mapping_of_key key !! c = Some a ↔
    ∃ i, key !! i = Some c ∧ alphabet !! i = Some a.
Proof.
  unfold mapping_of_key.
  rewrite lookup_fold_put; [|apply NoDup_seq|intros i Hi; apply elem_of_seq in Hi; lia].
  split.
  - intros [(i & _ & H)|[_ H]]; [eauto|by rewrite lookup_empty in H].
  - intros (i & Hk & Ha). left. exists i. split; [|done].
    apply elem_of_seq. apply lookup_lt_Some in Hk. lia.
Qed.
End MappingOfKey.

(** A key string that is a permutation of the alphabet induces a total
    bijection of the alphabet. *)
Lemma mapping_of_key_bijection (key : text) :
  key ≡ₚ alphabet → total_bijection (mapping_of_key key).
Proof.
  intros Hp.
  assert (Hlen : length key = 26) by (by rewrite Hp).
  assert (Hnd : NoDup key) by (rewrite Hp; apply NoDup_alphabet).
  pose proof (lookup_mapping_of_key key Hlen Hnd) as Hl.
  repeat split.
  - intros Hc. rewrite <- Hp in Hc.
    apply list_elem_of_lookup in Hc as [i Hi].
    destruct (lookup_lt_is_Some_2 alphabet i) as [a Ha].
    { apply lookup_lt_Some in Hi. rewrite length_alphabet. lia. }
    exists a. apply Hl. eauto.
  - intros [a Ha]. apply Hl in Ha as (i & Hi & _).
    rewrite <- Hp. apply list_elem_of_lookup. eauto.
  - intros c p H. apply Hl in H as (i & _ & Hi).
    apply list_elem_of_lookup. eauto.
  - intros c1 c2 p H1 H2.
    apply Hl in H1 as (i1 & Hk1 & Ha1). apply Hl in H2 as (i2 & Hk2 & Ha2).
    assert (i1 = i2) by exact (NoDup_lookup alphabet i1 i2 p NoDup_alphabet Ha1 Ha2).
    congruence.
  - intros p H. apply list_elem_of_lookup in H as [i Hi].
    destruct (lookup_lt_is_Some_2 key i) as [c Hc].
    { apply lookup_lt_Some in Hi. rewrite length_alphabet in Hi. lia. }
    exists c. apply Hl. eauto.
Qed.

(** ** Round trip through a key and its inverse *)

(** C5, as the code has it.  For every key mapping that is a total bijection
    of the alphabet and every ciphertext without the dotless i and without
    the long s, applying the key with [decrypt] and then applying the
    inverted key gives the original text back, character for character.
    The inverted key is a total bijection too.  One application of such a
    key to any text keeps the length; it replaces an upper-case ASCII letter
    by the letter that the key assigns to it and a lower-case ASCII letter by
    the lower-case form of the letter that the key assigns to its upper-case
    form, and it leaves every other character, the dotless i and the long s
    aside, as it is. *)
Theorem decrypt_invert_roundtrip (key_mapping : gmap character character) (ciphertext : text) :
  total_bijection key_mapping →
  dotless_i ∉ ciphertext → long_s ∉ ciphertext →
  decrypt (decrypt ciphertext key_mapping) (invert_mapping key_mapping) = ciphertext
  ∧ total_bijection (invert_mapping key_mapping)
  ∧ ∀ (km : gmap character character) (t : text), total_bijection km →
      length (decrypt t km) = length t
      ∧ ∀ i c, t !! i = Some c →
          ∃ d, decrypt t km !! i = Some d
               ∧ (c ∈ alphabet → d ∈ alphabet ∧ km !! c = Some d)
               ∧ (c ∈ ascii_lowercase →
                  d ∈ ascii_lowercase
                  ∧ ∃ u p, upper_char c = [u] ∧ km !! u = Some p ∧ lower_char p = [d])
               ∧ (c ∉ alphabet → c ∉ ascii_lowercase →
                  c ≠ dotless_i → c ≠ long_s → d = c).
Proof.
  intros Hkey Hi Hs. split; [|split].
  - rewrite decrypt_twice.
    induction ciphertext as [|c l IH]; [done|].
    apply not_elem_of_cons in Hi as [Hci Hi]. apply not_elem_of_cons in Hs as [Hcs Hs].
    simpl. rewrite decrypt_char_roundtrip by done. by rewrite IH.
  - by apply invert_mapping_bijection.
  - intros km t Hkm. split; [by apply decrypt_length|].
    intros i c Hc. exists (decrypt_single km c).
    split; [by rewrite decrypt_lookup, Hc|].
    pose proof (decrypt_char_single km c Hkm) as Hsingle.
    destruct (decrypt_char_cases km c Hkm)
      as [(d & Hca & Hk & Hd & Heq)
         |[(u & d & Hu & Hup & Hk & Hd & Heq & Hcu)|(_ & Hna & Hnl & Hni & Hns & Heq)]];
      rewrite Heq in Hsingle; injection Hsingle as <-.
    + split; [done|]. split; [|done].
      intros Hl. by destruct (alphabet_case c Hca) as (_ & _ & _ & _ & _ & _ & _ & _ & ?).
    + destruct (alphabet_case d Hd) as (_ & _ & Hld & _ & _ & _ & Hdl & Hdn & _).
      split; [|split].
      * intros Hca. exfalso. destruct Hcu as [->|[->| ->]].
        -- by destruct (alphabet_case u Hu) as (_ & _ & _ & _ & _ & _ & _ & ? & _).
        -- by destruct dotless_i_case as (_ & _ & ? & _).
        -- by destruct long_s_case as (_ & _ & ? & _).
      * intros _. split; [done|]. by exists u, d.
      * intros Hna Hnl Hni Hns. exfalso. destruct Hcu as [->|[?|?]]; [|done|done].
        by destruct (alphabet_case u Hu) as (_ & _ & _ & _ & _ & _ & ? & _).
    + done.
Qed.

Lemma decrypt_invert_roundtrip_witness :
  decrypt (decrypt (txt "Hello, World!") (mapping_of_key (txt "QWERTYUIOPASDFGHJKLZXCVBNM")))
          (invert_mapping (mapping_of_key (txt "QWERTYUIOPASDFGHJKLZXCVBNM")))
  = txt "Hello, World!".
Proof.
  apply (decrypt_invert_roundtrip (mapping_of_key (txt "QWERTYUIOPASDFGHJKLZXCVBNM"))
                                  (txt "Hello, World!")).
  - apply mapping_of_key_bijection.
    apply (bool_decide_unpack _). vm_compute. exact I.
  - apply (bool_decide_unpack _). vm_compute. exact I.
  - apply (bool_decide_unpack _). vm_compute. exact I.
Defined.

(** C5, as the design document has it, fails: the dotless i is not an
    upper-case character, its upper-case form is the letter I, and so a key
    replaces it by a lower-case letter, which the inverted key turns into
    the letter i. *)
Lemma decrypt_dotless_i_not_restored :
  total_bijection (mapping_of_key (txt "QWERTYUIOPASDFGHJKLZXCVBNM"))
  ∧ decrypt [dotless_i] (mapping_of_key (txt "QWERTYUIOPASDFGHJKLZXCVBNM")) = txt "h"
  ∧ decrypt (decrypt [dotless_i] (mapping_of_key (txt "QWERTYUIOPASDFGHJKLZXCVBNM")))
            (invert_mapping (mapping_of_key (txt "QWERTYUIOPASDFGHJKLZXCVBNM")))
    = txt "i"
  ∧ txt "i" ≠ [dotless_i].
Proof.
  split; [|split; [|split]].
  - apply mapping_of_key_bijection.
    apply (bool_decide_unpack _). vm_compute. exact I.
  - vm_compute. reflexivity.
  - vm_compute. reflexivity.
  - intros H. vm_compute in H. discriminate H.
Qed.

(** ** The scorer *)

Lemma fold_left_Rplus {A} (f : A → R) (l : list A) (acc : R) :
  fold_left (λ score x, (score + f x)%R) l acc = (acc + Rsum (map f l))%R.
Proof.
  revert acc. induction l as [|x l IH]; intros acc; simpl.
  - unfold Rsum. simpl. lra.
  - rewrite IH. unfold Rsum. simpl. lra.
Qed.

(** The slices [t[i:i+4]] for [i] in [range(len(t) - 3)] are the windows. *)
Lemma windows4_slices (t : text) :
  windows4 t = map (λ i, take 4 (drop i t)) (seq 0 (length t - 3)).
Proof.
  induction t as [|a rest IH]; [done|].
  destruct rest as [|b [|c [|d rest']]]; try done.
  change (windows4 (a :: b :: c :: d :: rest'))
    with ([a; b; c; d] :: windows4 (b :: c :: d :: rest')).
  rewrite IH.
  replace (length (a :: b :: c :: d :: rest') - 3)
    with (S (length (b :: c :: d :: rest') - 3)) by (simpl; lia).
  rewrite <- cons_seq, <- fmap_S_seq. simpl map at 2.
  f_equal. rewrite <- list_fmap_compose. done.
Qed.

Lemma fold_left_pointwise {A B} (f g : A → B → A) (l : list B) (acc : A) :
  (∀ a b, f a b = g a b) → fold_left f l acc = fold_left g l acc.
Proof.
  intros Hfg. revert acc. induction l as [|b l IH]; intros acc; simpl; [done|].
  by rewrite Hfg, IH.
Qed.

Lemma score_sum_windows (self : QuadgramScorer) (t : text) :
  score self t = Rsum (map (quad_value self) (windows4 (normalize t))).
Proof.
  unfold score. rewrite windows4_slices, map_map.
  transitivity (0 + Rsum (map (λ i, quad_value self (take 4 (drop i (normalize t))))
                              (seq 0 (length (normalize t) - 3))))%R; [|lra].
  rewrite <- fold_left_Rplus.
  apply fold_left_pointwise. intros acc i. unfold quad_value.
  by destruct (log_prob self !! take 4 (drop i (normalize t))).
Qed.

(** C3, as the code has it.  For every text and every scorer, [score] is the
    sum, over every overlapping window of four consecutive characters of
    the text after upper-casing it and removing its space characters (and
    nothing else), of the tabulated log-probability of the window when it
    is in the table and of the floor otherwise. *)
Theorem score_is_sum_over_windows (self : QuadgramScorer) (t : text) :
  score self t = Rsum (map (quad_value self) (windows4 (normalize t))).
Proof. apply score_sum_windows. Qed.

Lemma ln_10_pos : (0 < ln 10)%R.
Proof. rewrite <- ln_1. apply ln_increasing; lra. Qed.

Lemma log10_increasing (x y : R) : (0 < x)%R → (x < y)%R → (log10 x < log10 y)%R.
Proof.
  intros Hx Hxy. unfold log10.
  apply Rmult_lt_compat_r; [apply Rinv_0_lt_compat, ln_10_pos|].
  by apply ln_increasing.
Qed.

Lemma log10_neg (x : R) : (0 < x)%R → (x < 1)%R → (log10 x < 0)%R.
Proof.
  intros Hx Hx1. replace 0%R with (log10 1).
  - by apply log10_increasing.
  - unfold log10. rewrite ln_1. lra.
Qed.

(** ** Dictionaries in insertion order *)

Lemma dict_get_set_eq {V} (d : list (text * V)) (key : text) (value : V) :
  dict_get (dict_set key value d) key = Some value.
Proof.
  induction d as [|[k v] d IH]; simpl.
  - by rewrite decide_True.
  - destruct (decide (k = key)) as [->|Hne]; simpl.
    + by rewrite decide_True.
    + by rewrite decide_False.
Qed.

Lemma dict_get_set_ne {V} (d : list (text * V)) (key key' : text) (value : V) :
  key ≠ key' → dict_get (dict_set key value d) key' = dict_get d key'.
Proof.
  intros Hne. induction d as [|[k v] d IH]; simpl.
  - by rewrite decide_False.
  - destruct (decide (k = key)) as [->|Hk]; simpl.
    + by rewrite !decide_False.
    + destruct (decide (k = key')); [done|]. apply IH.
Qed.

Lemma dict_get_elem {V} (d : list (text * V)) (key : text) (value : V) :
  dict_get d key = Some value → (key, value) ∈ d.
Proof.
  induction d as [|[k v] d IH]; simpl; [done|].
  destruct (decide (k = key)) as [->|Hne].
  - intros [= ->]. left.
  - intros H. right. by apply IH.
Qed.

Lemma dict_get_None {V} (d : list (text * V)) (key : text) :
  key ∉ d.*1 → dict_get d key = None.
Proof.
  induction d as [|[k v] d IH]; simpl; [done|].
  intros Hn. apply not_elem_of_cons in Hn as [Hne Hn].
  rewrite decide_False by done. by apply IH.
Qed.

(** The table that the loop of [__init__] fills when it does not fail. *)
Lemma lookup_log_probs_from (q : list (text * Z)) (total : Z) (lp : gmap text R) (quad : text) :
  NoDup q.*1 →
  fold_left (λ log_prob item, <[item.1 := log10 (IZR item.2 / IZR total)]> log_prob) q lp
    !! quad
  = match dict_get q quad with
    | Some count => Some (log10 (IZR count / IZR total))
    | None => lp !! quad
    end.
Proof.
  revert lp. induction q as [|[k v] q IH]; intros lp Hnd; [done|].
  apply NoDup_cons in Hnd as [Hk Hnd]. simpl. rewrite IH by done.
  destruct (decide (k = quad)) as [->|Hne].
  - rewrite (dict_get_None q quad Hk). apply lookup_insert_eq.
  - destruct (dict_get q quad); [done|]. by apply lookup_insert_ne.
Qed.

Lemma lookup_log_probs (q : list (text * Z)) (total : Z) (quad : text) :
  NoDup q.*1 →
  log_probs q total !! quad = (λ count, log10 (IZR count / IZR total)) <$> dict_get q quad.
Proof.
  intros Hnd. unfold log_probs. rewrite lookup_log_probs_from by done.
  by destruct (dict_get q quad).
Qed.

Lemma lookup_log_probs_elem (q : list (text * Z)) (total : Z) (lp : gmap text R)
    (quad : text) (l : R) :
  fold_left (λ log_prob item, <[item.1 := log10 (IZR item.2 / IZR total)]> log_prob) q lp
    !! quad = Some l →
  (∃ count, (quad, count) ∈ q ∧ l = log10 (IZR count / IZR total)) ∨ lp !! quad = Some l.
Proof.
  revert lp. induction q as [|[k v] q IH]; intros lp H; [by right|].
  simpl in H. apply IH in H as [(count & Hin & ->)|H].
  - left. exists count. split; [by right|done].
  - destruct (decide (k = quad)) as [->|Hne].
    + rewrite lookup_insert_eq in H. injection H as <-.
      left. exists v. split; [left|done].
    + rewrite lookup_insert_ne in H by done. by right.
Qed.

Lemma NoDup_default_quadgrams : NoDup default_quadgrams.*1.
Proof. apply (bool_decide_unpack _). vm_compute. exact I. Qed.

Lemma default_quad_value (quad : text) :
  quad_value default_scorer quad
  = match dict_get default_quadgrams quad with
    | Some count => log10 (IZR count / IZR 57)
    | None => log10 (1 / 100 / IZR 57)
    end.
Proof.
  unfold quad_value. cbn [log_prob floor default_scorer].
  rewrite (lookup_log_probs _ _ _ NoDup_default_quadgrams).
  by destruct (dict_get default_quadgrams quad).
Qed.

Lemma default_floor_neg : (log10 (1 / 100 / IZR 57) < 0)%R.
Proof. apply log10_neg; lra. Qed.

(** C3, as the design document has it, fails: the comma of "TH,EN" is not
    stripped, so the score is twice the floor, and not the tabulated value
    of "THEN". *)
Lemma score_strips_spaces_only :
  score default_scorer (txt "TH,EN")
  ≠ Rsum (map (quad_value default_scorer) (windows4 (strip_non_alphabetic (txt "TH,EN")))).
Proof.
  rewrite score_sum_windows.
  replace (windows4 (normalize (txt "TH,EN"))) with [txt "TH,E"; txt "H,EN"]
    by (vm_compute; reflexivity).
  replace (windows4 (strip_non_alphabetic (txt "TH,EN"))) with [txt "THEN"]
    by (vm_compute; reflexivity).
  unfold Rsum. simpl. rewrite !default_quad_value.
  replace (dict_get default_quadgrams (txt "TH,E")) with (@None Z) by (vm_compute; reflexivity).
  replace (dict_get default_quadgrams (txt "H,EN")) with (@None Z) by (vm_compute; reflexivity).
  replace (dict_get default_quadgrams (txt "THEN")) with (Some 10%Z) by (vm_compute; reflexivity).
  pose proof default_floor_neg as Hneg.
  assert (log10 (1 / 100 / IZR 57) < log10 (IZR 10 / IZR 57))%R
    by (apply log10_increasing; lra).
  lra.
Qed.

(** ** What [normalize] keeps *)

Lemma normalize_concat (t : text) :
  normalize t = concat (map (λ c, filter (λ d, d ≠ ord " ") (upper_char c)) t).
Proof.
  unfold normalize, upper. induction t as [|c t IH]; [done|].
  cbn [map concat]. by rewrite filter_app, IH.
Qed.

Lemma alphabet_not_space (u : character) : u ∈ alphabet → u ≠ ord " ".
Proof.
  revert u. apply Forall_forall. apply (bool_decide_unpack _). vm_compute. exact I.
Qed.

Lemma filter_letter (u : character) :
  u ∈ alphabet → filter (λ d, d ≠ ord " ") [u] = [u].
Proof.
  intros Hu. rewrite filter_cons, decide_True by (by apply alphabet_not_space). done.
Qed.

(** A bijective key does not change what a character contributes to the
    normal form, up to the letters. *)
Lemma normalize_decrypt_single (km : gmap character character) (c : character) :
  total_bijection km →
  length (filter (λ d, d ≠ ord " ") (upper_char (decrypt_single km c)))
  = length (filter (λ d, d ≠ ord " ") (upper_char c)).
Proof.
  intros Hkm. pose proof (decrypt_char_single km c Hkm) as Hsingle.
  destruct (decrypt_char_cases km c Hkm)
    as [(d & Hca & Hk & Hd & Heq)
       |[(u & d & Hu & Hup & Hk & Hd & Heq & Hcu)|(_ & _ & _ & _ & _ & Heq)]];
    rewrite Heq in Hsingle; injection Hsingle as <-; [| |done].
  - destruct (alphabet_case c Hca) as (-> & _). destruct (alphabet_case d Hd) as (-> & _).
    by rewrite !filter_letter.
  - rewrite Hup. destruct (alphabet_case d Hd) as (_ & _ & _ & -> & _).
    by rewrite !filter_letter.
Qed.

Lemma length_normalize_decrypt (km : gmap character character) (t : text) :
  total_bijection km → length (normalize (decrypt t km)) = length (normalize t).
Proof.
  intros Hkm. rewrite decrypt_map by done. rewrite !normalize_concat.
  induction t as [|c t IH]; [done|].
  cbn [map concat]. rewrite !length_app, IH. by rewrite normalize_decrypt_single.
Qed.

Lemma score_short (self : QuadgramScorer) (t : text) :
  length (normalize t) ≤ 3 → score self t = 0%R.
Proof.
  intros H. unfold score.
  by replace (length (normalize t) - 3) with 0 by lia.
Qed.

(** C4, as the code has it.  For every text whose upper-case form has three
    or fewer characters other than spaces, [score] returns exactly 0 (it is a
    total function: nothing is raised), and so it does for every candidate
    decryption of the text under a bijective key. *)
Theorem score_short_text (self : QuadgramScorer) (t : text)
    (km : gmap character character) :
  length (normalize t) ≤ 3 →
  total_bijection km →
  score self t = 0%R ∧ score self (decrypt t km) = 0%R.
Proof.
  intros Hlen Hkm. split; apply score_short; [done|].
  by rewrite length_normalize_decrypt.
Qed.

Lemma score_short_text_witness :
  score default_scorer (txt "a b c") = 0%R
  ∧ score default_scorer
      (decrypt (txt "a b c") (mapping_of_key (txt "QWERTYUIOPASDFGHJKLZXCVBNM"))) = 0%R.
Proof.
  apply (score_short_text default_scorer (txt "a b c")
           (mapping_of_key (txt "QWERTYUIOPASDFGHJKLZXCVBNM"))).
  - vm_compute. lia.
  - apply mapping_of_key_bijection.
    apply (bool_decide_unpack _). vm_compute. exact I.
Defined.

(** C4, as the design document has it, fails: "12345" has no alphabetic
    character at all, its only candidate decryption is itself, and its
    score is twice the floor. *)
Lemma score_short_alphabetic_nonzero :
  length (filter (λ c, isalpha c = true) (txt "12345")) ≤ 3
  ∧ decrypt (txt "12345") (mapping_of_key alphabet) = txt "12345"
  ∧ score default_scorer (decrypt (txt "12345") (mapping_of_key alphabet)) ≠ 0%R.
Proof.
  split; [vm_compute; lia|]. split; [by vm_compute|].
  replace (decrypt (txt "12345") (mapping_of_key alphabet)) with (txt "12345")
    by (vm_compute; reflexivity).
  rewrite score_sum_windows.
  replace (windows4 (normalize (txt "12345"))) with [txt "1234"; txt "2345"]
    by (vm_compute; reflexivity).
  unfold Rsum. simpl. rewrite !default_quad_value.
  replace (dict_get default_quadgrams (txt "1234")) with (@None Z) by (vm_compute; reflexivity).
  replace (dict_get default_quadgrams (txt "2345")) with (@None Z) by (vm_compute; reflexivity).
  pose proof default_floor_neg. lra.
Qed.

(** The number of characters of the text itself does not decide: the three
    characters of "ßßß" become "SSSSSS", which has three windows. *)
Example score_sharp_s :
  normalize [223; 223; 223]%N = txt "SSSSSS"
  ∧ score default_scorer [223; 223; 223]%N ≠ 0%R.
Proof.
  split; [vm_compute; reflexivity|].
  rewrite score_sum_windows.
  replace (windows4 (normalize [223; 223; 223]%N))
    with [txt "SSSS"; txt "SSSS"; txt "SSSS"] by (vm_compute; reflexivity).
  unfold Rsum. simpl. rewrite !default_quad_value.
  replace (dict_get default_quadgrams (txt "SSSS")) with (@None Z) by (vm_compute; reflexivity).
  pose proof default_floor_neg. lra.
Qed.

(** ** Construction of the scorer *)

Lemma sum_values_from (q : list (text * Z)) (acc : Z) :
  fold_left (λ acc item, (acc + item.2)%Z) q acc = (acc + sum_values q)%Z.
Proof.
  unfold sum_values. revert acc. induction q as [|item q IH]; intros acc; simpl; [lia|].
  rewrite IH, (IH (0 + item.2)%Z). lia.
Qed.

Lemma sum_values_cons (item : text * Z) (q : list (text * Z)) :
  sum_values (item :: q) = (item.2 + sum_values q)%Z.
Proof. unfold sum_values at 1. simpl. rewrite sum_values_from. lia. Qed.

Lemma item_log_prob_Ok (count total : Z) (l : R) :
  item_log_prob count total = Ok l ↔
  accepted total count ∧ l = log10 (IZR count / IZR total).
Proof.
  unfold item_log_prob, div_total, float_of_int, math_log10, accepted.
  destruct (decide (Z.abs count < float_limit)%Z); simpl; [|split; [done|tauto]].
  destruct (decide (Z.abs total < float_limit)%Z); simpl; [|split; [done|tauto]].
  destruct (decide (total = 0%Z)); simpl; [split; [done|tauto]|].
  destruct (Rlt_dec 0 (IZR count / IZR total)); simpl.
  - split; [by intros [= <-]|by intros [_ ->]].
  - split; [done|tauto].
Qed.

Lemma item_log_prob_Raise (count total : Z) (e : exn) :
  item_log_prob count total = Raise e →
  e = OverflowError ∧ (float_limit <= Z.abs count ∨ float_limit <= Z.abs total)%Z
  ∨ e = ZeroDivisionError ∧ total = 0%Z
  ∨ e = ValueError ∧ (Z.abs total < float_limit)%Z ∧ total ≠ 0%Z
    ∧ ¬ (0 < IZR count / IZR total)%R.
Proof.
  unfold item_log_prob, div_total, float_of_int, math_log10.
  destruct (decide (Z.abs count < float_limit)%Z); simpl;
    [|intros [= <-]; left; split; [done|lia]].
  destruct (decide (Z.abs total < float_limit)%Z); simpl;
    [|intros [= <-]; left; split; [done|lia]].
  destruct (decide (total = 0%Z)); simpl; [intros [= <-]; right; left; done|].
  destruct (Rlt_dec 0 (IZR count / IZR total)); simpl; [done|].
  intros [= <-]. right; right. done.
Qed.

(** The floor is computed like the log-probability of an item, from 0.01
    in the place of the count. *)
Lemma floor_Ok (total : Z) (l : R) :
  (div_total (1 / 100) total ≫= math_log10) = Ok l ↔
  (0 < total < float_limit)%Z ∧ l = log10 (1 / 100 / IZR total).
Proof.
  unfold div_total, float_of_int, math_log10.
  destruct (decide (Z.abs total < float_limit)%Z); simpl; [|split; [done|lia]].
  destruct (decide (total = 0%Z)); simpl; [split; [done|lia]|].
  destruct (Rlt_dec 0 (1 / 100 / IZR total)) as [Hpos|Hneg]; simpl.
  - split; [|by intros [_ ->]]. intros [= <-]. split; [|done].
    split; [|lia]. destruct (Z_lt_le_dec 0 total) as [|Hle]; [done|]. exfalso.
    assert (IZR total < 0)%R by (apply IZR_lt; lia).
    assert (/ IZR total < 0)%R by (by apply Rinv_lt_0_compat).
    unfold Rdiv in Hpos. nra.
  - split; [done|]. intros [[Hpos _] _]. exfalso. apply Hneg.
    apply IZR_lt in Hpos.
    assert (0 < / IZR total)%R by (by apply Rinv_0_lt_compat).
    unfold Rdiv. nra.
Qed.

Lemma floor_Raise (total : Z) (e : exn) :
  (div_total (1 / 100) total ≫= math_log10) = Raise e →
  e = OverflowError ∧ (float_limit <= Z.abs total)%Z
  ∨ e = ZeroDivisionError ∧ total = 0%Z
  ∨ e = ValueError ∧ (Z.abs total < float_limit)%Z ∧ (total < 0)%Z.
Proof.
  unfold div_total, float_of_int, math_log10.
  destruct (decide (Z.abs total < float_limit)%Z); simpl;
    [|intros [= <-]; left; split; [done|lia]].
  destruct (decide (total = 0%Z)); simpl; [intros [= <-]; right; left; done|].
  destruct (Rlt_dec 0 (1 / 100 / IZR total)) as [Hpos|Hneg]; simpl; [done|].
  intros [= <-]. right; right. split; [done|]. split; [done|].
  destruct (Z_lt_le_dec total 0) as [|Hle]; [done|]. exfalso. apply Hneg.
  assert (0 < IZR total)%R by (apply IZR_lt; lia).
  assert (0 < / IZR total)%R by (by apply Rinv_0_lt_compat).
  unfold Rdiv. nra.
Qed.

Section BuildLogProb.
Variable total : Z.

Local Abbreviation step :=
  (λ (acc : result (gmap text R)) (item : text * Z),
     log_prob ← acc;
     l ← item_log_prob item.2 total;
     Ok (<[item.1 := l]> log_prob)).

Local Abbreviation fill :=
  (λ (log_prob : gmap text R) (item : text * Z),
     <[item.1 := log10 (IZR item.2 / IZR total)]> log_prob).

Lemma build_raised (q : list (text * Z)) (e : exn) :
  fold_left step q (Raise e) = Raise e.
Proof. induction q as [|item q IH]; [done|]. simpl. apply IH. Qed.

Lemma build_ok (q : list (text * Z)) (lp : gmap text R) :
  Forall (λ item, accepted total item.2) q →
  fold_left step q (Ok lp) = Ok (fold_left fill q lp).
Proof.
  intros Hq. revert lp. induction Hq as [|item q Hitem Hq IH]; intros lp; [done|].
  cbn [fold_left]. rewrite <- IH. f_equal. cbn [mbind result_bind].
  by rewrite (proj2 (item_log_prob_Ok item.2 total _) (conj Hitem eq_refl)).
Qed.

Lemma build_inv (q : list (text * Z)) (lp lp' : gmap text R) :
  fold_left step q (Ok lp) = Ok lp' → Forall (λ item, accepted total item.2) q.
Proof.
  revert lp. induction q as [|item q IH]; intros lp H; [constructor|].
  cbn [fold_left mbind result_bind] in H.
  destruct (item_log_prob item.2 total) as [l|e] eqn:Hl;
    cbn [mbind result_bind] in H.
  - constructor; [by apply item_log_prob_Ok in Hl as [? _]|]. by apply (IH _ H).
  - by rewrite build_raised in H.
Qed.

Lemma build_fails (q : list (text * Z)) (lp : gmap text R) (e : exn) :
  fold_left step q (Ok lp) = Raise e →
  ∃ item, item ∈ q ∧ item_log_prob item.2 total = Raise e.
Proof.
  revert lp. induction q as [|item q IH]; intros lp H; [done|].
  cbn [fold_left mbind result_bind] in H.
  destruct (item_log_prob item.2 total) as [l|e'] eqn:Hl;
    cbn [mbind result_bind] in H.
  - destruct (IH _ H) as (item' & Hin & Hr). exists item'. split; [by right|done].
  - rewrite build_raised in H. injection H as ->. exists item. split; [left|done].
Qed.

End BuildLogProb.

Lemma build_log_prob_spec (q : list (text * Z)) (total : Z) :
  (Forall (λ item, accepted total item.2) q →
   build_log_prob q total = Ok (log_probs q total))
  ∧ (∀ lp, build_log_prob q total = Ok lp → Forall (λ item, accepted total item.2) q).
Proof.
  split.
  - apply build_ok.
  - intros lp. apply build_inv.
Qed.

Lemma ratio_pos (count total : Z) :
  (0 < total)%Z → (0 < IZR count / IZR total)%R ↔ (0 < count)%Z.
Proof.
  intros Ht. apply IZR_lt in Ht.
  assert (0 < / IZR total)%R by (by apply Rinv_0_lt_compat).
  unfold Rdiv. split.
  - intros H0. apply lt_IZR. nra.
  - intros H0. apply IZR_lt in H0. nra.
Qed.

Lemma QuadgramScorer_init_inv (file : option (list text)) (s : QuadgramScorer) :
  QuadgramScorer_init file = Ok s →
  match file with Some lines => load_lines [] lines | None => Ok default_quadgrams end
  = Ok (quadgrams s)
  ∧ (0 < total s < float_limit)%Z
  ∧ total s = sum_values (quadgrams s)
  ∧ log_prob s = log_probs (quadgrams s) (total s)
  ∧ Forall (λ item, (0 < item.2)%Z) (quadgrams s)
  ∧ floor s = log10 (1 / 100 / IZR (total s)).
Proof.
  unfold QuadgramScorer_init. intros H.
  destruct (match file with Some lines => load_lines [] lines | None => Ok default_quadgrams end)
    as [q|e]; [|done].
  cbn [mbind result_bind] in H.
  destruct (build_log_prob q (sum_values q)) as [lp|e] eqn:Hlp; [|done].
  destruct (div_total (1 / 100) (sum_values q) ≫= math_log10) as [fl|e] eqn:Hfl.
  - pose proof Hfl as Hfl'. apply floor_Ok in Hfl' as [Htot ->].
    cbn [mbind result_bind] in Hfl.
    destruct (div_total (1 / 100) (sum_values q)) as [p|e]; [|done].
    cbn [mbind result_bind] in H, Hfl. rewrite Hfl in H.
    injection H as <-. cbn [quadgrams total log_prob floor].
    pose proof (proj2 (build_log_prob_spec q (sum_values q)) lp Hlp) as Hall.
    pose proof (proj1 (build_log_prob_spec q (sum_values q)) Hall) as Heq.
    rewrite Hlp in Heq. injection Heq as ->.
    repeat split; try done; try lia.
    eapply Forall_impl; [exact Hall|]. intros item (_ & _ & _ & Hpos). simpl.
    apply (ratio_pos item.2 (sum_values q)); [lia|done].
  - exfalso. cbn [mbind result_bind] in Hfl.
    destruct (div_total (1 / 100) (sum_values q)) as [p|e']; [|done].
    cbn [mbind result_bind] in H, Hfl. by rewrite Hfl in H.
Qed.

Lemma sum_values_ge (q : list (text * Z)) :
  Forall (λ item, (0 < item.2)%Z) q →
  (0 <= sum_values q)%Z ∧ ∀ item, item ∈ q → (item.2 <= sum_values q)%Z.
Proof.
  induction 1 as [|item q Hitem Hq [IH0 IH]].
  - split; [done|]. intros item Hin. by apply elem_of_nil in Hin.
  - rewrite sum_values_cons. split; [lia|].
    intros item' [->|Hin]%elem_of_cons; [lia|]. specialize (IH item' Hin). lia.
Qed.

(** C6.  After a construction of the scorer that succeeds, from a table file
    or from the fallback table, the floor is [log10(0.01 / total)], and it is
    strictly below every tabulated log-probability. *)
Theorem floor_below_log_prob (file : option (list text)) (s : QuadgramScorer) :
  QuadgramScorer_init file = Ok s →
  floor s = log10 (1 / 100 / IZR (total s))
  ∧ ∀ quad l, log_prob s !! quad = Some l → (floor s < l)%R.
Proof.
  intros H. apply QuadgramScorer_init_inv in H as (_ & [Htot _] & _ & Hlp & Hpos & Hfl).
  split; [done|]. intros quad l Hl.
  rewrite Hlp in Hl. unfold log_probs in Hl.
  apply lookup_log_probs_elem in Hl as [(count & Hin & ->)|Hl];
    [|by rewrite lookup_empty in Hl].
  rewrite Hfl. rewrite Forall_forall in Hpos. apply Hpos in Hin. simpl in Hin.
  apply IZR_lt in Htot.
  assert (1 <= IZR count)%R by (apply IZR_le; lia).
  assert (Hinv : (0 < / IZR (total s))%R) by (by apply Rinv_0_lt_compat).
  apply log10_increasing; unfold Rdiv; nra.
Qed.

(** The construction succeeds on every table that is not empty, has
    positive counts only, and whose counts add up to a number that a float
    can hold. *)
Lemma QuadgramScorer_init_positive (file : option (list text)) (q : list (text * Z)) :
  match file with Some lines => load_lines [] lines | None => Ok default_quadgrams end = Ok q →
  Forall (λ item, (0 < item.2)%Z) q → (0 < sum_values q < float_limit)%Z →
  QuadgramScorer_init file
  = Ok {| quadgrams := q; total := sum_values q;
          log_prob := log_probs q (sum_values q);
          floor := log10 (1 / 100 / IZR (sum_values q)) |}.
Proof.
  intros Hq Hall Hsum. unfold QuadgramScorer_init. rewrite Hq.
  cbn [mbind result_bind].
  rewrite (proj1 (build_log_prob_spec q (sum_values q))).
  - pose proof (proj2 (floor_Ok (sum_values q) _) (conj Hsum eq_refl)) as Hfl.
    cbn [mbind result_bind] in Hfl.
    destruct (div_total (1 / 100) (sum_values q)) as [p|e]; [|done].
    cbn [mbind result_bind] in Hfl |- *. by rewrite Hfl.
  - destruct (sum_values_ge q Hall) as [_ Hle].
    apply Forall_forall. intros item Hin.
    rewrite Forall_forall in Hall. pose proof (Hall item Hin) as Hpos.
    specialize (Hle item Hin). simpl in Hpos.
    split; [lia|]. split; [lia|]. split; [lia|].
    apply ratio_pos; lia.
Qed.

(** Without a table file the construction gives [default_scorer]. *)
Lemma QuadgramScorer_init_default : QuadgramScorer_init None = Ok default_scorer.
Proof.
  rewrite (QuadgramScorer_init_positive None default_quadgrams); [done|done| |].
  - apply (bool_decide_unpack _). vm_compute. exact I.
  - vm_compute. split; reflexivity.
Qed.

Lemma floor_below_log_prob_witness :
  QuadgramScorer_init None = Ok default_scorer
  ∧ floor default_scorer = log10 (1 / 100 / IZR (total default_scorer))
  ∧ ∀ quad l, log_prob default_scorer !! quad = Some l → (floor default_scorer < l)%R.
Proof.
  split; [exact QuadgramScorer_init_default|].
  apply (floor_below_log_prob None default_scorer).
  exact QuadgramScorer_init_default.
Defined.

(** ** Keys of the search *)

Lemma swap_Permutation (a b : nat) (l : text) : swap a b l ≡ₚ l.
Proof.
  unfold swap.
  destruct (l !! a) as [x|] eqn:Ha; [|done].
  destruct (l !! b) as [y|] eqn:Hb; [|done].
  pose proof (lookup_lt_Some _ _ _ Ha) as Hla.
  pose proof (lookup_lt_Some _ _ _ Hb) as Hlb.
  apply Permutation_inj. split; [by rewrite !length_insert|].
  exists (λ i, if decide (i = a) then b else if decide (i = b) then a else i).
  split.
  - intros i j. repeat case_decide; intros; subst; congruence.
  - intros i. destruct (decide (i = b)) as [->|Hib].
    + rewrite list_lookup_insert_eq by (by rewrite length_insert).
      destruct (decide (b = a)) as [->|]; congruence.
    + rewrite list_lookup_insert_ne by done.
      destruct (decide (i = a)) as [->|Hia].
      * rewrite list_lookup_insert_eq by done. congruence.
      * by rewrite list_lookup_insert_ne.
Qed.

Lemma swaps_Permutation (swaps : list (nat * nat)) (key : text) :
  fold_left (λ k ab, swap ab.1 ab.2 k) swaps key ≡ₚ key.
Proof.
  revert key. induction swaps as [|[a b] swaps IH]; intros key; simpl; [done|].
  by rewrite IH, swap_Permutation.
Qed.

Lemma rotate_Permutation (n : nat) (l : text) : rotate n l ≡ₚ l.
Proof.
  unfold rotate. rewrite Permutation_app_comm. by rewrite take_drop.
Qed.

#[global] Instance Zgtb_order : ScoreOrder Z.gtb.
Proof. split; intros; lia. Qed.

#[global] Instance Rgt_bool_order : ScoreOrder Rgt_bool.
Proof.
  split; unfold Rgt_bool.
  - intros x y. destruct (Rlt_dec y x), (Rlt_dec x y); try done. lra.
  - intros x y z. destruct (Rlt_dec z x), (Rlt_dec y x), (Rlt_dec z y); auto.
    intros _. lra.
Qed.

(** ** One run of the hill climb *)

Section SearchFacts.
Context {T G : Type}.
Variable gt : T → T → bool.
Variable shuffle : G → text → text * G.
Variable sample : G → nat * nat * G.
Variable scorer : text → T.
Variable ciphertext : text.

Local Abbreviation init := (climb_init shuffle scorer ciphertext).
Local Abbreviation step := (climb_step gt sample scorer ciphertext).
Local Abbreviation trace := (climb_trace gt shuffle sample scorer ciphertext).
Local Abbreviation new_key := (proposed_key sample scorer ciphertext).
Local Abbreviation new_score := (proposed_score sample scorer ciphertext).
Local Abbreviation invariant := (climb_invariant scorer ciphertext).

Lemma trace_S (g : G) (k : nat) : trace g (S k) = step (trace g k).
Proof. reflexivity. Qed.

Lemma new_score_key (s : climb_state) :
  new_score s = scorer (decrypt ciphertext (mapping_of_key (new_key s))).
Proof.
  unfold proposed_score, proposed_key, propose.
  by destruct (sample (gen s)) as [[a b] g'].
Qed.

(** The three outcomes of an iteration. *)
Lemma step_cases (s : climb_state) :
  (gt (new_score s) (current_score s) = true
   ∧ current_key (step s) = new_key s ∧ current_score (step s) = new_score s
   ∧ (gt (new_score s) (best_score s) = true
      ∧ best_key (step s) = new_key s ∧ best_score (step s) = new_score s
      ∨ gt (new_score s) (best_score s) = false
        ∧ best_key (step s) = best_key s ∧ best_score (step s) = best_score s))
  ∨ (gt (new_score s) (current_score s) = false
     ∧ current_key (step s) = current_key s ∧ current_score (step s) = current_score s
     ∧ best_key (step s) = best_key s ∧ best_score (step s) = best_score s).
Proof.
  unfold climb_step, proposed_score, proposed_key.
  destruct (propose sample scorer ciphertext s) as [[k sc] g']. simpl.
  destruct (gt sc (current_score s)) eqn:Hc; [left|right; done].
  destruct (gt sc (best_score s)) eqn:Hb; simpl; split; auto.
  - split; [done|]. split; [done|]. left. done.
  - split; [done|]. split; [done|]. right. done.
Qed.

Lemma init_invariant (g : G) : invariant (init g).
Proof.
  unfold climb_invariant, climb_init.
  by destruct (shuffle g alphabet) as [k g'].
Qed.

Lemma step_invariant (s : climb_state) : invariant s → invariant (step s).
Proof.
  intros (Hk & Hs & Hb). unfold climb_invariant.
  destruct (step_cases s)
    as [(Hgt & -> & -> & [(Hgb & -> & ->)|(Hgb & -> & ->)])|(Hgt & -> & -> & -> & ->)].
  - split; [done|]. split; [done|]. apply new_score_key.
  - rewrite Hs in Hgt. congruence.
  - done.
Qed.

Lemma trace_invariant (g : G) (k : nat) : invariant (trace g k).
Proof.
  induction k as [|k IH]; [apply init_invariant|].
  rewrite trace_S. by apply step_invariant.
Qed.

Context `{!ScoreOrder gt}.

Lemma gt_irrefl (x : T) : gt x x = false.
Proof.
  destruct (gt x x) eqn:H; [|done]. pose proof (gt_asym x x H). congruence.
Qed.

Lemma not_gt_trans (x y z : T) : gt x y = false → gt y z = false → gt x z = false.
Proof.
  intros Hxy Hyz. destruct (gt x z) eqn:H; [|done].
  destruct (gt_cotrans x y z H); congruence.
Qed.

Lemma step_best_score (s : climb_state) :
  gt (best_score s) (best_score (step s)) = false.
Proof.
  destruct (step_cases s)
    as [(_ & _ & _ & [(Hgb & _ & ->)|(_ & _ & ->)])|(_ & _ & _ & _ & ->)].
  - by apply gt_asym.
  - apply gt_irrefl.
  - apply gt_irrefl.
Qed.

Lemma trace_best_score_mono (g : G) (i j : nat) :
  i ≤ j → gt (best_score (trace g i)) (best_score (trace g j)) = false.
Proof.
  induction 1 as [|j Hle IH]; [apply gt_irrefl|].
  rewrite trace_S. eapply not_gt_trans; [exact IH|apply step_best_score].
Qed.

(** No candidate of the run beats the best score of any later state. *)
Lemma new_score_bounded (g : G) (k n : nat) :
  k < n → gt (new_score (trace g k)) (best_score (trace g n)) = false.
Proof.
  intros Hkn.
  apply (not_gt_trans _ (best_score (trace g (S k)))); [|by apply trace_best_score_mono].
  rewrite trace_S.
  destruct (trace_invariant g k) as (_ & Hcur & _).
  destruct (step_cases (trace g k))
    as [(_ & _ & _ & [(_ & _ & ->)|(Hgb & _ & ->)])|(Hgt & _ & _ & _ & ->)].
  - apply gt_irrefl.
  - done.
  - by rewrite <- Hcur.
Qed.

Lemma best_key_origin (g : G) (n : nat) :
  best_key (trace g n) = best_key (trace g 0)
  ∨ ∃ k, k < n ∧ best_key (trace g n) = new_key (trace g k).
Proof.
  induction n as [|n IH]; [by left|].
  rewrite trace_S.
  destruct (step_cases (trace g n))
    as [(_ & _ & _ & [(_ & -> & _)|(_ & -> & _)])|(_ & _ & _ & -> & _)].
  - right. exists n. split; [lia|done].
  - destruct IH as [IH|(k & Hk & IH)]; [by left|]. right. exists k. split; [lia|done].
  - destruct IH as [IH|(k & Hk & IH)]; [by left|]. right. exists k. split; [lia|done].
Qed.

(** C2.  In every run of [hill_climb]: the candidate of an iteration becomes
    the current key exactly when its score is strictly greater than the
    current score, and otherwise the current key stays; the best score
    never decreases from one iteration to a later one; the run makes
    exactly [max_iter] iterations (none when [max_iter] is negative) and
    returns the decryption, mapping and
    score of the best key of the last state; and that score is the score
    of the returned key, which is the initial key or one of the candidates,
    and no candidate of the run has a greater score. *)
Theorem hill_climb_run (max_iter : Z) (g : G) :
  (∀ k, (current_key (trace g (S k)), current_score (trace g (S k)))
        = if gt (new_score (trace g k)) (current_score (trace g k))
          then (new_key (trace g k), new_score (trace g k))
          else (current_key (trace g k), current_score (trace g k)))
  ∧ (∀ i j, i ≤ j → gt (best_score (trace g i)) (best_score (trace g j)) = false)
  ∧ hill_climb gt shuffle sample scorer ciphertext max_iter g
    = (decrypt ciphertext (mapping_of_key (best_key (trace g (Z.to_nat max_iter)))),
       mapping_of_key (best_key (trace g (Z.to_nat max_iter))),
       best_score (trace g (Z.to_nat max_iter)),
       gen (trace g (Z.to_nat max_iter)))
  ∧ best_score (trace g (Z.to_nat max_iter))
    = scorer (decrypt ciphertext (mapping_of_key (best_key (trace g (Z.to_nat max_iter)))))
  ∧ (best_key (trace g (Z.to_nat max_iter)) = best_key (trace g 0)
     ∨ ∃ k, k < Z.to_nat max_iter
            ∧ best_key (trace g (Z.to_nat max_iter)) = new_key (trace g k))
  ∧ (∀ k, k < Z.to_nat max_iter →
        gt (new_score (trace g k)) (best_score (trace g (Z.to_nat max_iter))) = false).
Proof.
  split; [|split; [|split; [|split; [|split]]]].
  - intros k. rewrite trace_S.
    destruct (step_cases (trace g k)) as [(-> & -> & -> & _)|(-> & -> & -> & _)]; done.
  - apply trace_best_score_mono.
  - reflexivity.
  - apply trace_invariant.
  - apply best_key_origin.
  - intros k Hk. by apply new_score_bounded.
Qed.

End SearchFacts.

(** ** The keys of a run *)

Section KeyFacts.
Context {T G : Type}.
Variable gt : T → T → bool.
Variable shuffle : G → text → text * G.
Variable sample : G → nat * nat * G.
Variable scorer : text → T.
Variable ciphertext : text.

(** [random.shuffle] permutes its argument. *)
Hypothesis shuffle_permutes : ∀ g l, (shuffle g l).1 ≡ₚ l.

Local Abbreviation trace := (climb_trace gt shuffle sample scorer ciphertext).
Local Abbreviation new_key := (proposed_key sample scorer ciphertext).

Lemma new_key_Permutation (s : climb_state) : new_key s ≡ₚ current_key s.
Proof.
  unfold proposed_key, propose.
  destruct (sample (gen s)) as [[a b] g']. simpl. apply swap_Permutation.
Qed.

Lemma trace_keys_Permutation (g : G) (k : nat) :
  best_key (trace g k) ≡ₚ alphabet ∧ current_key (trace g k) ≡ₚ alphabet.
Proof.
  induction k as [|k [IHb IHc]].
  - unfold climb_trace, climb_init. simpl.
    pose proof (shuffle_permutes g alphabet) as Hp.
    destruct (shuffle g alphabet) as [key g']. by simpl in *.
  - rewrite trace_S.
    pose proof (new_key_Permutation (trace g k)) as Hn. rewrite IHc in Hn.
    destruct (step_cases gt sample scorer ciphertext (trace g k))
      as [(_ & -> & _ & [(_ & -> & _)|(_ & -> & _)])|(_ & -> & _ & -> & _)]; done.
Qed.

(** C7.  Every key of the search is a permutation of the alphabet and
    induces a total bijection of the 26 letters: the best key and the
    current key of every state of every run (the first state holds the
    shuffled initial key), the candidate of every iteration, the mapping
    that the run returns, and every key that any sequence of two-position
    swaps makes of the initial key. *)
Theorem search_keys_bijective (g : G) :
  (∀ k key,
      key ∈ [best_key (trace g k); current_key (trace g k); new_key (trace g k)] →
      key ≡ₚ alphabet ∧ total_bijection (mapping_of_key key))
  ∧ (∀ max_iter,
      total_bijection (hill_climb gt shuffle sample scorer ciphertext max_iter g).1.1.2)
  ∧ (∀ swaps : list (nat * nat),
      fold_left (λ key ab, swap ab.1 ab.2 key) swaps (best_key (trace g 0)) ≡ₚ alphabet
      ∧ total_bijection
          (mapping_of_key
             (fold_left (λ key ab, swap ab.1 ab.2 key) swaps (best_key (trace g 0))))).
Proof.
  assert (Hkeys : ∀ k key,
    key ∈ [best_key (trace g k); current_key (trace g k); new_key (trace g k)] →
    key ≡ₚ alphabet).
  { intros k key Hin. destruct (trace_keys_Permutation g k) as [Hb Hc].
    pose proof (new_key_Permutation (trace g k)) as Hn. rewrite Hc in Hn.
    repeat (apply elem_of_cons in Hin as [->|Hin]; [done|]).
    by apply elem_of_nil in Hin. }
  split; [|split].
  - intros k key Hin. split; [|apply mapping_of_key_bijection]; by apply (Hkeys k).
  - intros max_iter. simpl. apply mapping_of_key_bijection.
    apply (trace_keys_Permutation g (Z.to_nat max_iter)).
  - intros swaps.
    assert (fold_left (λ key ab, swap ab.1 ab.2 key) swaps (best_key (trace g 0))
            ≡ₚ alphabet) as Hp.
    { rewrite swaps_Permutation. apply (trace_keys_Permutation g 0). }
    split; [done|]. by apply mapping_of_key_bijection.
Qed.

End KeyFacts.

(** ** Restarts *)

Section RestartFacts.
Context {T G : Type}.
Variable gt : T → T → bool.
Variable shuffle : G → text → text * G.
Variable sample : G → nat * nat * G.
Variable scorer : text → T.
Variable ciphertext : text.
Context `{!ScoreOrder gt}.

Local Abbreviation runs_of := (runs gt shuffle sample scorer ciphertext).
Local Abbreviation keep := (keep_best gt).

Lemma solve_loop_runs (restarts : nat) (iterations : Z) (best : overall) (g : G) :
  (solve_loop gt shuffle sample scorer ciphertext restarts iterations best g).1
  = fold_left keep (runs_of restarts iterations g) best.
Proof.
  revert best g. induction restarts as [|r IH]; intros best g; simpl; [done|].
  destruct (hill_climb gt shuffle sample scorer ciphertext iterations g)
    as [[[d m] s] g'].
  simpl. by rewrite IH.
Qed.

Lemma length_runs (restarts : nat) (iterations : Z) (g : G) :
  length (runs_of restarts iterations g) = restarts.
Proof.
  revert g. induction restarts as [|r IH]; intros g; simpl; [done|].
  destruct (hill_climb gt shuffle sample scorer ciphertext iterations g)
    as [[[d m] s] g'].
  simpl. by rewrite IH.
Qed.

(** The reduction keeps the first run of maximal score. *)
Lemma keep_best_max (rs : list (text * gmap character character * T)) :
  rs ≠ [] →
  ∃ i decryption mapping score,
    rs !! i = Some (decryption, mapping, score)
    ∧ fold_left keep rs overall_init
      = {| best_overall_decryption := Some decryption;
           best_overall_mapping := Some mapping;
           best_overall_score := Fin score |}
    ∧ (∀ j r, rs !! j = Some r → gt r.2 score = false)
    ∧ (∀ j r, j < i → rs !! j = Some r → gt score r.2 = true).
Proof.
  induction rs as [|[[d m] s] rs IH] using rev_ind; [done|]. intros _.
  rewrite fold_left_app. simpl.
  destruct (decide (rs = [])) as [->|Hne].
  - simpl. exists 0, d, m, s. repeat split; try done.
    + intros [|j] r Hr; simplify_eq/=. apply (gt_irrefl gt).
    + intros j r Hj. lia.
  - destruct (IH Hne) as (i & di & mi & si & Hi & -> & Hmax & Hfirst). simpl.
    pose proof (lookup_lt_Some _ _ _ Hi) as Hlt.
    destruct (gt s si) eqn:Hgt.
    + exists (length rs), d, m, s. repeat split.
      * by rewrite lookup_app_r, Nat.sub_diag by lia.
      * intros j r Hr. apply lookup_app_Some in Hr as [Hr|[Hj Hr]].
        -- destruct (gt r.2 s) eqn:Hrs; [|done].
           destruct (gt_cotrans r.2 si s Hrs) as [H|H].
           ++ by rewrite (Hmax j r Hr) in H.
           ++ by rewrite (gt_asym s si Hgt) in H.
        -- destruct (j - length rs) as [|?] eqn:Hd; simplify_eq/=.
           apply (gt_irrefl gt).
      * intros j r Hj Hr. rewrite lookup_app_l in Hr by done.
        destruct (gt_cotrans s r.2 si Hgt) as [H|H]; [done|].
        by rewrite (Hmax j r Hr) in H.
    + exists i, di, mi, si. repeat split.
      * by rewrite lookup_app_l.
      * intros j r Hr. apply lookup_app_Some in Hr as [Hr|[Hj Hr]].
        -- by apply (Hmax j).
        -- destruct (j - length rs) as [|?] eqn:Hd; simplify_eq/=. done.
      * intros j r Hj Hr. rewrite lookup_app_l in Hr by lia. by apply (Hfirst j).
Qed.

(** C1.  With at least one restart, [solve_substitution] returns the
    decryption, mapping and score of one of its [restarts] runs of
    [hill_climb]; no run has a greater score than the returned one, and
    every earlier run has a strictly smaller score: among the runs of
    maximal score the first one is returned. *)
Theorem solve_substitution_max (restarts iterations : Z) (g : G) :
  (1 <= restarts)%Z →
  length (runs_of (Z.to_nat restarts) iterations g) = Z.to_nat restarts
  ∧ ∃ i decryption mapping score,
      runs_of (Z.to_nat restarts) iterations g !! i = Some (decryption, mapping, score)
      ∧ (solve_substitution gt shuffle sample scorer ciphertext restarts iterations g).1
        = {| best_overall_decryption := Some decryption;
             best_overall_mapping := Some mapping;
             best_overall_score := Fin score |}
      ∧ (∀ j r, runs_of (Z.to_nat restarts) iterations g !! j = Some r →
                gt r.2 score = false)
      ∧ (∀ j r, j < i → runs_of (Z.to_nat restarts) iterations g !! j = Some r →
                gt score r.2 = true).
Proof.
  intros Hr. split; [apply length_runs|].
  unfold solve_substitution. rewrite solve_loop_runs.
  apply keep_best_max. intros Hnil.
  pose proof (length_runs (Z.to_nat restarts) iterations g) as Hlen.
  rewrite Hnil in Hlen. simpl in Hlen. lia.
Qed.

End RestartFacts.

(** ** The theorems on the deterministic instance *)

Lemma demo_shuffle_permutes (g : nat) (l : text) : (demo_shuffle g l).1 ≡ₚ l.
Proof. apply rotate_Permutation. Qed.

Lemma hill_climb_run_witness :
  Z.gtb (best_score (climb_trace Z.gtb demo_shuffle demo_sample demo_score
                       (txt "Wkh txlfn eurzq ira") 0 2))
        (best_score (climb_trace Z.gtb demo_shuffle demo_sample demo_score
                       (txt "Wkh txlfn eurzq ira") 0 40))
  = false.
Proof.
  destruct (hill_climb_run Z.gtb demo_shuffle demo_sample demo_score
              (txt "Wkh txlfn eurzq ira") (ScoreOrder0 := Zgtb_order) 40 0)
    as (_ & Hmono & _).
  apply Hmono. lia.
Defined.

Lemma search_keys_bijective_witness :
  total_bijection
    (hill_climb Z.gtb demo_shuffle demo_sample demo_score (txt "Wkh txlfn eurzq ira") 40 0).1.1.2.
Proof.
  destruct (search_keys_bijective Z.gtb demo_shuffle demo_sample demo_score
              (txt "Wkh txlfn eurzq ira") demo_shuffle_permutes 0)
    as (_ & Hfinal & _).
  apply Hfinal.
Defined.

Lemma solve_substitution_max_witness :
  length (runs Z.gtb demo_shuffle demo_sample demo_score (txt "Wkh txlfn eurzq ira") 4 40 0) = 4
  ∧ ∃ i decryption mapping score,
      runs Z.gtb demo_shuffle demo_sample demo_score (txt "Wkh txlfn eurzq ira") 4 40 0 !! i
      = Some (decryption, mapping, score)
      ∧ (solve_substitution Z.gtb demo_shuffle demo_sample demo_score
           (txt "Wkh txlfn eurzq ira") 4 40 0).1
        = {| best_overall_decryption := Some decryption;
             best_overall_mapping := Some mapping;
             best_overall_score := Fin score |}
      ∧ (∀ j r, runs Z.gtb demo_shuffle demo_sample demo_score
                  (txt "Wkh txlfn eurzq ira") 4 40 0 !! j = Some r →
                Z.gtb r.2 score = false)
      ∧ (∀ j r, j < i →
                runs Z.gtb demo_shuffle demo_sample demo_score
                  (txt "Wkh txlfn eurzq ira") 4 40 0 !! j = Some r →
                Z.gtb score r.2 = true).
Proof.
  apply (solve_substitution_max Z.gtb demo_shuffle demo_sample demo_score
           (txt "Wkh txlfn eurzq ira") (ScoreOrder0 := Zgtb_order) 4 40 0).
  lia.
Defined.

(** ** The cache of [main] *)


Section MainFacts.
Context {G : Type}.
Variable sha256_hexdigest : text → text.
Variable shuffle : G → text → text * G.
Variable sample : G → nat * nat * G.

Local Abbreviation run := (main sha256_hexdigest shuffle sample).
Local Abbreviation solve := (solve_substitution Rgt_bool shuffle sample).

(** With at least one restart the optimizer returns a decryption. *)
Lemma solve_substitution_some (scorer : text → R) (ciphertext : text)
    (restarts iterations : Z) (g : G) :
  (1 <= restarts)%Z →
  ∃ decryption mapping score,
    (solve scorer ciphertext restarts iterations g).1
    = {| best_overall_decryption := Some decryption;
         best_overall_mapping := Some mapping;
         best_overall_score := Fin score |}.
Proof.
  intros Hr. unfold solve_substitution. rewrite solve_loop_runs.
  destruct (keep_best_max Rgt_bool
              (runs Rgt_bool shuffle sample scorer ciphertext (Z.to_nat restarts) iterations g))
    as (i & d & m & s & _ & -> & _); [|by eauto].
  intros Hnil.
  pose proof (length_runs Rgt_bool shuffle sample scorer ciphertext
                (Z.to_nat restarts) iterations g) as Hlen.
  rewrite Hnil in Hlen. simpl in Hlen. lia.
Qed.




(** C9, as the code has it.  A malformed cache is not recovered from.  When
    the cache file cannot be loaded, [main] ends with the exception that
    [json.load] raises ([JSONDecodeError] for text that is not JSON,
    [UnicodeDecodeError] for bytes that are not text, and so on); when the
    entry stored under the hash of the input has no string under
    "decrypted_text", it ends with [KeyError] or [TypeError]: the entry is
    not treated as a miss.  The optimizer is not called, so nothing of the
    entry reaches the search, and the cache file stays as it was. *)
Theorem corrupt_cache_raises (argv0 input_file : text) (rest : list text) (buf : text)
    (w : world) (g : G) :
  files w !! input_file = Some buf →
  ((∃ e, cache_json w = Unloadable e)
   ∨ ∃ fields entry,
       cache_json w = Loaded (JObj fields)
       ∧ fields !! sha256_hexdigest buf = Some entry
       ∧ ∀ t, subscript entry (txt "decrypted_text") ≠ Ok (JStr t)) →
  (∀ e, cache_json w = Unloadable e →
        status (run (argv0 :: input_file :: rest) w g) = Raise e)
  ∧ ((∃ v, cache_json w = Loaded v) →
     status (run (argv0 :: input_file :: rest) w g) = Raise KeyError
     ∨ status (run (argv0 :: input_file :: rest) w g) = Raise TypeError)
  ∧ (∃ e, status (run (argv0 :: input_file :: rest) w g) = Raise e)
  ∧ optimizer_calls (run (argv0 :: input_file :: rest) w g) = 0
  ∧ cache_json (final (run (argv0 :: input_file :: rest) w g)) = cache_json w
  ∧ final_gen (run (argv0 :: input_file :: rest) w g) = g.
Proof.
  intros Hfile [[e Hc]|(fields & entry & Hc & Hentry & Hbad)];
    unfold main, compute_file_hash, load_cache; rewrite Hfile, Hc; simpl.
  - split; [by intros ? [= ->]|]. split; [by intros [? ?]|]. split; [by eauto|done].
  - rewrite Hentry. rewrite bool_decide_eq_true_2 by eauto. simpl.
    split; [done|].
    assert (Hgoal : ∀ o : outcome G,
      (status o = Raise KeyError ∨ status o = Raise TypeError)
      ∧ optimizer_calls o = 0 ∧ cache_json (final o) = Loaded (JObj fields)
      ∧ final_gen o = g →
      ((∃ v, Loaded (JObj fields) = Loaded v) →
       status o = Raise KeyError ∨ status o = Raise TypeError)
      ∧ (∃ e, status o = Raise e)
      ∧ optimizer_calls o = 0 ∧ cache_json (final o) = Loaded (JObj fields)
      ∧ final_gen o = g).
    { intros o (Hst & Hrest). split; [done|]. split; [|done].
      destruct Hst as [-> | ->]; eauto. }
    apply Hgoal.
    destruct entry as [| | | | |entry_fields]; simpl;
      try (split; [by right|by rewrite ?Hc]).
    destruct (entry_fields !! txt "decrypted_text") as [v|] eqn:Hv; simpl.
    + destruct v as [| | |t| |]; simpl;
        try (split; [by right|by rewrite ?Hc]).
      exfalso. apply (Hbad t). simpl. by rewrite Hv.
    + split; [by left|by rewrite ?Hc].
Qed.

End MainFacts.


Lemma corrupt_cache_raises_witness :
  (status (main demo_digest demo_shuffle demo_sample
             [txt "pypher.py"; txt "msg.txt"] demo_corrupt_world 0) = Raise KeyError
   ∨ status (main demo_digest demo_shuffle demo_sample
               [txt "pypher.py"; txt "msg.txt"] demo_corrupt_world 0) = Raise TypeError)
  ∧ optimizer_calls (main demo_digest demo_shuffle demo_sample
                       [txt "pypher.py"; txt "msg.txt"] demo_corrupt_world 0) = 0
  ∧ cache_json (final (main demo_digest demo_shuffle demo_sample
                         [txt "pypher.py"; txt "msg.txt"] demo_corrupt_world 0))
    = cache_json demo_corrupt_world.
Proof.
  destruct (corrupt_cache_raises demo_digest demo_shuffle demo_sample
              (txt "pypher.py") (txt "msg.txt") [] (txt "Wkh txlfn eurzq ira")
              demo_corrupt_world 0) as (_ & Hentry & _ & Hcalls & Hcache & _).
  - vm_compute. reflexivity.
  - right.
    exists {[ demo_digest (txt "Wkh txlfn eurzq ira") := JObj {[ txt "score" := JNull ]} ]},
           (JObj {[ txt "score" := JNull ]}).
    split; [reflexivity|]. split; [vm_compute; reflexivity|].
    intros t H. vm_compute in H. discriminate H.
  - split; [|split; [exact Hcalls|exact Hcache]].
    apply Hentry. eexists. reflexivity.
Defined.

(** C9, as the design document has it, fails: with a cache whose entry for
    the input has lost its text, [main] ends with [KeyError] and has not
    called the optimizer, whereas on a miss it calls the optimizer and
    succeeds. *)
Lemma corrupt_entry_is_not_a_miss :
  status (main demo_digest demo_shuffle demo_sample demo_argv demo_corrupt_world 0)
  = Raise KeyError
  ∧ optimizer_calls (main demo_digest demo_shuffle demo_sample demo_argv demo_corrupt_world 0)
    = 0.
Proof. split; vm_compute; reflexivity. Qed.

(** ** The definitions at work *)

Example split_line : split (txt "  THEN   10 ") = [txt "THEN"; txt "10"].
Proof. vm_compute. reflexivity. Qed.

(** The no-break space U+00A0 separates fields too. *)
Example split_no_break_space :
  split (txt "THEN" ++ [160%N] ++ txt "10") = [txt "THEN"; txt "10"].
Proof. vm_compute. reflexivity. Qed.

Example py_int_literals :
  (py_int (txt "10"), py_int (txt "-12"), py_int (txt "1_000"), py_int (txt "007"))
  = (Some 10%Z, Some (-12)%Z, Some 1000%Z, Some 7%Z)
  ∧ (py_int (txt ""), py_int (txt "+"), py_int (txt "1__0"), py_int (txt "1_"), py_int (txt "12a"))
    = (None, None, None, None, None)
  ∧ py_int [1633; 1634]%N = Some 12%Z
  ∧ py_int (repeat (ord "1") 4300) ≠ None
  ∧ py_int (repeat (ord "1") 4301) = None.
Proof.
  split; [vm_compute; reflexivity|]. split; [vm_compute; reflexivity|].
  split; [vm_compute; reflexivity|]. split; [|vm_compute; reflexivity].
  assert (∃ n, py_int (repeat (ord "1") 4300) = Some n) as [n ->]; [|done].
  eexists. vm_compute. reflexivity.
Qed.

Example load_table :
  load_lines [] [txt "THEN 10"; txt "not a record here"; txt ""; txt "TION 8"; txt "THEN 11"]
  = Ok [(txt "THEN", 11%Z); (txt "TION", 8%Z)].
Proof. vm_compute. reflexivity. Qed.

Example load_table_bad_count : load_lines [] [txt "THEN 10"; txt "TION eight"] = Raise ValueError.
Proof. vm_compute. reflexivity. Qed.

(** A table file without any record makes the construction fail. *)
Example empty_table_raises : QuadgramScorer_init (Some []) = Raise ZeroDivisionError.
Proof. vm_compute. reflexivity. Qed.

(** A count that is too large for a float makes the construction fail, and
    the first item of the table that fails decides how. *)
Example large_count_raises :
  QuadgramScorer_init (Some [txt "THEN 1" ++ repeat (ord "0") 400]) = Raise OverflowError
  ∧ QuadgramScorer_init
      (Some [txt "THEN 1" ++ repeat (ord "0") 400; txt "TION -1" ++ repeat (ord "0") 400;
             txt "HERE 1"; txt "THER -1"])
    = Raise OverflowError
  ∧ QuadgramScorer_init
      (Some [txt "HERE 1"; txt "THER -1";
             txt "THEN 1" ++ repeat (ord "0") 400; txt "TION -1" ++ repeat (ord "0") 400])
    = Raise ZeroDivisionError.
Proof. split; [|split]; vm_compute; reflexivity. Qed.

Example decrypt_text :
  decrypt (txt "Hello, World!") (mapping_of_key (txt "QWERTYUIOPASDFGHJKLZXCVBNM"))
  = txt "Pcssi, Bidsm!".
Proof. vm_compute. reflexivity. Qed.

Example swap_ends :
  swap 0 25 (txt "QWERTYUIOPASDFGHJKLZXCVBNM") = txt "MWERTYUIOPASDFGHJKLZXCVBNQ".
Proof. vm_compute. reflexivity. Qed.

Example normalize_example : normalize (txt "th e,n X") = txt "THE,NX".
Proof. vm_compute. reflexivity. Qed.

Example strip_text : strip (txt "  Wkh txlfn
 ") = txt "Wkh txlfn".
Proof. vm_compute. reflexivity. Qed.

Example demo_solve :
  best_overall_decryption
    (solve_substitution Z.gtb demo_shuffle demo_sample demo_score
       (txt "Wkh txlfn eurzq ira, wkhq!") 4 60 0).1
  = Some (txt "Ekh rxlfn wutzq ita, ekhq!")
  ∧ best_overall_score
      (solve_substitution Z.gtb demo_shuffle demo_sample demo_score
         (txt "Wkh txlfn eurzq ira, wkhq!") 4 60 0).1
    = Fin 4%Z.
Proof. split; vm_compute; reflexivity. Qed.

Example demo_cache_hit :
  status (main demo_digest demo_shuffle demo_sample demo_argv
            {| files := files demo_world; quadgrams_txt := None;
               cache_json :=
                 Loaded (JObj {[ demo_digest (txt "Wkh txlfn eurzq ira")
                                 := JObj {[ txt "decrypted_text" := JStr (txt "The quick") ]} ]}) |}
            0)
  = Ok ().
Proof. vm_compute. reflexivity. Qed.

(** A cache file that is not text makes [main] end with the exception of
    the decoder. *)
Example demo_cache_not_text :
  status (main demo_digest demo_shuffle demo_sample demo_argv
            {| files := files demo_world; quadgrams_txt := None;
               cache_json := Unloadable UnicodeDecodeError |} 0)
  = Raise UnicodeDecodeError.
Proof. vm_compute. reflexivity. Qed.

(** * Further properties of [pypher.py] *)

(** ** Bounds on the score *)

Lemma log10_1 : log10 1 = 0%R.
Proof. unfold log10. rewrite ln_1. lra. Qed.

Lemma log10_le_0 (x : R) : (0 < x)%R → (x <= 1)%R → (log10 x <= 0)%R.
Proof.
  intros Hx [Hlt| ->]; [|rewrite log10_1; lra].
  left. by apply log10_neg.
Qed.

(** After a construction that succeeds, the value of a window lies between
    the floor and 0. *)
Lemma quad_value_bounds (file : option (list text)) (s : QuadgramScorer) (quad : text) :
  QuadgramScorer_init file = Ok s →
  (floor s <= quad_value s quad <= 0)%R.
Proof.
  intros H. apply QuadgramScorer_init_inv in H as (_ & [Htot _] & Hsum & Hlp & Hpos & Hfl).
  pose proof Htot as Htot'. apply IZR_lt in Htot'.
  assert (Hinv : (0 < / IZR (total s))%R) by (by apply Rinv_0_lt_compat).
  assert (Hfloor : (floor s < 0)%R).
  { rewrite Hfl. apply log10_neg; unfold Rdiv; [nra|].
    assert (1 <= IZR (total s))%R by (apply IZR_le; lia).
    assert (/ IZR (total s) <= / 1)%R by (apply Rinv_le_contravar; lra).
    rewrite Rinv_1 in *. nra. }
  unfold quad_value.
  destruct (log_prob s !! quad) as [l|] eqn:Hl; [|lra].
  rewrite Hlp in Hl. unfold log_probs in Hl.
  apply lookup_log_probs_elem in Hl as [(count & Hin & ->)|Hl];
    [|by rewrite lookup_empty in Hl].
  destruct (sum_values_ge _ Hpos) as [_ Hle]. specialize (Hle _ Hin).
  rewrite Forall_forall in Hpos. apply Hpos in Hin as Hc. simpl in Hc, Hle.
  rewrite <- Hsum in Hle.
  assert (1 <= IZR count)%R by (apply IZR_le; lia).
  assert (IZR count <= IZR (total s))%R by (by apply IZR_le).
  split.
  - left. rewrite Hfl. apply log10_increasing; unfold Rdiv; nra.
  - apply log10_le_0; unfold Rdiv; [nra|].
    apply (Rmult_le_reg_r (IZR (total s))); [done|].
    rewrite Rmult_assoc, Rinv_l by lra. lra.
Qed.

Lemma Rsum_between (lo : R) (l : list R) :
  Forall (λ x, (lo <= x <= 0)%R) l →
  (Rsum (map (λ _, lo) l) <= Rsum l <= 0)%R.
Proof.
  induction 1 as [|x l Hx Hl IH].
  - unfold Rsum. simpl. lra.
  - change (Rsum (x :: l)) with (x + Rsum l)%R.
    change (Rsum (map (λ _, lo) (x :: l))) with (lo + Rsum (map (λ _, lo) l))%R. lra.
Qed.

(** X1.  After a construction of the scorer that succeeds, the score of
    every text is at most 0, and at least the sum that the loop of [score]
    makes when every window of the normalised text misses the table. *)
Theorem score_bounds (file : option (list text)) (s : QuadgramScorer) (t : text) :
  QuadgramScorer_init file = Ok s →
  (fold_left (λ missed _, missed + floor s) (windows4 (normalize t)) 0
   <= score s t <= 0)%R.
Proof.
  intros H. rewrite score_sum_windows.
  rewrite (fold_left_Rplus (λ _, floor s)), Rplus_0_l.
  rewrite <- (map_map (quad_value s) (λ _, floor s)).
  apply Rsum_between. apply List.Forall_map. apply Forall_forall.
  intros quad _. by apply (quad_value_bounds file).
Qed.

Lemma score_bounds_witness :
  (fold_left (λ missed _, missed + floor default_scorer)
             (windows4 (normalize (txt "Then there"))) 0
   <= score default_scorer (txt "Then there") <= 0)%R.
Proof.
  apply (score_bounds None default_scorer (txt "Then there")).
  exact QuadgramScorer_init_default.
Defined.

(** ** The score does not see upper-casing or spaces *)

Lemma upper_app (t1 t2 : text) : upper (t1 ++ t2) = upper t1 ++ upper t2.
Proof. unfold upper. by rewrite map_app, concat_app. Qed.

Lemma upper_fixed (t : text) : (∀ d, d ∈ t → upper_char d = [d]) → upper t = t.
Proof.
  unfold upper. induction t as [|d t IH]; intros H; [done|].
  cbn [map concat]. rewrite (H d) by left. rewrite IH; [done|].
  intros d' Hd'. apply H. by right.
Qed.

Lemma upper_idemp (t : text) : upper (upper t) = upper t.
Proof.
  induction t as [|c t IH]; [done|].
  change (upper (c :: t)) with (upper_char c ++ upper t).
  rewrite upper_app, IH. f_equal.
  apply upper_fixed. intros d. apply upper_char_fixed.
Qed.

Lemma elem_of_upper (t : text) (d : character) :
  d ∈ upper t → ∃ c, c ∈ t ∧ d ∈ upper_char c.
Proof.
  unfold upper. induction t as [|c t IH]; [by intros ?%elem_of_nil|].
  cbn [map concat]. intros [Hd|Hd]%elem_of_app.
  - exists c. split; [left|done].
  - destruct (IH Hd) as (c' & Hc' & Hd'). exists c'. split; [by right|done].
Qed.

Lemma normalize_upper (t : text) : normalize (upper t) = normalize t.
Proof. unfold normalize. by rewrite upper_idemp. Qed.

Lemma normalize_filter (t : text) :
  normalize (filter (λ c, c ≠ ord " ") t) = normalize t.
Proof.
  rewrite !normalize_concat. induction t as [|c t IH]; [done|].
  rewrite filter_cons. destruct (decide (c ≠ ord " ")) as [H|H].
  - cbn [map concat]. by rewrite IH.
  - apply dec_stable in H as ->. cbn [map concat]. rewrite IH.
    by replace (filter (λ d, d ≠ ord " ") (upper_char (ord " "))) with (@nil N)
      by (vm_compute; reflexivity).
Qed.

Lemma normalize_idemp (t : text) : normalize (normalize t) = normalize t.
Proof.
  assert (Hfix : ∀ l : text,
    (∀ d, d ∈ l → upper_char d = [d] ∧ d ≠ ord " ") → normalize l = l).
  { intros l Hl. unfold normalize. rewrite upper_fixed by (intros d Hd; by apply Hl).
    induction l as [|d l IH]; [done|].
    rewrite filter_cons, decide_True by (apply Hl; left).
    rewrite IH; [done|]. intros d' Hd'. apply Hl. by right. }
  apply Hfix. intros d Hd. unfold normalize in Hd.
  apply list_elem_of_filter in Hd as [Hsp Hd]. split; [|done].
  apply elem_of_upper in Hd as (c & _ & Hd). by apply (upper_char_fixed c).
Qed.

Lemma score_normalize (self : QuadgramScorer) (t1 t2 : text) :
  normalize t1 = normalize t2 → score self t1 = score self t2.
Proof. intros H. unfold score. by rewrite H. Qed.

(** X2.  The score of a text does not change when the text is upper-cased,
    when its spaces are removed, or when it is replaced by its normal
    form. *)
Theorem score_ignores_case_and_spaces (self : QuadgramScorer) (t : text) :
  score self (upper t) = score self t
  ∧ score self (filter (λ c, c ≠ ord " ") t) = score self t
  ∧ score self (normalize t) = score self t.
Proof.
  repeat split; apply score_normalize.
  - apply normalize_upper.
  - apply normalize_filter.
  - apply normalize_idemp.
Qed.

(** Lower-casing can change the score: the lower-case form of the capital
    I with a dot, U+0130, has two characters. *)
Example lower_changes_windows :
  length (normalize [304; 65; 66]%N) = 3 ∧ length (normalize (lower [304; 65; 66]%N)) = 4.
Proof. split; vm_compute; reflexivity. Qed.

(** ** How the construction of the scorer ends *)

(** X3.  Once the table is loaded, the construction succeeds exactly when
    every count is positive and the counts add up to a number that a float
    can hold.  Otherwise it raises [OverflowError], [ZeroDivisionError] or
    [ValueError]: [OverflowError] only when a count or the sum is too large
    for a float, [ZeroDivisionError] only when the counts add up to 0, as
    they do for an empty table, and [ValueError] only when the sum is not 0
    and either is negative or goes with a count that is not positive. *)
Theorem QuadgramScorer_init_outcome (file : option (list text)) (q : list (text * Z)) :
  match file with Some lines => load_lines [] lines | None => Ok default_quadgrams end = Ok q →
  ((∃ s, QuadgramScorer_init file = Ok s) ↔
     Forall (λ item, (0 < item.2)%Z) q ∧ (0 < sum_values q < float_limit)%Z)
  ∧ (∀ e, QuadgramScorer_init file = Raise e →
       e = OverflowError ∨ e = ZeroDivisionError ∨ e = ValueError)
  ∧ (QuadgramScorer_init file = Raise OverflowError →
       (float_limit <= Z.abs (sum_values q))%Z
       ∨ ∃ item, item ∈ q ∧ (float_limit <= Z.abs item.2)%Z)
  ∧ (QuadgramScorer_init file = Raise ZeroDivisionError → sum_values q = 0%Z)
  ∧ (QuadgramScorer_init file = Raise ValueError →
       sum_values q ≠ 0%Z ∧ (Z.abs (sum_values q) < float_limit)%Z
       ∧ ((sum_values q < 0)%Z ∨ ∃ item, item ∈ q ∧ (item.2 <= 0)%Z))
  ∧ (q = [] → QuadgramScorer_init file = Raise ZeroDivisionError).
Proof.
  intros Hload.
  assert (Hraise : ∀ e, QuadgramScorer_init file = Raise e →
    e = OverflowError
    ∧ ((float_limit <= Z.abs (sum_values q))%Z
       ∨ ∃ item, item ∈ q ∧ (float_limit <= Z.abs item.2)%Z)
    ∨ e = ZeroDivisionError ∧ sum_values q = 0%Z
    ∨ e = ValueError ∧ sum_values q ≠ 0%Z ∧ (Z.abs (sum_values q) < float_limit)%Z
      ∧ ((sum_values q < 0)%Z ∨ ∃ item, item ∈ q ∧ (item.2 <= 0)%Z)).
  { intros e He.
    assert (Hcases :
      (∃ lp, build_log_prob q (sum_values q) = Ok lp
             ∧ (div_total (1 / 100) (sum_values q) ≫= math_log10) = Raise e)
      ∨ build_log_prob q (sum_values q) = Raise e).
    { unfold QuadgramScorer_init in He. rewrite Hload in He.
      cbn [mbind result_bind] in He.
      destruct (build_log_prob q (sum_values q)) as [lp|e'] eqn:Hlp.
      - left. exists lp. split; [done|].
        destruct (div_total (1 / 100) (sum_values q)) as [p|e3];
          cbn [mbind result_bind] in He |- *; [|congruence].
        destruct (math_log10 p); cbn [mbind result_bind] in He |- *; congruence.
      - right. cbn [mbind result_bind] in He. congruence. }
    destruct Hcases as [(lp & _ & Hfl)|Hlp].
    - apply floor_Raise in Hfl as [[-> ?]|[[-> ?]|(-> & ? & ?)]].
      + left. split; [done|]. by left.
      + right; left. done.
      + right; right. split; [done|]. split; [lia|]. split; [done|]. by left.
    - unfold build_log_prob in Hlp.
      apply build_fails in Hlp as (item & Hin & Hitem).
      apply item_log_prob_Raise in Hitem as [[-> Hbig]|[[-> ?]|(-> & ? & Hnz & Hneg)]].
      + left. split; [done|]. destruct Hbig; [right; eauto|by left].
      + right; left. done.
      + right; right. split; [done|]. split; [done|]. split; [done|].
        destruct (Z_lt_le_dec (sum_values q) 0) as [|Hpos]; [by left|].
        right. exists item. split; [done|].
        destruct (Z_lt_le_dec 0 item.2) as [Hc|]; [|done].
        exfalso. apply Hneg. apply ratio_pos; lia. }
  split; [|split; [|split; [|split; [|split]]]].
  - split.
    + intros [s Hs]. apply QuadgramScorer_init_inv in Hs as (Hq & Htot & Hsum & _ & Hpos & _).
      rewrite Hload in Hq. injection Hq as ->. by rewrite <- Hsum.
    + intros [Hpos Hsum]. eexists. by apply QuadgramScorer_init_positive.
  - intros e He. destruct (Hraise e He) as [[-> _]|[[-> _]|[-> _]]]; auto.
  - intros He. by destruct (Hraise _ He) as [[_ ?]|[[? _]|[? _]]].
  - intros He. by destruct (Hraise _ He) as [[? _]|[[_ ?]|[? _]]].
  - intros He. by destruct (Hraise _ He) as [[? _]|[[? _]|[_ ?]]].
  - intros ->. unfold QuadgramScorer_init. rewrite Hload. vm_compute. reflexivity.
Qed.

Lemma QuadgramScorer_init_outcome_witness :
  (∃ s, QuadgramScorer_init (Some [txt "THEN 3"; txt "TION -3"]) = Ok s) ↔
  Forall (λ item, (0 < item.2)%Z) [(txt "THEN", 3%Z); (txt "TION", (-3)%Z)]
  ∧ (0 < sum_values [(txt "THEN", 3%Z); (txt "TION", (-3)%Z)] < float_limit)%Z.
Proof.
  apply (QuadgramScorer_init_outcome (Some [txt "THEN 3"; txt "TION -3"])
           [(txt "THEN", 3%Z); (txt "TION", (-3)%Z)]).
  vm_compute. reflexivity.
Defined.

(** ** Loading the table *)

Lemma load_line_outcome (q : list (text * Z)) (line : text) :
  (∃ q', load_line q line = Ok q') ∨ load_line q line = Raise ValueError.
Proof.
  unfold load_line.
  destruct (split line) as [|tok [|cnt [|? ?]]]; eauto.
  destruct (py_int cnt); eauto.
Qed.

Lemma load_lines_bad_count (q : list (text * Z)) (lines : list text) :
  (∃ line token count,
      line ∈ lines ∧ split line = [token; count] ∧ py_int count = None) →
  load_lines q lines = Raise ValueError.
Proof.
  revert q. induction lines as [|l lines IH]; intros q (line & tok & cnt & Hin & Hs & Hi).
  - by apply elem_of_nil in Hin.
  - simpl. apply elem_of_cons in Hin as [<-|Hin].
    + unfold load_line. by rewrite Hs, Hi.
    + destruct (load_line_outcome q l) as [[q' ->]| ->]; simpl; [|done].
      apply IH. eauto 10.
Qed.

(** X4.  A table file with a line of two fields whose second field is not
    an integer literal makes the construction of the scorer raise
    [ValueError], whatever the other lines are. *)
Theorem QuadgramScorer_init_bad_count (lines : list text) :
  (∃ line token count,
      line ∈ lines ∧ split line = [token; count] ∧ py_int count = None) →
  QuadgramScorer_init (Some lines) = Raise ValueError.
Proof.
  intros H. unfold QuadgramScorer_init. by rewrite (load_lines_bad_count [] lines H).
Qed.

Lemma QuadgramScorer_init_bad_count_witness :
  QuadgramScorer_init (Some [txt "THEN 10"; txt "TION 8.5"; txt "HERE 7"]) = Raise ValueError.
Proof.
  apply (QuadgramScorer_init_bad_count [txt "THEN 10"; txt "TION 8.5"; txt "HERE 7"]).
  exists (txt "TION 8.5"), (txt "TION"), (txt "8.5").
  split; [|split; reflexivity].
  apply list_elem_of_In. vm_compute. right. left. reflexivity.
Defined.

Lemma load_line_record (q : list (text * Z)) (line token count : text) (n : Z) :
  split line = [token; count] → py_int count = Some n →
  load_line q line = Ok (dict_set token n q).
Proof. intros Hs Hi. unfold load_line. by rewrite Hs, Hi. Qed.

Lemma load_line_other (q q' : list (text * Z)) (line token : text) :
  load_line q line = Ok q' → ¬ is_record token line →
  dict_get q' token = dict_get q token.
Proof.
  unfold load_line, is_record. intros H Hn.
  destruct (split line) as [|tok [|cnt [|? ?]]]; simplify_eq/=; try done.
  destruct (py_int cnt); simplify_eq/=.
  rewrite dict_get_set_ne; [done|]. intros ->. apply Hn. eauto.
Qed.

Lemma load_lines_lookup_from (q0 q : list (text * Z)) (lines : list text) (token : text) (n : Z) :
  load_lines q0 lines = Ok q →
  dict_get q token = Some n ↔
    (∃ i line count,
        lines !! i = Some line ∧ split line = [token; count] ∧ py_int count = Some n
        ∧ ∀ j line', i < j → lines !! j = Some line' → ¬ is_record token line')
    ∨ ((∀ j line', lines !! j = Some line' → ¬ is_record token line')
       ∧ dict_get q0 token = Some n).
Proof.
  revert q0. induction lines as [|l lines IH]; intros q0 Hload; simpl in Hload.
  - simplify_eq. split.
    + intros H. right. split; [|done]. intros j line' Hj. by rewrite lookup_nil in Hj.
    + intros [(i & line & count & Hi & _)|[_ H]]; [by rewrite lookup_nil in Hi|done].
  - destruct (load_line q0 l) as [q1|e] eqn:Hl; [|done]. simpl in Hload.
    rewrite (IH q1 Hload). clear IH.
    destruct (split l) as [|tok [|cnt [|? ?]]] eqn:Hs.
    1,2,4: (assert (Hnot : ¬ is_record token l)
              by (intros [c Hc]; rewrite Hs in Hc; discriminate);
            rewrite (load_line_other q0 q1 l token Hl Hnot); split;
            [ intros [(i & line & count & Hi & Hrest)|[Hnone Hq]];
              [ left; exists (S i), line, count; split; [done|];
                destruct Hrest as (? & ? & Hlast); split; [done|]; split; [done|];
                intros [|j] line' Hj Hj'; [lia|]; apply (Hlast j); [lia|done]
              | right; split; [|done]; intros [|j] line' Hj;
                [by simplify_eq/=|by apply (Hnone j)] ]
            | intros [(i & line & count & Hi & Hsp & Hint & Hlast)|[Hnone Hq]];
              [ destruct i as [|i];
                [ simplify_eq/=; exfalso; apply Hnot; by exists count
                | left; exists i, line, count; split; [done|]; split; [done|];
                  split; [done|]; intros j line' Hj Hj'; apply (Hlast (S j)); [lia|done] ]
              | right; split; [|done]; intros j line' Hj; by apply (Hnone (S j)) ] ]).
    destruct (decide (tok = token)) as [->|Hne].
    + unfold load_line in Hl. rewrite Hs in Hl.
      destruct (py_int cnt) as [n'|] eqn:Hint; [|done]. simplify_eq/=.
      rewrite dict_get_set_eq. split.
      * intros [(i & line & count & Hi & Hsp & Hin & Hlast)|[Hnone Hq]].
        -- left. exists (S i), line, count. repeat split; try done.
           intros [|j] line' Hj Hj'; [lia|]. apply (Hlast j); [lia|done].
        -- left. exists 0, l, cnt. simplify_eq/=. repeat split; try done.
           intros [|j] line' Hj Hj'; [lia|]. by apply (Hnone j).
      * intros [(i & line & count & Hi & Hsp & Hin & Hlast)|[Hnone Hq]].
        -- destruct i as [|i]; simplify_eq/=.
           ++ right. rewrite Hs in Hsp. simplify_eq. split; [|congruence].
              intros j line' Hj. apply (Hlast (S j)); [lia|done].
           ++ left. exists i, line, count. repeat split; try done.
              intros j line' Hj Hj'. apply (Hlast (S j)); [lia|done].
        -- exfalso. apply (Hnone 0 l); [done|]. by exists cnt.
    + assert (Hnot : ¬ is_record token l).
      { intros [c Hc]. rewrite Hs in Hc. congruence. }
      rewrite (load_line_other q0 q1 l token Hl Hnot). split.
      * intros [(i & line & count & Hi & Hsp & Hin & Hlast)|[Hnone Hq]].
        -- left. exists (S i), line, count. repeat split; try done.
           intros [|j] line' Hj Hj'; [lia|]. apply (Hlast j); [lia|done].
        -- right. split; [|done]. intros [|j] line' Hj; [by simplify_eq/=|by apply (Hnone j)].
      * intros [(i & line & count & Hi & Hsp & Hin & Hlast)|[Hnone Hq]].
        -- destruct i as [|i]; simplify_eq/=.
           ++ exfalso. apply Hnot. by exists count.
           ++ left. exists i, line, count. repeat split; try done.
              intros j line' Hj Hj'. apply (Hlast (S j)); [lia|done].
        -- right. split; [|done]. intros j line' Hj. by apply (Hnone (S j)).
Qed.

(** X5.  When the table file loads, the count of a token is the count of
    the last line that is a record for it, and a token without such a line
    is not in the table: lines with another number of fields are skipped,
    and a later record replaces an earlier one. *)
Theorem load_lines_last_record (lines : list text) (q : list (text * Z)) (token : text) (n : Z) :
  load_lines [] lines = Ok q →
  dict_get q token = Some n ↔
    ∃ i line count,
      lines !! i = Some line ∧ split line = [token; count] ∧ py_int count = Some n
      ∧ ∀ j line', i < j → lines !! j = Some line' → ¬ is_record token line'.
Proof.
  intros Hload. rewrite (load_lines_lookup_from [] q lines token n Hload).
  split; [|by left]. intros [H|[_ H]]; [done|]. done.
Qed.

Lemma load_lines_last_record_witness :
  dict_get [(txt "THEN", 11%Z); (txt "TION", 8%Z)] (txt "THEN") = Some 11%Z ↔
    ∃ i line count,
      [txt "THEN 10"; txt "counts of quadgrams"; txt "TION 8"; txt "THEN 11"] !! i = Some line
      ∧ split line = [txt "THEN"; count] ∧ py_int count = Some 11%Z
      ∧ ∀ j line', i < j →
          [txt "THEN 10"; txt "counts of quadgrams"; txt "TION 8"; txt "THEN 11"] !! j = Some line' →
          ¬ is_record (txt "THEN") line'.
Proof.
  apply (load_lines_last_record
           [txt "THEN 10"; txt "counts of quadgrams"; txt "TION 8"; txt "THEN 11"]).
  vm_compute. reflexivity.
Defined.

(** ** Applying two keys in a row *)

Lemma lookup_compose_mapping (km1 km2 : gmap character character) (c : character) :
  compose_mapping km1 km2 !! c = km1 !! c ≫= (λ p, km2 !! p).
Proof. unfold compose_mapping. apply lookup_omap. Qed.

Lemma compose_mapping_bijection (km1 km2 : gmap character character) :
  total_bijection km1 → total_bijection km2 → total_bijection (compose_mapping km1 km2).
Proof.
  intros (Hd1 & Hr1 & Hi1 & Hs1) (Hd2 & Hr2 & Hi2 & Hs2).
  repeat split.
  - intros Hc. apply Hd1 in Hc as [p Hp].
    assert (is_Some (km2 !! p)) as [e He] by (apply Hd2; eauto).
    exists e. by rewrite lookup_compose_mapping, Hp.
  - intros [e He]. rewrite lookup_compose_mapping in He.
    destruct (km1 !! c) as [p|] eqn:Hp; [|done]. apply Hd1. eauto.
  - intros c e He. rewrite lookup_compose_mapping in He.
    destruct (km1 !! c) as [p|] eqn:Hp; [|done]. simpl in He. eauto.
  - intros c1 c2 e H1 H2. rewrite lookup_compose_mapping in H1, H2.
    destruct (km1 !! c1) as [p1|] eqn:Hp1; [|done].
    destruct (km1 !! c2) as [p2|] eqn:Hp2; [|done].
    simpl in *. assert (p1 = p2) by eauto. subst. eauto.
  - intros e He. destruct (Hs2 e He) as [p Hp].
    assert (p ∈ alphabet) as Hpa by (apply Hd2; eauto).
    destruct (Hs1 p Hpa) as [c Hc].
    exists c. by rewrite lookup_compose_mapping, Hc.
Qed.

Lemma decrypt_char_compose (km1 km2 : gmap character character) (c : character) :
  total_bijection km1 → total_bijection km2 →
  decrypt (decrypt_char km1 c) km2 = decrypt_char (compose_mapping km1 km2) c.
Proof.
  intros Hkm1 Hkm2.
  pose proof Hkm1 as (Hd1 & Hr1 & Hi1 & Hs1). pose proof Hkm2 as (Hd2 & Hr2 & Hi2 & Hs2).
  destruct (decrypt_char_cases km1 c Hkm1)
    as [(d & Hc & Hk & Hd & ->)
       |[(u & d & Hu & Hup & Hk & Hd & -> & Hcu)|(Hnone & _ & _ & _ & _ & ->)]];
    rewrite decrypt_singleton.
  - assert (is_Some (km2 !! d)) as [e He] by (by apply Hd2).
    unfold decrypt_char.
    destruct (alphabet_case d Hd) as (-> & -> & _).
    destruct (alphabet_case c Hc) as (-> & -> & _).
    cbn [lookup_str]. rewrite lookup_compose_mapping, Hk. cbn [mbind option_bind].
    by rewrite He.
  - assert (is_Some (km2 !! d)) as [e He] by (by apply Hd2).
    assert (Hlow : isupper c = false).
    { destruct Hcu as [->|[->| ->]].
      - by destruct (alphabet_case u Hu) as (_ & _ & _ & _ & ? & _).
      - by destruct dotless_i_case as (_ & ? & _).
      - by destruct long_s_case as (_ & ? & _). }
    unfold decrypt_char. rewrite Hup, Hlow.
    destruct (alphabet_case d Hd) as (_ & _ & _ & -> & -> & _).
    cbn [lookup_str]. rewrite lookup_compose_mapping, Hk. cbn [mbind option_bind].
    by rewrite He.
  - unfold decrypt_char.
    assert (lookup_str km2 (upper_char c) = None) as ->.
    { unfold lookup_str in *. destruct (upper_char c) as [|u [|? ?]]; try done.
      destruct (km2 !! u) eqn:H2; [|done]. exfalso.
      assert (is_Some (km1 !! u)) as [? ?]; [|congruence].
      apply Hd1, Hd2. eauto. }
    assert (lookup_str (compose_mapping km1 km2) (upper_char c) = None) as ->; [|done].
    unfold lookup_str in *. destruct (upper_char c) as [|u [|? ?]]; try done.
    rewrite lookup_compose_mapping. cbn [lookup_str] in Hnone. by rewrite Hnone.
Qed.

(** X6.  Applying a bijective key and then a second bijective key has the
    effect of applying one key, the composition of the two, which is again a
    total bijection of the alphabet. *)
Theorem decrypt_compose (km1 km2 : gmap character character) (t : text) :
  total_bijection km1 → total_bijection km2 →
  total_bijection (compose_mapping km1 km2)
  ∧ decrypt (decrypt t km1) km2 = decrypt t (compose_mapping km1 km2).
Proof.
  intros H1 H2. split; [by apply compose_mapping_bijection|].
  rewrite decrypt_twice, (decrypt_concat t). f_equal.
  apply map_ext. intros c. by apply decrypt_char_compose.
Qed.

Lemma decrypt_compose_witness :
  decrypt (decrypt (txt "Hello, World!") (mapping_of_key (txt "QWERTYUIOPASDFGHJKLZXCVBNM")))
          (mapping_of_key (txt "ZYXWVUTSRQPONMLKJIHGFEDCBA"))
  = decrypt (txt "Hello, World!")
      (compose_mapping (mapping_of_key (txt "QWERTYUIOPASDFGHJKLZXCVBNM"))
                       (mapping_of_key (txt "ZYXWVUTSRQPONMLKJIHGFEDCBA"))).
Proof.
  apply (decrypt_compose (mapping_of_key (txt "QWERTYUIOPASDFGHJKLZXCVBNM"))
                         (mapping_of_key (txt "ZYXWVUTSRQPONMLKJIHGFEDCBA"))
                         (txt "Hello, World!")).
  - apply mapping_of_key_bijection. apply (bool_decide_unpack _). vm_compute. exact I.
  - apply mapping_of_key_bijection. apply (bool_decide_unpack _). vm_compute. exact I.
Defined.

(** ** The mutation *)

Lemma swap_lookup (a b : nat) (l : text) :
  a < length l → b < length l →
  swap a b l !! a = l !! b
  ∧ swap a b l !! b = l !! a
  ∧ ∀ i, i ≠ a → i ≠ b → swap a b l !! i = l !! i.
Proof.
  intros Ha Hb. unfold swap.
  destruct (lookup_lt_is_Some_2 l a Ha) as [x Hx].
  destruct (lookup_lt_is_Some_2 l b Hb) as [y Hy].
  rewrite Hx, Hy. split; [|split].
  - destruct (decide (a = b)) as [->|Hne].
    + rewrite list_lookup_insert_eq by (by rewrite length_insert). congruence.
    + rewrite list_lookup_insert_ne by done. by rewrite list_lookup_insert_eq.
  - by rewrite list_lookup_insert_eq by (by rewrite length_insert).
  - intros i Hia Hib. by rewrite !list_lookup_insert_ne.
Qed.

Lemma swap_changes (a b : nat) (l : text) :
  NoDup l → a < length l → b < length l → a ≠ b → swap a b l ≠ l.
Proof.
  intros Hnd Ha Hb Hab Heq.
  destruct (swap_lookup a b l Ha Hb) as (Hsa & _). rewrite Heq in Hsa.
  destruct (lookup_lt_is_Some_2 l a Ha) as [x Hx]. rewrite Hx in Hsa.
  apply Hab. by apply (NoDup_lookup l a b x).
Qed.

Section MutationFacts.
Context {T G : Type}.
Variable gt : T → T → bool.
Variable shuffle : G → text → text * G.
Variable sample : G → nat * nat * G.
Variable scorer : text → T.
Variable ciphertext : text.

(** What the library guarantees of [random.shuffle] and of
    [random.sample(range(26), 2)]. *)
Hypothesis shuffle_permutes : ∀ g l, (shuffle g l).1 ≡ₚ l.
Hypothesis sample_distinct :
  ∀ g, (sample g).1.1 < 26 ∧ (sample g).1.2 < 26 ∧ (sample g).1.1 ≠ (sample g).1.2.

Local Abbreviation trace := (climb_trace gt shuffle sample scorer ciphertext).
Local Abbreviation new_key := (proposed_key sample scorer ciphertext).

(** X7.  In every iteration of every run the candidate key differs from the
    current key: the characters at the two drawn positions are exchanged,
    and every other position is the same. *)
Theorem proposal_differs (g : G) (k : nat) :
  proposed_key sample scorer ciphertext (trace g k) ≠ current_key (trace g k)
  ∧ proposed_key sample scorer ciphertext (trace g k) !! (sample (gen (trace g k))).1.1
    = current_key (trace g k) !! (sample (gen (trace g k))).1.2
  ∧ proposed_key sample scorer ciphertext (trace g k) !! (sample (gen (trace g k))).1.2
    = current_key (trace g k) !! (sample (gen (trace g k))).1.1
  ∧ ∀ i, i ≠ (sample (gen (trace g k))).1.1 → i ≠ (sample (gen (trace g k))).1.2 →
         proposed_key sample scorer ciphertext (trace g k) !! i
         = current_key (trace g k) !! i.
Proof.
  destruct (trace_keys_Permutation gt shuffle sample scorer ciphertext shuffle_permutes g k)
    as [_ Hperm].
  assert (Hlen : length (current_key (trace g k)) = 26) by (by rewrite Hperm).
  assert (Hnd : NoDup (current_key (trace g k))) by (rewrite Hperm; apply NoDup_alphabet).
  destruct (sample_distinct (gen (trace g k))) as (Ha & Hb & Hab).
  unfold proposed_key, propose.
  destruct (sample (gen (trace g k))) as [[a b] g']. simpl in *.
  split; [apply swap_changes; [done|lia|lia|done]|].
  apply swap_lookup; lia.
Qed.

End MutationFacts.

Lemma demo_sample_distinct (g : nat) :
  (demo_sample g).1.1 < 26 ∧ (demo_sample g).1.2 < 26
  ∧ (demo_sample g).1.1 ≠ (demo_sample g).1.2.
Proof.
  unfold demo_sample. cbn [fst snd].
  pose proof (Nat.mod_upper_bound g 26) as Ha.
  pose proof (Nat.mod_upper_bound (7 * g) 25) as Hd.
  pose proof (Nat.mod_upper_bound (g `mod` 26 + 1 + (7 * g) `mod` 25) 26) as Hb.
  split; [lia|]. split; [lia|].
  set (a := g `mod` 26) in *. set (d := (7 * g) `mod` 25) in *.
  assert (a < 26) by lia. assert (d < 25) by lia.
  destruct (le_lt_dec 26 (a + 1 + d)) as [Hge|Hlt].
  - rewrite <- (Nat.mod_unique (a + 1 + d) 26 1 (a + 1 + d - 26)) by lia. lia.
  - rewrite Nat.mod_small by lia. lia.
Qed.

Lemma proposal_differs_witness :
  proposed_key demo_sample demo_score (txt "Wkh txlfn eurzq ira")
    (climb_trace Z.gtb demo_shuffle demo_sample demo_score (txt "Wkh txlfn eurzq ira") 3 7)
  ≠ current_key
      (climb_trace Z.gtb demo_shuffle demo_sample demo_score (txt "Wkh txlfn eurzq ira") 3 7).
Proof.
  apply (proposal_differs Z.gtb demo_shuffle demo_sample demo_score (txt "Wkh txlfn eurzq ira")
           demo_shuffle_permutes demo_sample_distinct 3 7).
Defined.

(** ** What [solve_substitution] returns *)

Section SolveFacts.
Context {T G : Type}.
Variable gt : T → T → bool.
Variable shuffle : G → text → text * G.
Variable sample : G → nat * nat * G.
Variable scorer : text → T.
Variable ciphertext : text.

Local Abbreviation runs_of := (runs gt shuffle sample scorer ciphertext).
Local Abbreviation keep := (keep_best gt).
Local Abbreviation solve := (solve_substitution gt shuffle sample scorer ciphertext).

(** The reduction returns what it started from, or one of the runs. *)
Lemma fold_keep_best (rs : list (text * gmap character character * T)) (best : overall) :
  fold_left keep rs best = best
  ∨ ∃ d m s, (d, m, s) ∈ rs
             ∧ fold_left keep rs best
               = {| best_overall_decryption := Some d;
                    best_overall_mapping := Some m;
                    best_overall_score := Fin s |}.
Proof.
  revert best. induction rs as [|[[d m] s] rs IH]; intros best; simpl; [by left|].
  destruct (IH (if gt_ext gt s (best_overall_score best)
                then {| best_overall_decryption := Some d;
                        best_overall_mapping := Some m;
                        best_overall_score := Fin s |}
                else best)) as [Heq|(d' & m' & s' & Hin & Heq)].
  - rewrite Heq. destruct (gt_ext gt s (best_overall_score best)); [|by left].
    right. exists d, m, s. split; [left|done].
  - right. exists d', m', s'. split; [by right|done].
Qed.

Lemma solve_from_runs (restarts iterations : Z) (g : G) :
  (1 <= restarts)%Z →
  ∃ d m s, (d, m, s) ∈ runs_of (Z.to_nat restarts) iterations g
           ∧ (solve restarts iterations g).1
             = {| best_overall_decryption := Some d;
                  best_overall_mapping := Some m;
                  best_overall_score := Fin s |}.
Proof.
  intros Hr. unfold solve_substitution. rewrite solve_loop_runs.
  destruct (runs_of (Z.to_nat restarts) iterations g) as [|[[d m] s] rs] eqn:Hrs.
  - pose proof (length_runs gt shuffle sample scorer ciphertext
                  (Z.to_nat restarts) iterations g) as Hl.
    rewrite Hrs in Hl. simpl in Hl. lia.
  - simpl.
    destruct (fold_keep_best rs
                {| best_overall_decryption := Some d; best_overall_mapping := Some m;
                   best_overall_score := Fin s |})
      as [Heq|(d' & m' & s' & Hin & Heq)].
    + exists d, m, s. split; [left|done].
    + exists d', m', s'. split; [by right|done].
Qed.

(** Every run returns a mapping, the decryption under it, and the score of
    that decryption. *)
Lemma runs_coherent (restarts : nat) (iterations : Z) (g : G) (d : text)
    (m : gmap character character) (s : T) :
  (d, m, s) ∈ runs_of restarts iterations g →
  ∃ key, m = mapping_of_key key ∧ d = decrypt ciphertext m ∧ s = scorer d
         ∧ ∃ g' k, key = best_key (climb_trace gt shuffle sample scorer ciphertext g' k).
Proof.
  revert g. induction restarts as [|r IH]; intros g Hin; simpl in Hin.
  - by apply elem_of_nil in Hin.
  - unfold hill_climb in Hin. simpl in Hin.
    apply elem_of_cons in Hin as [Heq|Hin]; [|by apply (IH _ Hin)].
    inversion Heq; subst; clear Heq.
    exists (best_key (climb_trace gt shuffle sample scorer ciphertext g (Z.to_nat iterations))).
    split; [done|]. split; [done|]. split; [|by eauto].
    apply (trace_invariant gt shuffle sample scorer ciphertext g (Z.to_nat iterations)).
Qed.

(** X8.  With at least one restart, and a shuffle that permutes,
    [solve_substitution] returns a coherent triple: the mapping is a total
    bijection of the alphabet, the text is the decryption of the ciphertext
    under that mapping and has the length of the ciphertext, and the score
    is the score of that text. *)
Theorem solve_substitution_coherent (restarts iterations : Z) (g : G) :
  (∀ g l, (shuffle g l).1 ≡ₚ l) →
  (1 <= restarts)%Z →
  ∃ d m s,
    (solve restarts iterations g).1
    = {| best_overall_decryption := Some d;
         best_overall_mapping := Some m;
         best_overall_score := Fin s |}
    ∧ total_bijection m
    ∧ d = decrypt ciphertext m
    ∧ length d = length ciphertext
    ∧ s = scorer d.
Proof.
  intros Hshuffle Hr.
  destruct (solve_from_runs restarts iterations g Hr) as (d & m & s & Hin & Heq).
  destruct (runs_coherent (Z.to_nat restarts) iterations g d m s Hin)
    as (key & -> & Hd & Hs & g' & k & ->).
  exists d, (mapping_of_key (best_key (climb_trace gt shuffle sample scorer ciphertext g' k))), s.
  split; [done|]. split; [|split; [done|split; [|done]]].
  - apply mapping_of_key_bijection.
    apply (trace_keys_Permutation gt shuffle sample scorer ciphertext Hshuffle g' k).
  - rewrite Hd. apply decrypt_length. apply mapping_of_key_bijection.
    apply (trace_keys_Permutation gt shuffle sample scorer ciphertext Hshuffle g' k).
Qed.

(** X9.  [solve_substitution] returns no decryption, no mapping and the
    score [-inf] exactly when the number of restarts that it is asked for is
    zero or negative. *)
Theorem solve_substitution_none (restarts iterations : Z) (g : G) :
  (best_overall_decryption
     (solve_substitution gt shuffle sample scorer ciphertext restarts iterations g).1 = None
   ↔ (restarts <= 0)%Z)
  ∧ (best_overall_mapping
       (solve_substitution gt shuffle sample scorer ciphertext restarts iterations g).1 = None
     ↔ (restarts <= 0)%Z)
  ∧ (best_overall_score
       (solve_substitution gt shuffle sample scorer ciphertext restarts iterations g).1 = NegInf
     ↔ (restarts <= 0)%Z).
Proof.
  destruct (Z_le_gt_dec restarts 0) as [Hle|Hgt].
  - unfold solve_substitution. replace (Z.to_nat restarts) with 0 by lia.
    repeat split; done.
  - destruct (solve_from_runs restarts iterations g) as (d & m & s & _ & ->); [lia|].
    simpl. repeat split; intros; (done || lia).
Qed.

Example solve_substitution_negative :
  solve_substitution Z.gtb demo_shuffle demo_sample demo_score (txt "Wkh") (-1) 40 0
  = (overall_init, 0).
Proof. reflexivity. Qed.

End SolveFacts.

Lemma solve_substitution_coherent_witness :
  ∃ d m s,
    (solve_substitution Z.gtb demo_shuffle demo_sample demo_score
       (txt "Wkh txlfn eurzq ira") 4 40 0).1
    = {| best_overall_decryption := Some d;
         best_overall_mapping := Some m;
         best_overall_score := Fin s |}
    ∧ total_bijection m
    ∧ d = decrypt (txt "Wkh txlfn eurzq ira") m
    ∧ length d = length (txt "Wkh txlfn eurzq ira")
    ∧ s = demo_score d.
Proof.
  apply (solve_substitution_coherent Z.gtb demo_shuffle demo_sample demo_score
           (txt "Wkh txlfn eurzq ira") 4 40 0).
  - exact demo_shuffle_permutes.
  - lia.
Defined.

(** ** What [main] does to the files *)

Section MainEffects.
Context {G : Type}.
Variable sha256_hexdigest : text → text.
Variable shuffle : G → text → text * G.
Variable sample : G → nat * nat * G.

Local Abbreviation run := (main sha256_hexdigest shuffle sample).

Lemma raised_effects (output_file : text) (e : exn) (w : world) (g : G) (calls : nat) :
  calls ≤ 1 → main_effects output_file w (raised e w g calls).
Proof. intros H. repeat split; try done. by left. Qed.

Lemma write_output_effects (output_file : text) (decrypted_text : json)
    (w : world) (g : G) :
  main_effects output_file w (write_output output_file decrypted_text w g 0).
Proof.
  unfold write_output.
  destruct decrypted_text; simpl; repeat split; simpl; try done; try lia;
    try (by left); intros name Hne; by rewrite lookup_insert_ne.
Qed.

Lemma load_cache_dict (w : world) (fields : gmap text json) :
  load_cache w = Ok (JObj fields) →
  cache_json w = Absent ∧ fields = ∅ ∨ cache_json w = Loaded (JObj fields).
Proof.
  unfold load_cache. destruct (cache_json w) as [|e|v]; intros H; simplify_eq.
  - by left.
  - by right.
Qed.

Lemma solve_and_store_effects (input_file file_hash : text) (cache : json)
    (w : world) (g : G) :
  load_cache w = Ok cache →
  contains cache file_hash = Ok false →
  main_effects (input_file ++ txt ".decrypted.txt") w
    (solve_and_store shuffle sample input_file (input_file ++ txt ".decrypted.txt")
       file_hash cache w g).
Proof.
  intros Hload Hmiss. unfold solve_and_store.
  destruct (files w !! input_file) as [buf|]; [|by apply raised_effects; lia].
  destruct (QuadgramScorer_init (quadgrams_txt w)) as [scorer|e];
    [|by apply raised_effects; lia].
  destruct (solve_substitution_some shuffle sample (score scorer)
              (strip (universal_newlines buf)) 20 1000 g) as (d & m & s & Hbest); [lia|].
  destruct (solve_substitution Rgt_bool shuffle sample (score scorer)
              (strip (universal_newlines buf)) 20 1000 g) as [best g'].
  simpl in Hbest. subst best. simpl.
  destruct cache as [| | | | |fields]; simpl; try (by apply raised_effects; lia).
  simpl in Hmiss.
  assert (Hnone : fields !! file_hash = None).
  { destruct (fields !! file_hash) eqn:H; [|done].
    rewrite bool_decide_eq_true_2 in Hmiss by eauto. discriminate. }
  repeat split; simpl; try done; try lia.
  - intros name Hne. by rewrite lookup_insert_ne.
  - right. exists fields, file_hash,
      (JObj (<[txt "decrypted_text" := JStr d]>
            (<[txt "mapping" := json_of_mapping (Some m)]>
            (<[txt "score" := JNum (JFinite s)]> ∅)))).
    split; [by apply load_cache_dict|]. done.
Qed.

Lemma main_effects_run (argv0 input_file : text) (rest : list text) (w : world) (g : G) :
  main_effects (input_file ++ txt ".decrypted.txt") w (run (argv0 :: input_file :: rest) w g).
Proof.
  unfold main.
  destruct (compute_file_hash sha256_hexdigest w input_file) as [h|e];
    [|by apply raised_effects; lia].
  destruct (load_cache w) as [cache|e] eqn:Hload; [|by apply raised_effects; lia].
  destruct (contains cache h) as [[|]|e] eqn:Hc; [| |by apply raised_effects; lia].
  - destruct (subscript cache h ≫= λ result, subscript result (txt "decrypted_text"))
      as [dt|e]; [|by apply raised_effects; lia].
    apply write_output_effects.
  - by apply solve_and_store_effects.
Qed.

(** X11.  The cache is written once per key.  When the cache file holds a
    dictionary, every run of [main] leaves a dictionary in which every
    entry that was there is still there, unchanged; and a run that makes no
    call of the optimizer leaves the cache file exactly as it was. *)
Theorem main_keeps_cache_entries (argv : list text) (w : world) (g : G)
    (fields : gmap text json) :
  cache_json w = Loaded (JObj fields) →
  (∃ fields', cache_json (final (run argv w g)) = Loaded (JObj fields')
              ∧ ∀ key entry, fields !! key = Some entry → fields' !! key = Some entry)
  ∧ (optimizer_calls (run argv w g) = 0 →
     cache_json (final (run argv w g)) = cache_json w).
Proof.
  intros Hcache.
  assert (Heff : ∃ out, main_effects out w (run argv w g)).
  { destruct argv as [|argv0 [|input_file rest]].
    - exists []. unfold main. apply raised_effects. lia.
    - exists []. unfold main. apply raised_effects. lia.
    - eexists. apply main_effects_run. }
  destruct Heff as (out & _ & _ & _ & [Hsame|(f0 & key & entry & Hw & Hnone & Hnew & _ & Hone)]).
  - split; [|done]. exists fields. by rewrite Hsame.
  - destruct Hw as [[Ha _]|Hw]; [congruence|].
    assert (f0 = fields) by congruence. subst f0. split.
    + exists (<[key := entry]> fields). split; [done|].
      intros k v Hk. rewrite lookup_insert_ne; [done|]. intros ->. congruence.
    + intros Hzero. rewrite Hone in Hzero. discriminate.
Qed.

(** X12.  On a miss, a table file from which no scorer can be built makes
    [main] end with the exception of the construction, before the optimizer
    is called and before anything is written: the files are as they were. *)
Theorem main_miss_without_scorer (argv0 input_file : text) (rest : list text) (buf : text)
    (w : world) (g : G) (e : exn) :
  files w !! input_file = Some buf →
  (cache_json w = Absent
   ∨ ∃ fields, cache_json w = Loaded (JObj fields) ∧ fields !! sha256_hexdigest buf = None) →
  QuadgramScorer_init (quadgrams_txt w) = Raise e →
  run (argv0 :: input_file :: rest) w g
  = {| status := Raise e; final := w; final_gen := g; optimizer_calls := 0 |}.
Proof.
  intros Hfile Hcache Hscorer.
  unfold main, compute_file_hash. rewrite Hfile.
  assert (∃ fields0, load_cache w = Ok (JObj fields0)
                     ∧ fields0 !! sha256_hexdigest buf = None) as (fields0 & -> & Hnone).
  { unfold load_cache. destruct Hcache as [->|(fields0 & -> & Hnone)]; [|by eauto].
    exists ∅. split; [done|]. apply lookup_empty. }
  simpl. rewrite Hnone. rewrite bool_decide_eq_false_2 by (by intros [? ?]).
  unfold solve_and_store. by rewrite Hfile, Hscorer.
Qed.

(** X13.  When the cache file holds valid JSON that is not a dictionary (a
    list, a string, a number, ...), no run of [main] succeeds, and none
    changes any file. *)
Theorem main_cache_not_a_dictionary (argv : list text) (w : world) (g : G) (v : json) :
  cache_json w = Loaded v →
  (∀ fields, v ≠ JObj fields) →
  (∃ e, status (run argv w g) = Raise e) ∧ final (run argv w g) = w.
Proof.
  intros Hcache Hv.
  destruct argv as [|argv0 [|input_file rest]]; [by eauto|by eauto|].
  unfold main.
  destruct (compute_file_hash sha256_hexdigest w input_file) as [h|e]; [|by eauto].
  unfold load_cache. rewrite Hcache.
  assert (Hsub : ∀ k, subscript v k = Raise TypeError).
  { intros k. destruct v as [| | | | |fields]; try done. by destruct (Hv fields). }
  assert (Hstore : ∀ k x, store v k x = Raise TypeError).
  { intros k x. destruct v as [| | | | |fields]; try done. by destruct (Hv fields). }
  destruct (contains v h) as [[|]|e]; [| |by eauto].
  - rewrite Hsub. simpl. by eauto.
  - unfold solve_and_store.
    destruct (files w !! input_file) as [buf|]; [|by eauto].
    destruct (QuadgramScorer_init (quadgrams_txt w)) as [scorer|e]; [|by eauto].
    destruct (solve_substitution Rgt_bool shuffle sample (score scorer)
                (strip (universal_newlines buf)) 20 1000 g) as [best g'].
    rewrite Hstore. simpl. by eauto.
Qed.

End MainEffects.

Lemma main_keeps_cache_entries_witness :
  (∃ fields',
      cache_json (final (main demo_digest demo_shuffle demo_sample
                           [txt "pypher.py"; txt "msg.txt"] demo_corrupt_world 0))
      = Loaded (JObj fields')
      ∧ ∀ key entry,
          ({[ demo_digest (txt "Wkh txlfn eurzq ira") := JObj {[ txt "score" := JNull ]} ]}
             : gmap text json) !! key = Some entry →
          fields' !! key = Some entry)
  ∧ (optimizer_calls (main demo_digest demo_shuffle demo_sample
                        [txt "pypher.py"; txt "msg.txt"] demo_corrupt_world 0) = 0 →
     cache_json (final (main demo_digest demo_shuffle demo_sample
                          [txt "pypher.py"; txt "msg.txt"] demo_corrupt_world 0))
     = cache_json demo_corrupt_world).
Proof.
  apply (main_keeps_cache_entries demo_digest demo_shuffle demo_sample
           [txt "pypher.py"; txt "msg.txt"] demo_corrupt_world 0).
  reflexivity.
Defined.

Lemma main_miss_without_scorer_witness :
  main demo_digest demo_shuffle demo_sample [txt "pypher.py"; txt "msg.txt"]
    {| files := files demo_world; quadgrams_txt := Some [txt "THEN ten"];
       cache_json := Absent |} 0
  = {| status := Raise ValueError;
       final := {| files := files demo_world; quadgrams_txt := Some [txt "THEN ten"];
                   cache_json := Absent |};
       final_gen := 0; optimizer_calls := 0 |}.
Proof.
  apply (main_miss_without_scorer demo_digest demo_shuffle demo_sample
           (txt "pypher.py") (txt "msg.txt") [] (txt "Wkh txlfn eurzq ira")).
  - vm_compute. reflexivity.
  - left. reflexivity.
  - vm_compute. reflexivity.
Defined.

Lemma main_cache_not_a_dictionary_witness :
  (∃ e, status (main demo_digest demo_shuffle demo_sample demo_argv
                  {| files := files demo_world; quadgrams_txt := None;
                     cache_json := Loaded (JArr []) |} 0) = Raise e)
  ∧ final (main demo_digest demo_shuffle demo_sample demo_argv
             {| files := files demo_world; quadgrams_txt := None;
                cache_json := Loaded (JArr []) |} 0)
    = {| files := files demo_world; quadgrams_txt := None; cache_json := Loaded (JArr []) |}.
Proof.
  apply (main_cache_not_a_dictionary demo_digest demo_shuffle demo_sample demo_argv
           {| files := files demo_world; quadgrams_txt := None;
              cache_json := Loaded (JArr []) |} 0 (JArr [])).
  - reflexivity.
  - intros fields H. discriminate H.
Defined.

(** * The Caesar scripts *)

(** ** Arithmetic of [caesar_decrypt] *)

Lemma code_letter_at (k : Z) : Z.of_N (letter_at k) = (k `mod` 26 + 97)%Z.
Proof.
  pose proof (Z.mod_pos_bound k 26) as Hb. unfold letter_at. lia.
Qed.

Lemma ascii_lowercase_code (c : character) :
  c ∈ ascii_lowercase ↔ (97 <= Z.of_N c <= 122)%Z.
Proof.
  split.
  - revert c. apply Forall_forall. apply (bool_decide_unpack _). vm_compute. exact I.
  - intros Hc.
    replace ascii_lowercase with (map (λ i, (97 + N.of_nat i)%N) (seq 0 26))
      by (vm_compute; reflexivity).
    apply list_elem_of_fmap. exists (N.to_nat (c - 97)). split; [lia|].
    apply elem_of_seq. lia.
Qed.

Lemma alphabet_code (c : character) : c ∈ alphabet ↔ (65 <= Z.of_N c <= 90)%Z.
Proof.
  split.
  - revert c. apply Forall_forall. apply (bool_decide_unpack _). vm_compute. exact I.
  - intros Hc.
    replace alphabet with (map (λ i, (65 + N.of_nat i)%N) (seq 0 26))
      by (vm_compute; reflexivity).
    apply list_elem_of_fmap. exists (N.to_nat (c - 65)). split; [lia|].
    apply elem_of_seq. lia.
Qed.

Lemma ascii_letter_isalpha (c : character) :
  c ∈ alphabet ++ ascii_lowercase → isalpha c = true.
Proof.
  revert c. apply Forall_forall. apply (bool_decide_unpack _). vm_compute. exact I.
Qed.

Lemma letter_at_lowercase (k : Z) : letter_at k ∈ ascii_lowercase.
Proof.
  apply ascii_lowercase_code. rewrite code_letter_at.
  pose proof (Z.mod_pos_bound k 26). lia.
Qed.

Lemma isalpha_letter_at (k : Z) : isalpha (letter_at k) = true.
Proof. apply ascii_letter_isalpha, elem_of_app. right. apply letter_at_lowercase. Qed.

Lemma letter_at_mod (j k : Z) : (j `mod` 26 = k `mod` 26)%Z → letter_at j = letter_at k.
Proof. unfold letter_at. by intros ->. Qed.

Lemma caesar_decrypt_char_alpha (shift : Z) (c : character) :
  isalpha c = true →
  caesar_decrypt_char shift c = letter_at (Z.of_N c - 97 - shift).
Proof. unfold caesar_decrypt_char. by intros ->. Qed.

Lemma caesar_decrypt_char_other (shift : Z) (c : character) :
  isalpha c = false → caesar_decrypt_char shift c = c.
Proof. unfold caesar_decrypt_char. by intros ->. Qed.

Lemma caesar_decrypt_char_compose (a b : Z) (c : character) :
  caesar_decrypt_char b (caesar_decrypt_char a c) = caesar_decrypt_char (a + b) c.
Proof.
  destruct (isalpha c) eqn:Hc.
  - rewrite (caesar_decrypt_char_alpha a c Hc), (caesar_decrypt_char_alpha (a + b) c Hc).
    rewrite caesar_decrypt_char_alpha by apply isalpha_letter_at.
    rewrite code_letter_at. apply letter_at_mod.
    replace ((Z.of_N c - 97 - a) `mod` 26 + 97 - 97 - b)%Z
      with ((Z.of_N c - 97 - a) `mod` 26 - b)%Z by lia.
    rewrite Zminus_mod_idemp_l. f_equal. lia.
  - by rewrite (caesar_decrypt_char_other a c Hc), (caesar_decrypt_char_other b c Hc),
      (caesar_decrypt_char_other (a + b) c Hc).
Qed.

(** Shift 0 leaves a character as it is unless it is a letter outside a-z. *)
Lemma caesar_decrypt_char_zero (c : character) :
  (isalpha c = true → c ∈ ascii_lowercase) → caesar_decrypt_char 0 c = c.
Proof.
  intros Hl. destruct (isalpha c) eqn:Hc; [|by apply caesar_decrypt_char_other].
  rewrite caesar_decrypt_char_alpha by done.
  specialize (Hl eq_refl). apply ascii_lowercase_code in Hl. unfold letter_at.
  rewrite Z.mod_small by lia. lia.
Qed.

Lemma caesar_decrypt_fold (shift : Z) (l acc : text) :
  fold_left (λ plaintext char, plaintext ++ [caesar_decrypt_char shift char]) l acc
  = acc ++ map (caesar_decrypt_char shift) l.
Proof.
  revert acc. induction l as [|c l IH]; intros acc; simpl.
  - by rewrite app_nil_r.
  - rewrite IH. by rewrite <- app_assoc.
Qed.

Lemma caesar_decrypt_map (ciphertext : text) (shift : Z) :
  caesar_decrypt ciphertext shift = map (caesar_decrypt_char shift) ciphertext.
Proof. unfold caesar_decrypt. by rewrite caesar_decrypt_fold. Qed.

Lemma caesar_decrypt_add (t : text) (a b : Z) :
  caesar_decrypt (caesar_decrypt t a) b = caesar_decrypt t (a + b).
Proof.
  rewrite !caesar_decrypt_map, map_map. apply map_ext.
  intros c. apply caesar_decrypt_char_compose.
Qed.

Lemma caesar_decrypt_mod (t : text) (a b : Z) :
  (a `mod` 26 = b `mod` 26)%Z → caesar_decrypt t a = caesar_decrypt t b.
Proof.
  intros Hab. rewrite !caesar_decrypt_map. apply map_ext. intros c.
  destruct (isalpha c) eqn:Hc;
    [|by rewrite (caesar_decrypt_char_other a c Hc), (caesar_decrypt_char_other b c Hc)].
  rewrite !caesar_decrypt_char_alpha by done. apply letter_at_mod.
  rewrite (Zminus_mod _ a), (Zminus_mod _ b). by rewrite Hab.
Qed.

Lemma caesar_decrypt_zero (t : text) :
  Forall (λ c, isalpha c = true → c ∈ ascii_lowercase) t → caesar_decrypt t 0 = t.
Proof.
  intros H. rewrite caesar_decrypt_map.
  induction H as [|c l Hc Hl IH]; [done|]. simpl.
  by rewrite caesar_decrypt_char_zero, IH.
Qed.

(** X14.  Decrypting with shift [a] and then with shift [b] is decrypting
    with shift [a + b], for every text and all integer shifts; and two shifts
    that are congruent modulo 26 decrypt every text alike. *)
Theorem caesar_decrypt_shifts_add (t : text) (a b : Z) :
  caesar_decrypt (caesar_decrypt t a) b = caesar_decrypt t (a + b)
  ∧ ∀ k : Z, caesar_decrypt t (a + 26 * k) = caesar_decrypt t a.
Proof.
  split; [apply caesar_decrypt_add|].
  intros k. apply caesar_decrypt_mod.
  rewrite (Z.mul_comm 26 k). apply Z_mod_plus_full.
Qed.

(** X15.  On a text whose letters are all among a to z, shift 0 changes
    nothing, and decrypting with a shift and then with the opposite shift
    gives the text back. *)
Theorem caesar_decrypt_roundtrip (t : text) (shift : Z) :
  Forall (λ c, isalpha c = true → c ∈ ascii_lowercase) t →
  caesar_decrypt t 0 = t
  ∧ caesar_decrypt (caesar_decrypt t shift) (- shift) = t
  ∧ caesar_decrypt (caesar_decrypt t (- shift)) shift = t.
Proof.
  intros H. split; [by apply caesar_decrypt_zero|].
  rewrite !caesar_decrypt_add.
  replace (shift + - shift)%Z with 0%Z by lia.
  replace (- shift + shift)%Z with 0%Z by lia.
  split; by apply caesar_decrypt_zero.
Qed.

Lemma caesar_decrypt_roundtrip_witness :
  caesar_decrypt (txt "hello, world!") 0 = txt "hello, world!"
  ∧ caesar_decrypt (caesar_decrypt (txt "hello, world!") 3) (- 3) = txt "hello, world!"
  ∧ caesar_decrypt (caesar_decrypt (txt "hello, world!") (- 3)) 3 = txt "hello, world!".
Proof.
  apply (caesar_decrypt_roundtrip (txt "hello, world!") 3).
  apply (bool_decide_unpack _). vm_compute. exact I.
Defined.

(** X16.  [caesar_decrypt] keeps the length and every non-alphabetic
    character, and turns every letter into one of the letters a to z.  An
    upper-case ASCII letter is not decrypted as such: it comes out as its
    lower-case form decrypted with the shift plus 6, which is why the scripts
    lower-case their input first. *)
Theorem caesar_decrypt_shape (t : text) (shift : Z) :
  length (caesar_decrypt t shift) = length t
  ∧ ∀ i c, t !! i = Some c →
      ∃ d, caesar_decrypt t shift !! i = Some d
           ∧ (isalpha c = false → d = c)
           ∧ (isalpha c = true → d ∈ ascii_lowercase)
           ∧ (c ∈ alphabet → d = caesar_decrypt_char (shift + 6) (c + 32)).
Proof.
  rewrite caesar_decrypt_map. split; [apply length_map|].
  intros i c Hi. exists (caesar_decrypt_char shift c).
  split; [by rewrite list_lookup_fmap, Hi|]. split; [|split].
  - apply caesar_decrypt_char_other.
  - intros Hc. rewrite caesar_decrypt_char_alpha by done. apply letter_at_lowercase.
  - intros Hu.
    destruct (alphabet_case c Hu) as (_ & _ & _ & _ & _ & _ & Hl & _).
    rewrite caesar_decrypt_char_alpha
      by (apply ascii_letter_isalpha, elem_of_app; by left).
    rewrite caesar_decrypt_char_alpha
      by (apply ascii_letter_isalpha, elem_of_app; by right).
    apply letter_at_mod.
    replace (Z.of_N (c + 32) - 97 - (shift + 6))%Z
      with (Z.of_N c - 97 - shift + 1 * 26)%Z by lia.
    by rewrite Z_mod_plus_full.
Qed.

Example caesar_decrypt_hello : caesar_decrypt (txt "khoor, zruog!") 3 = txt "hello, world!".
Proof. vm_compute. reflexivity. Qed.

Example caesar_decrypt_upper : caesar_decrypt (txt "A") 0 = txt "u".
Proof. vm_compute. reflexivity. Qed.

(** A letter outside a-z is replaced even by shift 0: the e with an acute
    accent, U+00E9, becomes g. *)
Example caesar_decrypt_accent : caesar_decrypt (txt "caf" ++ [233%N]) 0 = txt "cafg".
Proof. vm_compute. reflexivity. Qed.

(** ** All 26 candidates *)

Lemma brute_force_fold (ciphertext : text) (l : list Z) (acc : list (Z * text)) :
  fold_left (λ candidates shift, candidates ++ [(shift, caesar_decrypt ciphertext shift)]) l acc
  = acc ++ map (λ shift, (shift, caesar_decrypt ciphertext shift)) l.
Proof.
  revert acc. induction l as [|s l IH]; intros acc; simpl.
  - by rewrite app_nil_r.
  - rewrite IH. by rewrite <- app_assoc.
Qed.

Lemma brute_force_candidates_map (ciphertext : text) :
  brute_force_candidates ciphertext
  = map (λ shift, (shift, caesar_decrypt ciphertext shift)) range26.
Proof. unfold brute_force_candidates. by rewrite brute_force_fold. Qed.

Lemma lookup_range26 (i : nat) : i < 26 → range26 !! i = Some (Z.of_nat i).
Proof.
  intros Hi. unfold range26. rewrite list_lookup_fmap, lookup_seq_lt by done. done.
Qed.

Lemma brute_force_lookup (ciphertext : text) (i : nat) :
  i < 26 →
  brute_force_candidates ciphertext !! i
  = Some (Z.of_nat i, caesar_decrypt ciphertext (Z.of_nat i)).
Proof.
  intros Hi. rewrite brute_force_candidates_map, list_lookup_fmap.
  by rewrite lookup_range26.
Qed.

(** X17.  The brute-force list has 26 entries, entry [i] being shift [i] with
    its decryption.  For a text [p] whose letters are all among a to z and
    any integer [k], the list made from [p] shifted by [k] holds [p] itself,
    at shift [k mod 26]: brute force does not miss such a plaintext. *)
Theorem brute_force_finds_plaintext (p : text) (k : Z) :
  Forall (λ c, isalpha c = true → c ∈ ascii_lowercase) p →
  length (brute_force_candidates (caesar_decrypt p (- k))) = 26
  ∧ (∀ i, i < 26 →
       brute_force_candidates (caesar_decrypt p (- k)) !! i
       = Some (Z.of_nat i, caesar_decrypt (caesar_decrypt p (- k)) (Z.of_nat i)))
  ∧ brute_force_candidates (caesar_decrypt p (- k)) !! Z.to_nat (k `mod` 26)
    = Some ((k `mod` 26)%Z, p).
Proof.
  intros Hp. split; [|split].
  - by rewrite brute_force_candidates_map, length_map.
  - intros i Hi. by apply brute_force_lookup.
  - pose proof (Z.mod_pos_bound k 26) as Hb.
    rewrite brute_force_lookup by lia.
    rewrite Z2Nat.id by lia. do 2 f_equal.
    rewrite caesar_decrypt_add.
    rewrite (caesar_decrypt_mod p (- k + k `mod` 26) 0); [by apply caesar_decrypt_zero|].
    rewrite Z.mod_0_l by lia.
    pose proof (Z.div_mod k 26) as Hdm.
    replace (- k + k `mod` 26)%Z with (0 + (- (k `div` 26)) * 26)%Z by lia.
    by rewrite Z_mod_plus_full.
Qed.

Lemma brute_force_finds_plaintext_witness :
  brute_force_candidates (caesar_decrypt (txt "attack at dawn") (- 29)) !! Z.to_nat (29 `mod` 26)
  = Some ((29 `mod` 26)%Z, txt "attack at dawn").
Proof.
  apply (brute_force_finds_plaintext (txt "attack at dawn") 29).
  apply (bool_decide_unpack _). vm_compute. exact I.
Defined.

(** ** The chi-squared score *)

Lemma lower_table_alpha :
  forallb (λ e, Bool.eqb (existsb isalpha e.2) (isalpha e.1)) lower_table = true.
Proof. vm_compute. reflexivity. Qed.

(** A character is alphabetic exactly when its lower-case form has an
    alphabetic character. *)
Lemma lower_char_alpha (c : character) : existsb isalpha (lower_char c) = isalpha c.
Proof.
  destruct (lower_char_cases c) as [->|Hin].
  - simpl. apply orb_false_r.
  - pose proof (table_check _ _ _ lower_table_alpha Hin) as Hchk.
    cbn [fst snd] in Hchk. by apply eqb_prop in Hchk.
Qed.

Lemma lower_table_fixed :
  forallb (λ e, forallb (λ d, negb (d =? 931)%N && bool_decide (lower_char d = [d])) e.2)
          lower_table = true.
Proof. vm_compute. reflexivity. Qed.

Lemma sigma_case :
  lower_char 931 = [963%N]
  ∧ isalpha 931 = true ∧ isalpha 962 = true ∧ isalpha 963 = true
  ∧ (962%N ∉ ascii_lowercase) ∧ (963%N ∉ ascii_lowercase)
  ∧ lower_char 962 = [962%N] ∧ lower_char 963 = [963%N].
Proof. apply (bool_decide_unpack _). vm_compute. exact I. Qed.

(** Lower-casing is idempotent, character by character, and leaves no
    capital sigma. *)
Lemma lower_char_fixed (c d : character) :
  d ∈ lower_char c → d ≠ 931%N ∧ lower_char d = [d].
Proof.
  intros Hd. destruct (lower_char_cases c) as [Heq|Hin].
  - rewrite Heq in Hd. apply list_elem_of_singleton in Hd as ->. split; [|done].
    intros ->. destruct sigma_case as (Hs & _). rewrite Hs in Heq. discriminate.
  - pose proof (table_check _ _ _ lower_table_fixed Hin) as Hchk.
    cbn [snd] in Hchk. rewrite forallb_forall in Hchk.
    apply list_elem_of_In, Hchk in Hd. apply andb_true_iff in Hd as [Hne Hfix].
    split; [|by apply bool_decide_eq_true in Hfix].
    apply negb_true_iff, N.eqb_neq in Hne. done.
Qed.

Lemma lower_at_cases (before after : text) (c : character) :
  lower_at before after c = lower_char c
  ∨ c = 931%N ∧ lower_at before after c = [962%N].
Proof.
  unfold lower_at. destruct (c =? 931)%N eqn:Hc; [|by left].
  apply N.eqb_eq in Hc as ->. destruct (final_sigma before after); [by right|].
  left. by destruct sigma_case as (-> & _).
Qed.

Lemma lower_at_alpha (before after : text) (c : character) :
  existsb isalpha (lower_at before after c) = isalpha c.
Proof.
  destruct (lower_at_cases before after c) as [->|[-> ->]]; [apply lower_char_alpha|].
  destruct sigma_case as (_ & -> & Hf & _). cbn [existsb]. by rewrite Hf.
Qed.

Lemma filter_isalpha_nil (s : text) :
  filter (λ c, isalpha c = true) s = [] ↔ existsb isalpha s = false.
Proof.
  induction s as [|c s IH]; [done|].
  rewrite filter_cons. cbn [existsb]. destruct (isalpha c) eqn:Hc.
  - rewrite decide_True by done. done.
  - rewrite decide_False by done. done.
Qed.

(** The letters that [chi_squared_score] counts. *)
Local Abbreviation letters_of t := (filter (λ c, isalpha c = true) (lower t)).

Lemma letters_from_nil (before t : text) :
  filter (λ c, isalpha c = true) (lower_from before t) = []
  ↔ Forall (λ c, isalpha c = false) t.
Proof.
  revert before. induction t as [|c t IH]; intros before; [by split; [constructor|]|].
  cbn [lower_from]. rewrite filter_app, app_nil, Forall_cons, IH.
  by rewrite filter_isalpha_nil, lower_at_alpha.
Qed.

Lemma letters_of_nil (t : text) :
  letters_of t = [] ↔ Forall (λ c, isalpha c = false) t.
Proof. apply letters_from_nil. Qed.

Lemma chi_term_nonneg (counts : gmap character Z) (total : nat) (acc : R)
    (letter : character) :
  (0 <= acc)%R → (0 <= chi_term counts total acc letter)%R.
Proof.
  intros Hacc. unfold chi_term.
  destruct (counts !! letter) as [observed|]; [|done].
  destruct (ENGLISH_FREQ !! letter) as [freq|]; [|done].
  destruct (Rlt_dec 0 (freq / 100 * INR total)) as [Hpos|]; [|done].
  assert (0 <= (IZR observed - freq / 100 * INR total) ^ 2)%R by apply pow2_ge_0.
  assert (0 < / (freq / 100 * INR total))%R by (by apply Rinv_0_lt_compat).
  unfold Rdiv at 2. nra.
Qed.

Lemma chi_fold_nonneg (counts : gmap character Z) (total : nat) (letters : text) (acc : R) :
  (0 <= acc)%R → (0 <= fold_left (chi_term counts total) letters acc)%R.
Proof.
  revert acc. induction letters as [|l letters IH]; intros acc Hacc; simpl; [done|].
  by apply IH, chi_term_nonneg.
Qed.

Lemma Chi_inj (a b : R) : Chi a = Chi b → a = b.
Proof. by intros [= ->]. Qed.

(** X18.  [chi_squared_score] returns infinity exactly for a text without
    any letter, and otherwise a number that is not negative. *)
Theorem chi_squared_score_range (t : text) :
  (chi_squared_score t = Inf ↔ Forall (λ c, isalpha c = false) t)
  ∧ ∀ x, chi_squared_score t = Chi x → (0 <= x)%R.
Proof.
  unfold chi_squared_score. split.
  - rewrite <- letters_of_nil.
    destruct (decide (length (letters_of t) = 0)) as [H|H].
    + split; [|reflexivity]. intros _. by apply nil_length_inv.
    + split; [intros Hx; discriminate Hx|].
      intros Hnil. exfalso. apply H. rewrite Hnil. reflexivity.
  - intros x. destruct (decide (length (letters_of t) = 0)) as [H|H].
    + intros Hx. discriminate Hx.
    + intros Hx. apply Chi_inj in Hx. rewrite <- Hx. apply chi_fold_nonneg. lra.
Qed.

(** After the counting loop, a key holds its initial count plus the number
    of its occurrences, and no key is added. *)
Lemma lookup_count_letters (l : text) (m : gmap character Z) (k : character) :
  fold_left count_letter l m !! k
  = (λ n, n + Z.of_nat (occurrences k l))%Z <$> m !! k.
Proof.
  unfold occurrences. revert m. induction l as [|c l IH]; intros m; simpl.
  - destruct (m !! k); simpl; [|done]. f_equal. lia.
  - rewrite IH. rewrite filter_cons. unfold count_letter.
    destruct (decide (c = k)) as [->|Hne].
    + destruct (m !! k) as [n|] eqn:Hk.
      * rewrite lookup_insert_eq. simpl. f_equal. lia.
      * by rewrite Hk.
    + destruct (m !! c) as [n|] eqn:Hc; [|done].
      by rewrite lookup_insert_ne.
Qed.

Lemma lookup_zero_counts_from (letters : text) (m : gmap character Z) (k : character) :
  is_Some (fold_left (λ m letter, <[letter := 0%Z]> m) letters m !! k) →
  k ∈ letters ∨ is_Some (m !! k).
Proof.
  revert m. induction letters as [|l letters IH]; intros m H; [by right|].
  simpl in H. apply IH in H as [H|H]; [left; by right|].
  destruct (decide (l = k)) as [->|Hne]; [left; left|].
  rewrite lookup_insert_ne in H by done. by right.
Qed.

Lemma lookup_zero_counts (k : character) :
  is_Some (zero_counts !! k) → k ∈ ascii_lowercase.
Proof.
  intros H. apply lookup_zero_counts_from in H as [H|[? H]]; [done|].
  by rewrite lookup_empty in H.
Qed.

(** The score depends on the number of the letters that are counted and on
    the number of occurrences of each of the letters a to z among them. *)
Lemma chi_squared_score_profile (t1 t2 : text) :
  length (letters_of t1) = length (letters_of t2) →
  (∀ k, k ∈ ascii_lowercase →
        occurrences k (letters_of t1) = occurrences k (letters_of t2)) →
  chi_squared_score t1 = chi_squared_score t2.
Proof.
  intros Hlen Hocc. unfold chi_squared_score. cbv zeta. rewrite Hlen.
  assert (fold_left count_letter (letters_of t1) zero_counts
          = fold_left count_letter (letters_of t2) zero_counts) as ->; [|done].
  apply map_eq. intros k. rewrite !lookup_count_letters.
  destruct (zero_counts !! k) as [n|] eqn:Hk; [|done].
  cbn [fmap option_fmap option_map]. rewrite Hocc; [done|].
  apply lookup_zero_counts. by rewrite Hk.
Qed.

Lemma occurrences_app (k : character) (t1 t2 : text) :
  occurrences k (t1 ++ t2) = occurrences k t1 + occurrences k t2.
Proof. unfold occurrences. by rewrite filter_app, length_app. Qed.

(** What a character contributes to the letters does not depend on the
    characters around it. *)
Lemma letters_profile_at (before after : text) (c : character) :
  length (filter (λ c, isalpha c = true) (lower_at before after c))
  = length (filter (λ c, isalpha c = true) (lower_char c))
  ∧ ∀ k, k ∈ ascii_lowercase →
      occurrences k (filter (λ c, isalpha c = true) (lower_at before after c))
      = occurrences k (filter (λ c, isalpha c = true) (lower_char c)).
Proof.
  destruct (lower_at_cases before after c) as [->|[-> ->]]; [done|].
  destruct sigma_case as (-> & _ & H2 & H3 & Hn2 & Hn3 & _).
  rewrite !filter_cons, !filter_nil, !decide_True by done.
  split; [done|]. intros k Hk. unfold occurrences.
  rewrite !filter_cons, !filter_nil.
  rewrite !decide_False; [done| |]; intros <-; done.
Qed.

Lemma letters_profile (before t : text) :
  length (filter (λ c, isalpha c = true) (lower_from before t))
  = length (filter (λ c, isalpha c = true) (t ≫= lower_char))
  ∧ ∀ k, k ∈ ascii_lowercase →
      occurrences k (filter (λ c, isalpha c = true) (lower_from before t))
      = occurrences k (filter (λ c, isalpha c = true) (t ≫= lower_char)).
Proof.
  revert before. induction t as [|c t IH]; intros before; [done|].
  cbn [lower_from]. rewrite bind_cons, !filter_app, !length_app.
  destruct (letters_profile_at before t c) as [Hlen Hocc].
  destruct (IH (c :: before)) as [IHlen IHocc].
  split; [by rewrite Hlen, IHlen|].
  intros k Hk. by rewrite !occurrences_app, Hocc, IHocc.
Qed.

Lemma chi_squared_score_bind (t1 t2 : text) :
  filter (λ c, isalpha c = true) (t1 ≫= lower_char)
  ≡ₚ filter (λ c, isalpha c = true) (t2 ≫= lower_char) →
  chi_squared_score t1 = chi_squared_score t2.
Proof.
  intros Hp. apply chi_squared_score_profile.
  - unfold lower. rewrite (proj1 (letters_profile [] t1)), (proj1 (letters_profile [] t2)).
    by rewrite Hp.
  - intros k Hk. unfold lower.
    rewrite (proj2 (letters_profile [] t1) k Hk), (proj2 (letters_profile [] t2) k Hk).
    unfold occurrences. by rewrite Hp.
Qed.

Lemma lower_fixed (before s : text) :
  (∀ d, d ∈ s → d ≠ 931%N ∧ lower_char d = [d]) → lower_from before s = s.
Proof.
  revert before. induction s as [|d s IH]; intros before Hs; [done|].
  cbn [lower_from]. rewrite IH by (intros d' Hd'; apply Hs; by right).
  destruct (Hs d) as [Hne Hfix]; [left|].
  unfold lower_at. apply N.eqb_neq in Hne. by rewrite Hne, Hfix.
Qed.

Lemma elem_of_lower_from (before t : text) (d : character) :
  d ∈ lower_from before t → d ≠ 931%N ∧ lower_char d = [d].
Proof.
  revert before. induction t as [|c t IH]; intros before; [by intros ?%elem_of_nil|].
  cbn [lower_from]. intros [Hd|Hd]%elem_of_app; [|by apply (IH (c :: before))].
  destruct (lower_at_cases before t c) as [Heq|[-> Heq]]; rewrite Heq in Hd.
  - by apply (lower_char_fixed c).
  - apply list_elem_of_singleton in Hd as ->. split; [done|].
    by destruct sigma_case as (_ & _ & _ & _ & _ & _ & ? & _).
Qed.

(** [text.lower()] is idempotent. *)
Lemma lower_idemp (t : text) : lower (lower t) = lower t.
Proof. apply lower_fixed. intros d. apply elem_of_lower_from. Qed.

(** X19.  [chi_squared_score] depends only on how often each letter occurs,
    whatever its case: the score does not change when the characters of the
    text are put in another order, when the text is lower-cased, or when its
    non-alphabetic characters are removed. *)
Theorem chi_squared_score_invariant (t : text) :
  (∀ t', t ≡ₚ t' → chi_squared_score t = chi_squared_score t')
  ∧ chi_squared_score (lower t) = chi_squared_score t
  ∧ chi_squared_score (filter (λ c, isalpha c = true) t) = chi_squared_score t.
Proof.
  split; [|split].
  - intros t' Hp. apply chi_squared_score_bind. by rewrite Hp.
  - unfold chi_squared_score. by rewrite lower_idemp.
  - apply chi_squared_score_bind.
    assert (filter (λ c, isalpha c = true) (filter (λ c, isalpha c = true) t ≫= lower_char)
            = filter (λ c, isalpha c = true) (t ≫= lower_char)) as ->; [|done].
    induction t as [|c t IH]; [done|]. rewrite filter_cons.
    destruct (decide (isalpha c = true)) as [Hc|Hc].
    + by rewrite !bind_cons, !filter_app, IH.
    + rewrite bind_cons, filter_app, IH.
      assert (filter (λ c, isalpha c = true) (lower_char c) = []) as ->; [|done].
      apply filter_isalpha_nil. rewrite lower_char_alpha. by destruct (isalpha c).
Qed.

(** Upper-casing can change the score: the sharp s, one letter that is not
    counted as any of a to z, becomes two letters s. *)
Example upper_changes_letters :
  filter (λ c, isalpha c = true) (lower [223%N]) = [223%N]
  ∧ filter (λ c, isalpha c = true) (lower (upper [223%N])) = txt "ss".
Proof. split; vm_compute; reflexivity. Qed.

(** ** The best shift *)

Lemma isalpha_caesar_decrypt_char (shift : Z) (c : character) :
  isalpha (caesar_decrypt_char shift c) = isalpha c.
Proof.
  destruct (isalpha c) eqn:Hc.
  - rewrite caesar_decrypt_char_alpha by done. apply isalpha_letter_at.
  - by rewrite caesar_decrypt_char_other.
Qed.

Lemma caesar_decrypt_letterless (t : text) (shift : Z) :
  Forall (λ c, isalpha c = false) (caesar_decrypt t shift)
  ↔ Forall (λ c, isalpha c = false) t.
Proof.
  rewrite caesar_decrypt_map, List.Forall_map.
  apply Forall_iff. intros c. by rewrite isalpha_caesar_decrypt_char.
Qed.

Lemma chi_squared_score_Inf (t : text) :
  chi_squared_score t = Inf ↔ Forall (λ c, isalpha c = false) t.
Proof.
  unfold chi_squared_score. rewrite <- letters_of_nil.
  destruct (decide (length (letters_of t) = 0)) as [H|H].
  - split; [|reflexivity]. intros _. by apply nil_length_inv.
  - split; [intros Hx; discriminate Hx|].
    intros Hnil. exfalso. apply H. rewrite Hnil. reflexivity.
Qed.

Local Opaque chi_squared_score caesar_decrypt.

Lemma try_shift_Inf (ciphertext : text) (best : best_shift_state) (shift : Z) :
  chi_squared_score (caesar_decrypt ciphertext shift) = Inf →
  try_shift ciphertext best shift = best.
Proof. intros H. unfold try_shift. by rewrite H. Qed.

Lemma fold_try_shift_Inf (ciphertext : text) (l : list Z) (best : best_shift_state) :
  (∀ s, chi_squared_score (caesar_decrypt ciphertext s) = Inf) →
  fold_left (try_shift ciphertext) l best = best.
Proof.
  intros H. revert best. induction l as [|s l IH]; intros best; simpl; [done|].
  by rewrite try_shift_Inf, IH.
Qed.

(** The search keeps the first shift of least score. *)
Lemma fold_try_shift_min (ciphertext : text) (l : list Z) :
  l ≠ [] →
  (∀ s, ∃ y, chi_squared_score (caesar_decrypt ciphertext s) = Chi y) →
  ∃ i s x,
    l !! i = Some s
    ∧ fold_left (try_shift ciphertext) l
        {| best_shift := None; best_chi := Inf; best_plaintext := [] |}
      = {| best_shift := Some s; best_chi := Chi x;
           best_plaintext := caesar_decrypt ciphertext s |}
    ∧ chi_squared_score (caesar_decrypt ciphertext s) = Chi x
    ∧ ∀ j s' y, l !! j = Some s' →
        chi_squared_score (caesar_decrypt ciphertext s') = Chi y →
        (x <= y)%R ∧ (j < i → (x < y)%R).
Proof.
  intros Hne Hfin. induction l as [|s l IH] using rev_ind; [done|]. clear Hne.
  rewrite fold_left_app. simpl.
  destruct (Hfin s) as [y Hy].
  destruct (decide (l = [])) as [->|Hne].
  - simpl. unfold try_shift. rewrite Hy. simpl.
    exists 0, s, y. split; [done|]. split; [done|]. split; [done|].
    intros [|j] s' y' Hj Hy'; [|done].
    simpl in Hj. injection Hj as <-. rewrite Hy in Hy'. apply Chi_inj in Hy'.
    split; [lra|lia].
  - destruct (IH Hne) as (i & si & x & Hi & -> & Hx & Hmin).
    pose proof (lookup_lt_Some _ _ _ Hi) as Hlt.
    unfold try_shift. rewrite Hy. simpl.
    destruct (Rlt_dec y x) as [Hyx|Hyx].
    + exists (length l), s, y. split; [|split; [done|split; [done|]]].
      * by rewrite lookup_app_r, Nat.sub_diag by lia.
      * intros j s' y' Hj Hy'. apply lookup_app_Some in Hj as [Hj|[Hge Hj]].
        -- destruct (Hmin j s' y' Hj Hy') as [Hle _].
           pose proof (lookup_lt_Some _ _ _ Hj). split; [lra|intros _; lra].
        -- destruct (j - length l) as [|?] eqn:Hd; [|done].
           simpl in Hj. injection Hj as <-. rewrite Hy in Hy'. apply Chi_inj in Hy'.
           split; [lra|lia].
    + exists i, si, x. split; [|split; [done|split; [done|]]].
      * by rewrite lookup_app_l.
      * intros j s' y' Hj Hy'. apply lookup_app_Some in Hj as [Hj|[Hge Hj]].
        -- by apply (Hmin j s' y').
        -- destruct (j - length l) as [|?] eqn:Hd; [|done].
           simpl in Hj. injection Hj as <-. rewrite Hy in Hy'. apply Chi_inj in Hy'.
           split; [lra|lia].
Qed.

(** X20.  For a text without any letter the search for the best shift
    returns no shift, the score infinity and the empty text.  For every other
    text it returns a shift between 0 and 25 with its candidate and its
    score, and that score is the least of the 26 candidates' scores and
    strictly below the score of every smaller shift: ties go to the smallest
    shift. *)
Theorem frequency_analysis_decrypt_best (ciphertext : text) :
  (Forall (λ c, isalpha c = false) ciphertext →
   frequency_analysis_decrypt ciphertext
   = {| best_shift := None; best_chi := Inf; best_plaintext := [] |})
  ∧ (¬ Forall (λ c, isalpha c = false) ciphertext →
     ∃ s x,
       (0 <= s < 26)%Z
       ∧ frequency_analysis_decrypt ciphertext
         = {| best_shift := Some s; best_chi := Chi x;
              best_plaintext := caesar_decrypt ciphertext s |}
       ∧ chi_squared_score (caesar_decrypt ciphertext s) = Chi x
       ∧ ∀ s' y, (0 <= s' < 26)%Z →
           chi_squared_score (caesar_decrypt ciphertext s') = Chi y →
           (x <= y)%R ∧ ((s' < s)%Z → (x < y)%R)).
Proof.
  unfold frequency_analysis_decrypt. split.
  - intros Hno. apply fold_try_shift_Inf. intros s.
    by apply chi_squared_score_Inf, caesar_decrypt_letterless.
  - intros Hsome.
    destruct (fold_try_shift_min ciphertext range26) as (i & s & x & Hi & Heq & Hx & Hmin).
    { discriminate. }
    { intros s. destruct (chi_squared_score (caesar_decrypt ciphertext s)) as [|y] eqn:Hs;
        [|by eauto].
      exfalso. apply Hsome. by apply chi_squared_score_Inf, caesar_decrypt_letterless in Hs. }
    assert (Hi26 : i < 26).
    { apply lookup_lt_Some in Hi. unfold range26 in Hi.
      by rewrite length_map, length_seq in Hi. }
    rewrite lookup_range26 in Hi by done. injection Hi as <-.
    exists (Z.of_nat i), x. split; [lia|]. split; [done|]. split; [done|].
    intros s' y Hs' Hy.
    destruct (Hmin (Z.to_nat s') s' y) as [Hle Hlt]; [|done|].
    { rewrite lookup_range26 by lia. f_equal. lia. }
    split; [done|]. intros Hlt'. apply Hlt. lia.
Qed.

Local Transparent chi_squared_score caesar_decrypt.

(** * The permutation search of [caesar_shift/main.py] *)

(** ** Counting and ranking the letters *)

Lemma first_occurrences_snoc (t : text) (c : character) :
  first_occurrences (t ++ [c])
  = if decide (c ∈ first_occurrences t)
    then first_occurrences t else first_occurrences t ++ [c].
Proof. unfold first_occurrences. by rewrite fold_left_app. Qed.

Lemma first_occurrences_spec (t : text) :
  NoDup (first_occurrences t) ∧ ∀ c, c ∈ first_occurrences t ↔ c ∈ t.
Proof.
  induction t as [|c t [IHn IHe]] using rev_ind.
  - split; [constructor|done].
  - rewrite first_occurrences_snoc.
    destruct (decide (c ∈ first_occurrences t)) as [Hin|Hnin].
    + split; [done|]. intros k. rewrite elem_of_app, list_elem_of_singleton, IHe.
      split; [by left|]. intros [?| ->]; [done|]. by apply IHe.
    + split.
      * apply NoDup_app. split; [done|]. split; [|apply NoDup_singleton].
        intros k Hk Hk'. apply list_elem_of_singleton in Hk'. by subst.
      * intros k. rewrite !elem_of_app, !list_elem_of_singleton. by rewrite IHe.
Qed.

Lemma elem_of_first_occurrences (t : text) (c : character) : c ∈ first_occurrences t ↔ c ∈ t.
Proof. apply first_occurrences_spec. Qed.

Lemma NoDup_first_occurrences (t : text) : NoDup (first_occurrences t).
Proof. apply first_occurrences_spec. Qed.

Lemma count_lowercase_snoc (t : text) (c : character) :
  count_lowercase (t ++ [c])
  = if decide (c ∈ ascii_lowercase)
    then counter_add c (count_lowercase t) else count_lowercase t.
Proof. unfold count_lowercase. by rewrite fold_left_app. Qed.

Lemma occurrences_snoc (k c : character) (t : text) :
  occurrences k (t ++ [c]) = occurrences k t + (if decide (c = k) then 1 else 0).
Proof.
  unfold occurrences. rewrite filter_app, length_app, filter_cons, filter_nil.
  by destruct (decide (c = k)).
Qed.

Lemma counter_add_keys (c : character) (items : list (character * nat)) :
  map fst (counter_add c items)
  = if decide (c ∈ map fst items) then map fst items else map fst items ++ [c].
Proof.
  induction items as [|[k n] items IH].
  - destruct (decide (c ∈ map fst [])) as [H|H]; [|done]. by apply elem_of_nil in H.
  - change (counter_add c ((k, n) :: items))
      with (if decide (k = c) then (k, S n) :: items else (k, n) :: counter_add c items).
    change (map fst ((k, n) :: items)) with (k :: map fst items).
    destruct (decide (k = c)) as [->|Hne].
    + destruct (decide (c ∈ c :: map fst items)) as [H|H]; [done|].
      exfalso. apply H. left.
    + change (map fst ((k, n) :: counter_add c items))
        with (k :: map fst (counter_add c items)).
      rewrite IH.
      destruct (decide (c ∈ map fst items)) as [Hin|Hnin],
               (decide (c ∈ k :: map fst items)) as [Hin'|Hnin']; try done.
      * exfalso. apply Hnin'. by right.
      * exfalso. apply elem_of_cons in Hin' as [?|?]; [congruence|done].
Qed.

Lemma counter_add_items (c : character) (items : list (character * nat)) (k : character) (n : nat) :
  NoDup (map fst items) →
  (k, n) ∈ counter_add c items →
  (k ≠ c ∧ (k, n) ∈ items)
  ∨ (k = c ∧ ((∃ m, (c, m) ∈ items ∧ n = S m) ∨ ((c ∉ map fst items) ∧ n = 1))).
Proof.
  induction items as [|[k' n'] items IH]; simpl; intros Hnd.
  - intros H%list_elem_of_singleton. injection H as -> ->.
    right. split; [done|]. right. split; [by intros ?%elem_of_nil|done].
  - apply NoDup_cons in Hnd as [Hk' Hnd].
    destruct (decide (k' = c)) as [->|Hne].
    + intros [H|H]%elem_of_cons.
      * injection H as -> ->. right. split; [done|]. left. exists n'. split; [left|done].
      * left. split; [|by right]. intros ->. apply Hk'.
        apply list_elem_of_fmap. by exists (c, n).
    + intros [H|H]%elem_of_cons.
      * injection H as -> ->. left. split; [done|]. left.
      * destruct (IH Hnd H) as [[Hk Hin]|[-> [(m & Hm & ->)|[Hnin ->]]]].
        -- left. split; [done|]. by right.
        -- right. split; [done|]. left. exists m. split; [by right|done].
        -- right. split; [done|]. right. split; [|done].
           intros [?|?]%elem_of_cons; [congruence|done].
Qed.

Lemma occurrences_zero (c : character) (t : text) : c ∉ t → occurrences c t = 0.
Proof.
  unfold occurrences. induction t as [|x t IH]; intros H; [done|].
  rewrite filter_cons. destruct (decide (x = c)) as [->|].
  - exfalso. apply H. left.
  - apply IH. intros Hc. apply H. by right.
Qed.

(** After the counting loop the keys are the lower-case letters of the text
    in the order of their first occurrence, each with the number of its
    occurrences. *)
Lemma count_lowercase_spec (t : text) :
  map fst (count_lowercase t)
  = first_occurrences (filter (λ c, c ∈ ascii_lowercase) t)
  ∧ ∀ k n, (k, n) ∈ count_lowercase t → n = occurrences k t.
Proof.
  induction t as [|c t [IHk IHn]] using rev_ind; [split; [done|]|].
  { intros k n H. by apply elem_of_nil in H. }
  rewrite count_lowercase_snoc, filter_app, filter_cons, filter_nil.
  destruct (decide (c ∈ ascii_lowercase)) as [Hc|Hc].
  - assert (Hnd : NoDup (map fst (count_lowercase t))).
    { rewrite IHk. apply NoDup_first_occurrences. }
    split.
    + rewrite counter_add_keys, first_occurrences_snoc, IHk. done.
    + intros k n Hin. rewrite occurrences_snoc.
      destruct (counter_add_items c _ k n Hnd Hin)
        as [[Hk Hi]|[-> [(m & Hm & ->)|[Hnin ->]]]].
      * rewrite (IHn k n Hi). destruct (decide (c = k)); [congruence|lia].
      * rewrite (IHn c m Hm). destruct (decide (c = c)); [lia|done].
      * destruct (decide (c = c)); [|done].
        assert (occurrences c t = 0) as ->; [|done].
        rewrite IHk in Hnin.
        assert (Hnot : c ∉ t).
        { intros Hct. apply Hnin. rewrite elem_of_first_occurrences.
          apply list_elem_of_filter. by split. }
        by apply occurrences_zero.
  - rewrite app_nil_r. split; [done|].
    intros k n Hin. rewrite occurrences_snoc, (IHn k n Hin).
    destruct (decide (c = k)) as [->|]; [|lia].
    exfalso. apply Hc.
    assert (k ∈ map fst (count_lowercase t)) as Hk
      by (apply list_elem_of_fmap; by exists (k, n)).
    rewrite IHk, elem_of_first_occurrences in Hk.
    by apply list_elem_of_filter in Hk as [? _].
Qed.

(** The stable sort. *)

Lemma insert_desc_Permutation (x : character * nat) (l : list (character * nat)) :
  insert_desc x l ≡ₚ x :: l.
Proof.
  induction l as [|y l IH]; simpl; [done|].
  destruct (x.2 <? y.2)%nat; [|done]. by rewrite IH, Permutation_swap.
Qed.

Lemma most_common_Permutation (items : list (character * nat)) : most_common items ≡ₚ items.
Proof.
  unfold most_common. induction items as [|x items IH]; simpl; [done|].
  by rewrite insert_desc_Permutation, IH.
Qed.

Lemma insert_desc_sorted (x : character * nat) (l : list (character * nat)) :
  StronglySorted (λ a b, b.2 ≤ a.2) l →
  StronglySorted (λ a b, b.2 ≤ a.2) (insert_desc x l).
Proof.
  induction 1 as [|y l Hl IH Hy]; simpl; [repeat constructor|].
  destruct (x.2 <? y.2)%nat eqn:Hxy.
  - apply Nat.ltb_lt in Hxy. constructor; [done|].
    rewrite insert_desc_Permutation. constructor; [lia|done].
  - apply Nat.ltb_ge in Hxy. constructor; [by constructor|].
    constructor; [done|]. eapply Forall_impl; [exact Hy|]. simpl. intros z Hz. lia.
Qed.

Lemma most_common_sorted (items : list (character * nat)) :
  StronglySorted (λ a b, b.2 ≤ a.2) (most_common items).
Proof.
  unfold most_common. induction items as [|x items IH]; simpl; [constructor|].
  by apply insert_desc_sorted.
Qed.

Lemma filter_insert_desc (x : character * nat) (l : list (character * nat)) (n : nat) :
  filter (λ p, p.2 = n) (insert_desc x l)
  = if decide (x.2 = n) then x :: filter (λ p, p.2 = n) l else filter (λ p, p.2 = n) l.
Proof.
  induction l as [|y l IH]; simpl.
  - rewrite filter_cons, filter_nil. by destruct (decide (x.2 = n)).
  - destruct (x.2 <? y.2)%nat eqn:Hxy.
    + apply Nat.ltb_lt in Hxy. rewrite !(filter_cons _ y), IH.
      destruct (decide (x.2 = n)) as [Hx|Hx]; [|done].
      destruct (decide (y.2 = n)); [lia|done].
    + by rewrite (filter_cons _ x).
Qed.

Lemma filter_most_common (items : list (character * nat)) (n : nat) :
  filter (λ p, p.2 = n) (most_common items) = filter (λ p, p.2 = n) items.
Proof.
  unfold most_common. induction items as [|x items IH]; simpl; [done|].
  rewrite filter_insert_desc, filter_cons, IH. done.
Qed.

Lemma sorted_lookup {A} (R : A → A → Prop) (l : list A) (i j : nat) (a b : A) :
  StronglySorted R l → i < j → l !! i = Some a → l !! j = Some b → R a b.
Proof.
  intros Hs. revert i j. induction Hs as [|x l Hl IH Hx]; intros i j Hij Hi Hj.
  - by rewrite lookup_nil in Hi.
  - destruct j as [|j]; [lia|]. destruct i as [|i]; simpl in *.
    + injection Hi as <-. rewrite Forall_forall in Hx. apply Hx.
      by apply list_elem_of_lookup_2 in Hj.
    + apply (IH i j); [lia|done|done].
Qed.

Lemma filter_map_fst (items : list (character * nat)) (f : character → nat) (n : nat) :
  (∀ p, p ∈ items → p.2 = f p.1) →
  filter (λ c, f c = n) (map fst items) = map fst (filter (λ p, p.2 = n) items).
Proof.
  induction items as [|p items IH]; intros H; [done|].
  simpl. rewrite !filter_cons.
  rewrite <- (H p) by left.
  rewrite IH by (intros q Hq; apply H; by right).
  by destruct (decide (p.2 = n)).
Qed.

(** X21.  [frequency_analysis] returns every lower-case letter of the text
    exactly once and nothing else, the more frequent letters first; letters
    that are equally frequent come in the order of their first occurrence
    in the text. *)
Theorem frequency_analysis_ranked (ciphertext : text) :
  NoDup (frequency_analysis ciphertext)
  ∧ (∀ c, c ∈ frequency_analysis ciphertext ↔ c ∈ ciphertext ∧ c ∈ ascii_lowercase)
  ∧ (∀ i j a b, i ≤ j →
       frequency_analysis ciphertext !! i = Some a →
       frequency_analysis ciphertext !! j = Some b →
       occurrences b ciphertext ≤ occurrences a ciphertext)
  ∧ (∀ n, filter (λ c, occurrences c ciphertext = n) (frequency_analysis ciphertext)
          = filter (λ c, occurrences c ciphertext = n)
              (first_occurrences (filter (λ c, c ∈ ascii_lowercase) ciphertext))).
Proof.
  destruct (count_lowercase_spec ciphertext) as [Hkeys Hcounts].
  assert (Hperm : frequency_analysis ciphertext
                  ≡ₚ first_occurrences (filter (λ c, c ∈ ascii_lowercase) ciphertext)).
  { unfold frequency_analysis. rewrite <- Hkeys.
    apply Permutation_map, most_common_Permutation. }
  assert (Hsorted_counts : ∀ p, p ∈ most_common (count_lowercase ciphertext) →
                                p.2 = occurrences p.1 ciphertext).
  { intros [k n] Hp. rewrite most_common_Permutation in Hp. by apply Hcounts. }
  split; [|split; [|split]].
  - rewrite Hperm. apply NoDup_first_occurrences.
  - intros c. rewrite Hperm, elem_of_first_occurrences, list_elem_of_filter.
    split; intros [? ?]; done.
  - intros i j a b Hij Hi Hj. unfold frequency_analysis in Hi, Hj.
    rewrite list_lookup_fmap in Hi, Hj.
    destruct (most_common (count_lowercase ciphertext) !! i) as [[a' na]|] eqn:Hi';
      [|done].
    destruct (most_common (count_lowercase ciphertext) !! j) as [[b' nb]|] eqn:Hj';
      [|done].
    simpl in Hi, Hj. injection Hi as ->. injection Hj as ->.
    pose proof (Hsorted_counts (a, na) (list_elem_of_lookup_2 _ _ _ Hi')) as Ha.
    pose proof (Hsorted_counts (b, nb) (list_elem_of_lookup_2 _ _ _ Hj')) as Hb.
    simpl in Ha, Hb. rewrite <- Ha, <- Hb.
    destruct (decide (i = j)) as [->|Hne].
    + rewrite Hi' in Hj'. injection Hj' as _ ->. done.
    + apply (sorted_lookup (λ x y : character * nat, y.2 ≤ x.2)
               (most_common (count_lowercase ciphertext)) i j (a, na) (b, nb));
        [apply most_common_sorted|lia|done|done].
  - intros n. unfold frequency_analysis.
    rewrite (filter_map_fst _ (λ c, occurrences c ciphertext) n Hsorted_counts).
    rewrite filter_most_common.
    rewrite <- (filter_map_fst _ (λ c, occurrences c ciphertext) n).
    + by rewrite Hkeys.
    + intros [k m] Hp. by apply Hcounts.
Qed.

Example frequency_analysis_banana :
  frequency_analysis (txt "a banana split, by B") = txt "abnsplity".
Proof. vm_compute. reflexivity. Qed.

(** ** The candidate mappings *)

Lemma elem_of_permutations_S {A} (l : list A) (r : nat) (p : list A) :
  p ∈ permutations l (S r) ↔
    ∃ i x p', l !! i = Some x ∧ p = x :: p' ∧ p' ∈ permutations (delete i l) r.
Proof.
  simpl. rewrite list_elem_of_In, in_flat_map. split.
  - intros (i & _ & Hp). destruct (l !! i) as [x|] eqn:Hi; [|done].
    apply in_map_iff in Hp as (p' & <- & Hp').
    exists i, x, p'. by rewrite list_elem_of_In.
  - intros (i & x & p' & Hi & -> & Hp'). exists i. split.
    + apply in_seq. apply lookup_lt_Some in Hi. lia.
    + rewrite Hi. apply in_map. by apply list_elem_of_In.
Qed.

Lemma permutations_spec {A} (l : list A) (r : nat) (p : list A) :
  p ∈ permutations l r →
  length p = r ∧ (∀ x, x ∈ p → x ∈ l) ∧ (NoDup l → NoDup p).
Proof.
  revert l p. induction r as [|r IH]; intros l p Hp.
  - apply list_elem_of_singleton in Hp as ->.
    split; [done|]. split; [by intros x ?%elem_of_nil|constructor].
  - apply elem_of_permutations_S in Hp as (i & x & p' & Hi & -> & Hp').
    destruct (IH _ _ Hp') as (Hlen & Hsub & Hnd).
    pose proof (delete_Permutation l i x Hi) as Hperm.
    split; [simpl; lia|]. split.
    + intros y [->|Hy]%elem_of_cons; [by apply list_elem_of_lookup_2 in Hi|].
      rewrite Hperm. right. by apply Hsub.
    + intros Hl. rewrite Hperm in Hl. apply NoDup_cons in Hl as [Hx Hl].
      apply NoDup_cons. split; [|by apply Hnd]. intros Hx'. by apply Hx, Hsub.
Qed.

(** The first tuple takes the elements in their order. *)
Lemma permutations_first {A} (l : list A) (r : nat) :
  r ≤ length l → permutations l r !! 0 = Some (take r l).
Proof.
  revert l. induction r as [|r IH]; intros l Hr; [done|].
  destruct l as [|x l]; [simpl in Hr; lia|].
  simpl in Hr. simpl.
  specialize (IH l ltac:(lia)).
  destruct (permutations l r) as [|p ps]; [done|].
  simpl in IH. injection IH as ->. done.
Qed.

Lemma permutations_too_long {A} (l : list A) (r : nat) :
  length l < r → permutations l r = [].
Proof.
  revert l. induction r as [|r IH]; intros l Hr; [lia|].
  destruct (permutations l (S r)) as [|p ps] eqn:Hp; [done|].
  assert (p ∈ permutations l (S r)) as Hin by (rewrite Hp; left).
  apply elem_of_permutations_S in Hin as (i & x & p' & Hi & _ & Hp').
  pose proof (lookup_lt_Some _ _ _ Hi) as Hlt.
  rewrite IH in Hp'; [by apply elem_of_nil in Hp'|].
  rewrite length_delete by eauto. lia.
Qed.

Lemma lookup_fold_insert_pairs (pairs : list (character * character)) (m : gmap character character)
    (k v : character) :
  NoDup (map fst pairs) →
  fold_left (λ m kv, <[kv.1 := kv.2]> m) pairs m !! k = Some v ↔
    (k, v) ∈ pairs ∨ ((k ∉ map fst pairs) ∧ m !! k = Some v).
Proof.
  revert m. induction pairs as [|[k' v'] pairs IH]; intros m Hnd; simpl.
  - split; [intros H; right; split; [by intros ?%elem_of_nil|done]|].
    intros [H|[_ H]]; [by apply elem_of_nil in H|done].
  - apply NoDup_cons in Hnd as [Hk' Hnd]. rewrite (IH _ Hnd). split.
    + intros [H|[Hnin H]]; [left; by right|].
      destruct (decide (k' = k)) as [->|Hne].
      * rewrite lookup_insert_eq in H. injection H as ->. left. left.
      * rewrite lookup_insert_ne in H by done. right. split; [|done].
        intros [?|?]%elem_of_cons; [congruence|done].
    + intros [[H|H]%elem_of_cons|[Hnin H]].
      * injection H as -> ->. right. split; [done|]. apply lookup_insert_eq.
      * by left.
      * right. split; [intros Hin; apply Hnin; by right|].
        rewrite lookup_insert_ne; [done|]. intros ->. apply Hnin. left.
Qed.

Lemma lookup_zip_mapping (cipher p : text) (k v : character) :
  NoDup cipher → length p = length cipher →
  zip_mapping cipher p !! k = Some v ↔ ∃ i, cipher !! i = Some k ∧ p !! i = Some v.
Proof.
  intros Hnd Hlen. unfold zip_mapping.
  rewrite lookup_fold_insert_pairs by (rewrite fst_zip by lia; done).
  split.
  - intros [Hin|[_ H]]; [|by rewrite lookup_empty in H].
    apply list_elem_of_lookup in Hin as [i Hi].
    apply lookup_zip_with_Some in Hi as (a & b & Heq & Ha & Hb).
    injection Heq as -> ->. eauto.
  - intros (i & Hk & Hv). left. apply list_elem_of_lookup. exists i.
    apply lookup_zip_with_Some. eauto.
Qed.

(** X22.  For ranked cipher letters and English letters without repetition,
    every mapping that [generate_shift_mappings] yields is defined exactly
    on the cipher letters, sends them to English letters, and sends no two
    of them to the same letter.  When there are at least as many English
    letters, the first mapping pairs the cipher letters with the English
    letters rank by rank; when there are fewer, nothing is yielded. *)
Theorem generate_shift_mappings_injective (cipher english : text) :
  NoDup cipher → NoDup english →
  (∀ m, m ∈ generate_shift_mappings cipher english →
     (∀ c, is_Some (m !! c) ↔ c ∈ cipher)
     ∧ (∀ c p, m !! c = Some p → p ∈ english)
     ∧ (∀ c1 c2 p, m !! c1 = Some p → m !! c2 = Some p → c1 = c2))
  ∧ (length cipher ≤ length english →
     ∃ m, generate_shift_mappings cipher english !! 0 = Some m
          ∧ ∀ i c, cipher !! i = Some c → m !! c = english !! i)
  ∧ (length english < length cipher → generate_shift_mappings cipher english = []).
Proof.
  intros Hc He. unfold generate_shift_mappings. split; [|split].
  - intros m Hm. apply list_elem_of_fmap in Hm as (p & -> & Hp).
    destruct (permutations_spec _ _ _ Hp) as (Hlen & Hsub & Hnd).
    specialize (Hnd He).
    pose proof (lookup_zip_mapping cipher p) as Hl.
    split; [|split].
    + intros c. split.
      * intros [v Hv]. apply Hl in Hv as (i & Hi & _); [|done|done].
        by apply list_elem_of_lookup_2 in Hi.
      * intros Hin. apply list_elem_of_lookup in Hin as [i Hi].
        destruct (lookup_lt_is_Some_2 p i) as [v Hv].
        { apply lookup_lt_Some in Hi. lia. }
        exists v. apply Hl; eauto.
    + intros c v Hv. apply Hl in Hv as (i & _ & Hi); [|done|done].
      apply Hsub. by apply list_elem_of_lookup_2 in Hi.
    + intros c1 c2 v H1 H2.
      apply Hl in H1 as (i1 & Hc1 & Hp1); [|done|done].
      apply Hl in H2 as (i2 & Hc2 & Hp2); [|done|done].
      assert (i1 = i2) by exact (NoDup_lookup p i1 i2 v Hnd Hp1 Hp2). congruence.
  - intros Hlen. exists (zip_mapping cipher (take (length cipher) english)). split.
    + by rewrite list_lookup_fmap, permutations_first.
    + intros i c Hi.
      assert (Hi' : i < length cipher) by (by apply lookup_lt_Some in Hi).
      destruct (lookup_lt_is_Some_2 english i) as [v Hv]; [lia|].
      rewrite Hv. apply lookup_zip_mapping; [done|rewrite length_take; lia|].
      exists i. split; [done|]. by rewrite lookup_take_lt.
  - intros Hlen. by rewrite permutations_too_long.
Qed.

Lemma generate_shift_mappings_injective_witness :
  ∃ m, generate_shift_mappings (txt "xqz") english_freq_order !! 0 = Some m
       ∧ ∀ i c, txt "xqz" !! i = Some c → m !! c = english_freq_order !! i.
Proof.
  destruct (generate_shift_mappings_injective (txt "xqz") english_freq_order)
    as (_ & Hfirst & _).
  - apply (bool_decide_unpack _). vm_compute. exact I.
  - apply (bool_decide_unpack _). vm_compute. exact I.
  - apply Hfirst. vm_compute. lia.
Defined.

(** ** The candidates of the search *)

Lemma frequency_analysis_letters (ciphertext : text) :
  NoDup (frequency_analysis ciphertext)
  ∧ ∀ c, c ∈ frequency_analysis ciphertext ↔ c ∈ ciphertext ∧ c ∈ ascii_lowercase.
Proof.
  destruct (count_lowercase_spec ciphertext) as [Hkeys _].
  assert (Hperm : frequency_analysis ciphertext
                  ≡ₚ first_occurrences (filter (λ c, c ∈ ascii_lowercase) ciphertext)).
  { unfold frequency_analysis. rewrite <- Hkeys.
    apply Permutation_map, most_common_Permutation. }
  split.
  - rewrite Hperm. apply NoDup_first_occurrences.
  - intros c. rewrite Hperm, elem_of_first_occurrences, list_elem_of_filter.
    split; intros [? ?]; done.
Qed.

Lemma generated_mapping_spec (cipher english : text) (m : gmap character character) :
  NoDup cipher → NoDup english →
  m ∈ generate_shift_mappings cipher english →
  (∀ c, is_Some (m !! c) ↔ c ∈ cipher)
  ∧ (∀ c p, m !! c = Some p → p ∈ english)
  ∧ (∀ c1 c2 p, m !! c1 = Some p → m !! c2 = Some p → c1 = c2).
Proof.
  intros Hc He Hm. unfold generate_shift_mappings in Hm.
  apply list_elem_of_fmap in Hm as (p & -> & Hp).
  destruct (permutations_spec _ _ _ Hp) as (Hlen & Hsub & Hnd).
  specialize (Hnd He).
  pose proof (lookup_zip_mapping cipher p) as Hl.
  split; [|split].
  - intros c. split.
    + intros [v Hv]. apply Hl in Hv as (i & Hi & _); [|done|done].
      by apply list_elem_of_lookup_2 in Hi.
    + intros Hin. apply list_elem_of_lookup in Hin as [i Hi].
      destruct (lookup_lt_is_Some_2 p i) as [v Hv].
      { apply lookup_lt_Some in Hi. lia. }
      exists v. apply Hl; eauto.
  - intros c v Hv. apply Hl in Hv as (i & _ & Hi); [|done|done].
    apply Hsub. by apply list_elem_of_lookup_2 in Hi.
  - intros c1 c2 v H1 H2.
    apply Hl in H1 as (i1 & Hc1 & Hp1); [|done|done].
    apply Hl in H2 as (i2 & Hc2 & Hp2); [|done|done].
    assert (i1 = i2) by exact (NoDup_lookup p i1 i2 v Hnd Hp1 Hp2). congruence.
Qed.

Lemma NoDup_english_freq_order : NoDup english_freq_order.
Proof. by apply (bool_decide_unpack _); vm_compute. Qed.

Lemma english_freq_order_lowercase (c : character) :
  c ∈ english_freq_order → c ∈ ascii_lowercase.
Proof.
  assert (english_freq_order ≡ₚ ascii_lowercase) as ->; [|done].
  apply (bool_decide_unpack _). vm_compute. exact I.
Qed.

(** X23.  Every candidate of the search is an invertible relabelling of the
    lower-case letters of the ciphertext: a mapping generated for the ranked
    letters of a text keeps the length of the text, leaves every character
    that is not a lower-case letter in place, and is undone by applying the
    inverted mapping. *)
Theorem candidate_roundtrip (ciphertext : text) (m : gmap character character) :
  m ∈ generate_shift_mappings (frequency_analysis ciphertext) english_freq_order →
  decrypt_with_shift (decrypt_with_shift ciphertext m) (invert_mapping m) = ciphertext
  ∧ length (decrypt_with_shift ciphertext m) = length ciphertext
  ∧ ∀ i c, ciphertext !! i = Some c → c ∉ ascii_lowercase →
           decrypt_with_shift ciphertext m !! i = Some c.
Proof.
  intros Hm.
  destruct (frequency_analysis_letters ciphertext) as [Hnd Hmem].
  destruct (generated_mapping_spec _ _ m Hnd NoDup_english_freq_order Hm)
    as (Hdom & Hran & Hinj).
  unfold decrypt_with_shift. split; [|split].
  - rewrite map_map. rewrite <- (map_id ciphertext) at 2.
    apply map_ext_in. intros c Hc%list_elem_of_In.
    destruct (m !! c) as [v|] eqn:Hv; simpl.
    + assert (invert_mapping m !! v = Some c) as ->
        by (by apply (lookup_invert_mapping m v c Hinj)).
      done.
    + destruct (invert_mapping m !! c) as [k|] eqn:Hk; [|done]. exfalso.
      apply (lookup_invert_mapping m c k Hinj) in Hk.
      assert (c ∈ ascii_lowercase) as Hlow
        by (apply english_freq_order_lowercase; eauto).
      assert (is_Some (m !! c)) as [? ?]; [|congruence].
      apply Hdom, Hmem. by split.
  - apply length_map.
  - intros i c Hi Hc. rewrite list_lookup_fmap, Hi. simpl.
    destruct (m !! c) as [v|] eqn:Hv; [|done]. exfalso.
    apply Hc. assert (c ∈ frequency_analysis ciphertext) as Hin by (apply Hdom; eauto).
    by apply Hmem in Hin as [_ ?].
Qed.

Lemma candidate_roundtrip_witness :
  decrypt_with_shift
    (decrypt_with_shift (txt "xq, x!") (zip_mapping (txt "xq") (txt "et")))
    (invert_mapping (zip_mapping (txt "xq") (txt "et")))
  = txt "xq, x!"
  ∧ decrypt_with_shift (txt "xq, x!") (zip_mapping (txt "xq") (txt "et")) = txt "et, e!".
Proof.
  split; [|by vm_compute].
  apply (candidate_roundtrip (txt "xq, x!") (zip_mapping (txt "xq") (txt "et"))).
  apply (list_elem_of_lookup_2 _ 0).
  vm_compute. reflexivity.
Defined.

(** ** The search of [main] *)

Lemma find_first {A} (f : A → bool) (l : list A) (x : A) :
  find f l = Some x →
  ∃ i, l !! i = Some x ∧ f x = true
       ∧ ∀ j y, l !! j = Some y → j < i → f y = false.
Proof.
  induction l as [|a l IH]; simpl; [done|].
  destruct (f a) eqn:Ha.
  - intros [= ->]. exists 0. split; [done|]. split; [done|]. intros; lia.
  - intros (i & Hi & Hx & Hbefore)%IH. exists (S i).
    split; [done|]. split; [done|].
    intros [|j] y Hy Hlt; simpl in Hy.
    + congruence.
    + apply (Hbefore j); [done|lia].
Qed.

Lemma find_None_iff {A} (f : A → bool) (l : list A) :
  find f l = None ↔ ∀ x, x ∈ l → f x = false.
Proof.
  induction l as [|a l IH]; simpl.
  - split; [|done]. by intros _ x ?%elem_of_nil.
  - destruct (f a) eqn:Ha.
    + split; [done|]. intros H. rewrite (H a) in Ha; [done|left].
    + rewrite IH. split.
      * intros H x [->|?]%elem_of_cons; auto.
      * intros H x ?. apply H. by right.
Qed.

Lemma frequency_analysis_no_letters (ciphertext : text) :
  (∀ c, c ∈ ciphertext → c ∉ ascii_lowercase) →
  frequency_analysis ciphertext = [].
Proof.
  intros Hno. destruct (frequency_analysis_letters ciphertext) as [_ Hmem].
  destruct (frequency_analysis ciphertext) as [|c rest]; [done|].
  exfalso. destruct (proj1 (Hmem c)) as [Hc Hlow]; [left|].
  by apply (Hno c).
Qed.

Lemma decrypt_with_shift_empty (ciphertext : text) :
  decrypt_with_shift ciphertext ∅ = ciphertext.
Proof.
  unfold decrypt_with_shift. rewrite <- (map_id ciphertext) at 2.
  apply map_ext. intros c. by rewrite lookup_empty.
Qed.

(** X24.  The search of [main] returns the first candidate, in the order in
    which the mappings are generated, that the dictionary test accepts, and
    nothing ("No valid decryption found.") exactly when the test rejects
    every candidate.  When the lowered input has no lower-case letter there
    is a single candidate, the input itself, and an input of white space only
    is never decrypted. *)
Theorem search_decryption_first (check : text → bool) (line : text) :
  let ciphertext := lower (strip line) in
  let mappings :=
    generate_shift_mappings (frequency_analysis ciphertext) english_freq_order in
  (∀ plaintext, search_decryption check line = Some plaintext →
     is_valid_english check plaintext = true
     ∧ ∃ i shift_map,
         mappings !! i = Some shift_map
         ∧ plaintext = decrypt_with_shift ciphertext shift_map
         ∧ ∀ j earlier, mappings !! j = Some earlier → j < i →
             is_valid_english check (decrypt_with_shift ciphertext earlier) = false)
  ∧ (search_decryption check line = None ↔
     ∀ shift_map, shift_map ∈ mappings →
       is_valid_english check (decrypt_with_shift ciphertext shift_map) = false)
  ∧ ((∀ c, c ∈ ciphertext → c ∉ ascii_lowercase) →
     search_decryption check line
     = if is_valid_english check ciphertext then Some ciphertext else None)
  ∧ (strip line = [] → search_decryption check line = None).
Proof.
  intros ciphertext mappings.
  assert (Hsearch : search_decryption check line
                    = find (is_valid_english check)
                        (map (decrypt_with_shift ciphertext) mappings)) by reflexivity.
  assert (Hno : (∀ c, c ∈ ciphertext → c ∉ ascii_lowercase) →
                search_decryption check line
                = if is_valid_english check ciphertext then Some ciphertext else None).
  { intros Hfree. rewrite Hsearch. unfold mappings.
    rewrite (frequency_analysis_no_letters ciphertext Hfree).
    unfold generate_shift_mappings. cbn [length permutations map zip_mapping zip fold_left].
    rewrite decrypt_with_shift_empty. cbn [find].
    by destruct (is_valid_english check ciphertext). }
  split; [|split; [|split]].
  - intros plaintext Hp. rewrite Hsearch in Hp.
    apply find_first in Hp as (i & Hi & Hvalid & Hbefore).
    split; [done|].
    change (map (decrypt_with_shift ciphertext) mappings)
      with (decrypt_with_shift ciphertext <$> mappings) in *.
    rewrite list_lookup_fmap in Hi.
    destruct (mappings !! i) as [shift_map|] eqn:Hm; [|done].
    injection Hi as <-. exists i, shift_map.
    split; [done|]. split; [done|].
    intros j earlier Hj Hlt.
    apply (Hbefore j); [|done]. by rewrite list_lookup_fmap, Hj.
  - rewrite Hsearch, find_None_iff. split.
    + intros H shift_map Hin. apply H.
      apply list_elem_of_fmap. by exists shift_map.
    + intros H p Hin. apply list_elem_of_fmap in Hin as (shift_map & -> & Hin).
      by apply H.
  - exact Hno.
  - intros Hempty. rewrite Hno.
    + subst ciphertext. by rewrite Hempty.
    + subst ciphertext. rewrite Hempty. by intros c ?%elem_of_nil.
Qed.

Example search_decryption_tea :
  search_decryption (λ word, bool_decide (word = txt "tea")) (txt "  XQZ ")
  = Some (txt "tea").
Proof. vm_compute. reflexivity. Qed.

Example search_decryption_digits :
  search_decryption (λ word, bool_decide (word = txt "tea")) (txt "2024 ")
  = None.
Proof. vm_compute. reflexivity. Qed.
